(** * Release orchestrator for the experimental packages
      (scripts/exp/release.ts)

    A shallow embedding of the release script: the string helpers it
    relies on, the package descriptors it reads and writes, the version
    planner, the descriptor rewriter, the publisher and the workflow
    controller, followed by the properties established about them. *)

From Stdlib Require Import Ascii String List ZArith NArith Bool Lia.
From Stdlib Require Import DecimalString.
From stdpp Require Import gmap strings.

Local Open Scope stdpp_scope.

(** ** JavaScript strings

    Package names, versions and paths are sequences of code units; the
    ones that occur in descriptors are ASCII, so a code unit is an
    [ascii] here. *)

Module JsString.

(** [s.startsWith(l)], returning what follows [l]. *)
Fixpoint strip_prefix (l s : string) : option string :=
  match l, s with
  | EmptyString, _ => Some s
  | String a l', String b s' =>
      if Ascii.eqb a b then strip_prefix l' s' else None
  | String _ _, EmptyString => None
  end.

(** [s.includes(sub)]. *)
Fixpoint includes (sub s : string) : bool :=
  match strip_prefix sub s with
  | Some _ => true
  | None =>
      match s with
      | EmptyString => false
      | String _ s' => includes sub s'
      end
  end.

(** The line terminators that the pattern character [.] refuses. *)
Definition is_line_terminator (c : ascii) : bool :=
  Ascii.eqb c "010" || Ascii.eqb c "013".

Definition dot (c : ascii) : bool := negb (is_line_terminator c).

Fixpoint all_dot (s : string) : bool :=
  match s with
  | EmptyString => true
  | String c s' => dot c && all_dot s'
  end.

(** The greedy quantifier [.*] in front of a continuation [k] for the
    rest of the pattern: the longest run is tried first and the
    matcher backtracks one code unit at a time. The result carries
    the text consumed by [.*] and the result of the continuation. *)
Fixpoint star {C : Type} (k : string -> option C) (s : string)
  : option (string * C) :=
  let stop := option_map (pair EmptyString) (k s) in
  match s with
  | String c s' =>
      if dot c then
        match star k s' with
        | Some (a, r) => Some (String c a, r)
        | None => stop
        end
      else stop
  | EmptyString => stop
  end.

(** The anchor [$] (no multiline flag): end of input. *)
Definition at_end (s : string) : option unit :=
  match s with
  | EmptyString => Some tt
  | String _ _ => None
  end.

(** A literal piece of a pattern followed by a continuation. *)
Definition lit {C : Type} (l : string) (k : string -> option C)
    (s : string) : option C :=
  match strip_prefix l s with
  | Some s' => k s'
  | None => None
  end.

End JsString.

Import JsString.

(** ** removeExpInPackageName (release.ts, lines 429-438) *)

Definition FIREBASE_UMBRELLA_PACKAGE_NAME : string := "firebase-exp".

(** The pattern of [removeExpInPackageName] applied with [exec]: start
    of input, a first group made of a greedy run of any code units, the
    literal firebase and another greedy run, then the literal -exp, a
    second group made of a greedy run, and end of input. The regular
    expression object is created afresh on every call, so matching
    starts at index 0. The result holds the two captured groups. *)
Definition regex_exec (name : string) : option (string * string) :=
  match star (lit "firebase" (star (lit "-exp" (star at_end)))) name with
  | Some (a, (b, (c, _))) => Some (a +:+ "firebase" +:+ b, c)
  | None => None
  end.

Definition removeExpInPackageName (name : string) : string :=
  match regex_exec name with
  | None => name
  | Some (c1, c2) => c1 +:+ c2
  end.

(** ** Values of the script

    The values that flow through versions: a string, [undefined] (a
    missing map entry or object member) or [null] (what [inc] of the
    semver package answers for a version it refuses). *)

Inductive jsval : Type :=
| Undefined
| Null
| Str (s : string).

(** Truthiness as tested by [!dNextVersion]. *)
Definition falsy (v : jsval) : bool :=
  match v with
  | Undefined | Null => true
  | Str EmptyString => true
  | Str (String _ _) => false
  end.

(** A value inside a template literal. *)
Definition template (v : jsval) : string :=
  match v with
  | Undefined => "undefined"
  | Null => "null"
  | Str s => s
  end.

(** ** Keyed collections in insertion order

    A [Map] and an object used as a dictionary both keep their keys in
    insertion order; writing an existing key replaces the value in
    place, writing a new key appends. Package names are never array
    indices, so the special ordering of integer keys does not arise. *)

Definition dict (V : Type) : Type := list (string * V).

Fixpoint dict_set {V : Type} (k : string) (v : V) (m : dict V) : dict V :=
  match m with
  | [] => [(k, v)]
  | (k', v') :: m' =>
      if String.eqb k' k then (k, v) :: m' else (k', v') :: dict_set k v m'
  end.

Fixpoint dict_get {V : Type} (k : string) (m : dict V) : option V :=
  match m with
  | [] => None
  | (k', v) :: m' => if String.eqb k' k then Some v else dict_get k m'
  end.

Definition dict_keys {V : Type} (m : dict V) : list string := map fst m.

(** [Map.prototype.get]: [undefined] for a key without entry. *)
Definition map_get (k : string) (m : dict jsval) : jsval :=
  match dict_get k m with
  | Some v => v
  | None => Undefined
  end.

(** [obj[k] = v] for a text [v] on an object created by an object
    literal: the key __proto__ reaches the setter inherited from the
    prototype of objects, which ignores a value that is not an object,
    so that no member is created; any other key becomes or replaces a
    member. *)
Definition object_set (k v : string) (obj : dict string) : dict string :=
  if String.eqb k "__proto__" then obj else dict_set k v obj.

(** ** JSON documents and package descriptors *)

#[warnings="-register-all"]
Inductive json : Type :=
| JNull
| JBool (b : bool)
| JString (s : string)
| JObject (members : list (string * json)).

(** The members of package.json the script reads or writes. Every
    other member passes through the script untouched and is left out. *)
Record PackageJson : Type := {
  name : string;
  version : jsval;
  private : option bool;
  dependencies : option (dict string);
  peerDependencies : option (dict string);
  devDependencies : option (dict string)
}.

Definition json_member (k : string) (j : json) : option json :=
  match j with
  | JObject ms => dict_get k ms
  | _ => None
  end.

Fixpoint parse_deps_members (ms : list (string * json)) : option (dict string) :=
  match ms with
  | [] => Some []
  | (k, JString r) :: ms' =>
      match parse_deps_members ms' with
      | Some d => Some ((k, r) :: d)
      | None => None
      end
  | _ => None
  end.

(** An optional member holding a name-to-range object: [Some None] when
    the member is missing, [None] when it is not such an object. *)
Definition parse_deps (k : string) (j : json) : option (option (dict string)) :=
  match json_member k j with
  | None => Some None
  | Some (JObject ms) =>
      match parse_deps_members ms with
      | Some d => Some (Some d)
      | None => None
      end
  | Some _ => None
  end.

Definition parse_version (j : json) : option jsval :=
  match json_member "version" j with
  | None => Some Undefined
  | Some JNull => Some Null
  | Some (JString s) => Some (Str s)
  | Some _ => None
  end.

Definition parse_private (j : json) : option (option bool) :=
  match json_member "private" j with
  | None => Some None
  | Some (JBool b) => Some (Some b)
  | Some _ => None
  end.

(** [JSON.parse] of a descriptor, typed. *)
Definition parse_package (j : json) : option PackageJson :=
  match json_member "name" j with
  | Some (JString n) =>
      match parse_version j, parse_private j,
            parse_deps "dependencies" j, parse_deps "peerDependencies" j,
            parse_deps "devDependencies" j with
      | Some v, Some p, Some d, Some pd, Some dd =>
          Some {| name := n; version := v; private := p;
                  dependencies := d; peerDependencies := pd;
                  devDependencies := dd |}
      | _, _, _, _, _ => None
      end
  | _ => None
  end.

Definition deps_json (d : dict string) : json :=
  JObject (map (fun kv => (fst kv, JString (snd kv))) d).

Definition deps_member (k : string) (d : option (dict string))
  : list (string * json) :=
  match d with
  | Some d => [(k, deps_json d)]
  | None => []
  end.

(** [JSON.stringify]: a member whose value is [undefined] is omitted,
    [null] is written as such. *)
Definition stringify (p : PackageJson) : json :=
  JObject
    ([("name", JString (name p))]
     ++ match version p with
        | Undefined => []
        | Null => [("version", JNull)]
        | Str s => [("version", JString s)]
        end
     ++ match private p with
        | Some b => [("private", JBool b)]
        | None => []
        end
     ++ deps_member "dependencies" (dependencies p)
     ++ deps_member "peerDependencies" (peerDependencies p)
     ++ deps_member "devDependencies" (devDependencies p)).

(** [String.prototype.trim]: the white space and the line terminators
    among the code units at hand (tab to carriage return, space and
    no-break space). *)
Definition is_space (c : ascii) : bool :=
  let n := nat_of_ascii c in
  (n =? 32)%nat || ((9 <=? n)%nat && (n <=? 13)%nat) || (n =? 160)%nat.

Fixpoint trim_start (s : string) : string :=
  match s with
  | EmptyString => EmptyString
  | String c s' => if is_space c then trim_start s' else s
  end.

Fixpoint trim_end (s : string) : string :=
  match s with
  | EmptyString => EmptyString
  | String c s' =>
      match trim_end s' with
      | EmptyString => if is_space c then EmptyString else String c EmptyString
      | t => String c t
      end
  end.

Definition trim (s : string) : string := trim_end (trim_start s).

(** ** The semver package: parsing, [inc] and precedence

    The script imports [inc] from the semver package, a dependency that
    is not part of its sources. This is the parser of that package in
    its strict mode: a text of at most [MAX_LENGTH] code units is
    trimmed and matched against the version grammar (one optional
    leading v, the main version, an optional prerelease after a hyphen,
    optional build metadata after a plus sign), and the numbers are
    checked against [MAX_SAFE_INTEGER]; then its [inc] for the patch
    release and its [compare]. *)

Module Semver.

Definition MAX_LENGTH : nat := 256.
Definition MAX_SAFE_INTEGER : N := 9007199254740991.

Inductive identifier : Type :=
| Numeric (n : N)
| Alphanumeric (s : string).

Record SemVer : Type := {
  major : N;
  minor : N;
  patch : N;
  prerelease : list identifier;
  build : list string
}.

Definition is_digit (c : ascii) : bool :=
  let n := nat_of_ascii c in (48 <=? n)%nat && (n <=? 57)%nat.

Definition is_letter (c : ascii) : bool :=
  let n := nat_of_ascii c in
  ((65 <=? n)%nat && (n <=? 90)%nat) || ((97 <=? n)%nat && (n <=? 122)%nat).

Definition is_ident_char (c : ascii) : bool :=
  is_digit c || is_letter c || Ascii.eqb c "-".

(** The characters of a version without its optional leading v. *)
Definition version_char (c : ascii) : bool :=
  is_ident_char c || Ascii.eqb c "." || Ascii.eqb c "+".

Fixpoint all_chars (f : ascii -> bool) (s : string) : bool :=
  match s with
  | EmptyString => true
  | String c s' => f c && all_chars f s'
  end.

Definition nonempty (s : string) : bool :=
  match s with
  | EmptyString => false
  | String _ _ => true
  end.

Fixpoint digits_value (acc : N) (s : string) : N :=
  match s with
  | EmptyString => acc
  | String c s' => digits_value (acc * 10 + (N_of_ascii c - 48))%N s'
  end.

Definition number (s : string) : N := digits_value 0%N s.

(** A numeric identifier: 0, or digits without a leading zero. *)
Definition numeric_identifier (s : string) : bool :=
  match s with
  | EmptyString => false
  | String c EmptyString => is_digit c
  | String c s' => is_digit c && negb (Ascii.eqb c "0") && all_chars is_digit s'
  end.

(** A prerelease identifier: numeric, or letters, digits and hyphens
    with at least one that is not a digit. *)
Definition prerelease_identifier (s : string) : bool :=
  numeric_identifier s
  || (nonempty s && all_chars is_ident_char s && negb (all_chars is_digit s)).

Definition build_identifier (s : string) : bool :=
  nonempty s && all_chars is_ident_char s.

(** [s.split(sep)] for a separator of one code unit. *)
Fixpoint split (sep : ascii) (s : string) : list string :=
  match s with
  | EmptyString => [EmptyString]
  | String c s' =>
      if Ascii.eqb c sep then EmptyString :: split sep s'
      else match split sep s' with
           | h :: t => String c h :: t
           | [] => [String c EmptyString]
           end
  end.

(** The text before the first [sep] and, when there is one, the text
    after it. *)
Fixpoint break (sep : ascii) (s : string) : string * option string :=
  match s with
  | EmptyString => (EmptyString, None)
  | String c s' =>
      if Ascii.eqb c sep then (EmptyString, Some s')
      else let (h, t) := break sep s' in (String c h, t)
  end.

(** Prerelease identifiers made of digits are turned into numbers.
    (Beyond [MAX_SAFE_INTEGER] the package keeps the text and compares
    it after a lossy conversion; such identifiers are compared exactly
    here.) *)
Definition to_identifier (s : string) : identifier :=
  if all_chars is_digit s then Numeric (number s) else Alphanumeric s.

Definition parts (valid : string -> bool) (o : option string)
  : option (list string) :=
  match o with
  | None => Some []
  | Some txt =>
      let ids := split "." txt in
      if forallb valid ids then Some ids else None
  end.

(** The version grammar after the optional leading v, with the check
    of the numbers that follows the match. *)
Definition grammar (v : string) : option SemVer :=
  let (front, b) := break "+" v in
  let (main, p) := break "-" front in
  match split "." main, parts prerelease_identifier p,
        parts build_identifier b with
  | [ma; mi; pa], Some pre, Some bld =>
      if numeric_identifier ma && numeric_identifier mi
         && numeric_identifier pa
         && (number ma <=? MAX_SAFE_INTEGER)%N
         && (number mi <=? MAX_SAFE_INTEGER)%N
         && (number pa <=? MAX_SAFE_INTEGER)%N
      then Some {| major := number ma; minor := number mi;
                   patch := number pa;
                   prerelease := map to_identifier pre;
                   build := bld |}
      else None
  | _, _, _ => None
  end.

(** The optional leading v of the grammar. *)
Definition strip_v (v : string) : string :=
  match v with
  | String "v" v' => v'
  | _ => v
  end.

(** The constructor of a version: the limit on length is checked on
    the text as given, the grammar is matched on the trimmed text. *)
Definition parse (v : string) : option SemVer :=
  if (MAX_LENGTH <? String.length v)%nat then None
  else grammar (strip_v (trim v)).

Definition show_N (n : N) : string :=
  NilEmpty.string_of_uint (N.to_uint n).

Definition show_identifier (i : identifier) : string :=
  match i with
  | Numeric n => show_N n
  | Alphanumeric s => s
  end.

(** [SemVer.format]: the [version] member, without build metadata. *)
Definition format (v : SemVer) : string :=
  show_N (major v) +:+ "." +:+ show_N (minor v) +:+ "." +:+ show_N (patch v)
  +:+ match prerelease v with
      | [] => EmptyString
      | ids => "-" +:+ String.concat "." (map show_identifier ids)
      end.

(** [SemVer.inc('patch')]: a prerelease is bumped up to its own patch
    version, any other version gets the next patch number. *)
Definition inc_patch (v : SemVer) : SemVer :=
  {| major := major v; minor := minor v;
     patch := match prerelease v with
              | [] => (patch v + 1)%N
              | _ :: _ => patch v
              end;
     prerelease := [];
     build := build v |}.

(** [inc(version, 'patch')]: [null] when the version is refused. *)
Definition inc (version : jsval) : jsval :=
  match version with
  | Str s =>
      match parse s with
      | Some v => Str (format (inc_patch v))
      | None => Null
      end
  | _ => Null
  end.

Definition compareIdentifiers (a b : identifier) : comparison :=
  match a, b with
  | Numeric x, Numeric y => (x ?= y)%N
  | Numeric _, Alphanumeric _ => Lt
  | Alphanumeric _, Numeric _ => Gt
  | Alphanumeric x, Alphanumeric y => String.compare x y
  end.

Definition or_else (c d : comparison) : comparison :=
  match c with
  | Eq => d
  | _ => c
  end.

Definition compareMain (a b : SemVer) : comparison :=
  or_else (major a ?= major b)%N
    (or_else (minor a ?= minor b)%N (patch a ?= patch b)%N).

Fixpoint compareIds (a b : list identifier) : comparison :=
  match a, b with
  | [], [] => Eq
  | _ :: _, [] => Gt
  | [], _ :: _ => Lt
  | x :: a', y :: b' => or_else (compareIdentifiers x y) (compareIds a' b')
  end.

(** A version without prerelease ranks above one with a prerelease. *)
Definition comparePre (a b : SemVer) : comparison :=
  match prerelease a, prerelease b with
  | _ :: _, [] => Lt
  | [], _ :: _ => Gt
  | [], [] => Eq
  | pa, pb => compareIds pa pb
  end.

Definition compare (a b : SemVer) : comparison :=
  or_else (compareMain a b) (comparePre a b).

End Semver.

(** ** The outside world

    Everything the script does outside its own memory is an event; the
    answers of the outside world are read from an environment. *)

#[warnings="-register-all"]
Inductive Error : Type :=
| NotFound (path : string)
| Malformed (path : string)
| ChildProcessError (program : string) (args : list string) (cwd : string)
| ExternalFailure (what : string)
| JsError (message : string)
| TypeError (message : string)
| ListrError (errors : list Error).

Inductive TaskState : Type :=
| Completed
| Failed (e : Error).

Inductive Event : Type :=
| PrepareFirestore
| Spawn (program : string) (args : list string) (cwd : string)
| RemoveDir (path : string)
| MapWorkspace (patterns : list string)
| GitRevparse (args : list string)
| GitCheckout (what : string)
| WriteFile (path : string)
| Prompt (question : string)
| TaskRendered (title : string) (state : TaskState)
| Exec (command : string)
| ConsoleError (e : Error).

Record Env : Type := {
  projectRoot : string;
  (** the effect of prepare-firestore-for-exp-release on the tree *)
  prepare_firestore : gmap string json -> option (gmap string json);
  (** the package directories matched by the workspace patterns *)
  workspace_packages : list string -> option (list string);
  (** whether a child process ends with exit code 0 *)
  spawn_ok : string -> list string -> string -> bool;
  (** standard output of a shell command, when it succeeds *)
  exec_stdout : string -> option string;
  installations_dist_exists : bool;
  (** whether the removal of a directory ends well *)
  remove_dir_ok : bool;
  (** the tracked descriptors as recorded by version control *)
  committed : gmap string json;
  git_checkout_ok : bool;
  git_revparse : list string -> option string;
  (** the operator's answer to a confirmation *)
  answer : string -> bool
}.

(** The working tree: the package.json files by path. *)
Record World : Type := { files : gmap string json }.

(** How a computation ends: with a value, with an exception, or by
    [process.exit]. *)
Inductive Completion (A : Type) : Type :=
| Done (a : A)
| Throw (e : Error)
| ProcessExit (code : Z).

Arguments Done {A} a.
Arguments Throw {A} e.
Arguments ProcessExit {A} code.

(** A computation runs in a working tree and yields its completion, the
    tree it leaves and the events it caused, oldest first. *)
Definition M (A : Type) : Type := World -> Completion A * World * list Event.

Definition ret {A : Type} (a : A) : M A := fun w => (Done a, w, []).

Definition bind {A B : Type} (m : M A) (k : A -> M B) : M B :=
  fun w =>
    match m w with
    | (Done a, w1, ev1) =>
        match k a w1 with
        | (c, w2, ev2) => (c, w2, ev1 ++ ev2)
        end
    | (Throw e, w1, ev1) => (Throw e, w1, ev1)
    | (ProcessExit code, w1, ev1) => (ProcessExit code, w1, ev1)
    end.

Definition throw {A : Type} (e : Error) : M A := fun w => (Throw e, w, []).

Definition process_exit {A : Type} (code : Z) : M A :=
  fun w => (ProcessExit code, w, []).

Definition emit (e : Event) : M unit := fun w => (Done tt, w, [e]).

Declare Scope release_scope.
Delimit Scope release_scope with release.
Notation "x <- m ;; k" := (bind m (fun x => k))
  (at level 100, m at next level, right associativity) : release_scope.
Notation "m ;; k" := (bind m (fun _ => k))
  (at level 100, right associativity) : release_scope.
Local Open Scope release_scope.

Definition quote : string := String (ascii_of_nat 34) EmptyString.

Record RewriteOptions : Type := {
  removeExpInName : bool;
  updateVersions : bool;
  makePublic : bool
}.

(** A name bound in the script: a function over the version map, or
    the boolean answer of a confirmation. *)
Inductive Binding : Type :=
| FunctionValue (f : dict jsval -> M unit)
| BooleanValue (b : bool).

(** A call expression: a callee that is not a function raises a
    [TypeError]. *)
Definition call (callee_name : string) (callee : Binding)
    (arg : dict jsval) : M unit :=
  match callee with
  | FunctionValue f => f arg
  | BooleanValue _ => throw (TypeError (callee_name +:+ " is not a function"))
  end.

Section Release.

Variable env : Env.

(** *** Collaborators *)

Definition spawn (program : string) (args : list string) (cwd : string)
  : M unit :=
  emit (Spawn program args cwd);;
  if spawn_ok env program args cwd then ret tt
  else throw (ChildProcessError program args cwd).

Definition exec (command : string) : M string :=
  emit (Exec command);;
  match exec_stdout env command with
  | Some out => ret out
  | None => throw (ExternalFailure command)
  end.

(** [rmdirSync] with the option [recursive]: it throws when the
    directory cannot be removed. *)
Definition rmdirSync (path : string) : M unit :=
  emit (RemoveDir path);;
  if remove_dir_ok env then ret tt else throw (ExternalFailure "rmdirSync").

Definition prompt (question : string) : M bool :=
  emit (Prompt question);;
  ret (answer env question).

(** Modelled from the spec: [readPackageJson] of scripts/utils is not
    part of the sources at hand. It reads the descriptor
    [path/package.json] and fails when there is none or when it is
    not a well-formed descriptor. *)
Definition readPackageJson (path : string) : M PackageJson :=
  fun w =>
    match files w !! (path +:+ "/package.json") with
    | None => (Throw (NotFound path), w, [])
    | Some j =>
        match parse_package j with
        | Some p => (Done p, w, [])
        | None => (Throw (Malformed path), w, [])
        end
    end.

(** [writeFile]: the whole file is replaced. The write is taken to
    succeed: an error of the file system during a write is not part of
    this model, and what is stated below about a run that fails is
    stated for the failures that are (a descriptor that cannot be read,
    a tool or a child process that fails, an answer of the operator). *)
Definition writeFile (path : string) (content : json) : M unit :=
  fun w => (Done tt, {| files := <[path := content]> (files w) |},
            [WriteFile path]).

(** Modelled from the spec: [prepare] of prepare-firestore-for-exp-release
    is not part of the sources at hand; it edits descriptors in the
    tree or fails. *)
Definition prepareFirestoreForRelease : M unit :=
  fun w =>
    match prepare_firestore env (files w) with
    | Some fs => (Done tt, {| files := fs |}, [PrepareFirestore])
    | None => (Throw (ExternalFailure "prepare"), w, [PrepareFirestore])
    end.

(** Modelled from the spec: [mapWorkspaceToPackages] of
    scripts/release/utils/workspace is not part of the sources at
    hand; it lists the package directories of the workspace. *)
Definition mapWorkspaceToPackages (patterns : list string)
  : M (list string) :=
  emit (MapWorkspace patterns);;
  match workspace_packages env patterns with
  | Some l => ret l
  | None => throw (ExternalFailure "workspace")
  end.

Definition git_checkout (what : string) : M unit :=
  fun w =>
    if git_checkout_ok env
    then (Done tt, {| files := committed env ∪ files w |},
          [GitCheckout what])
    else (Throw (ExternalFailure "git checkout"), w, [GitCheckout what]).

Definition git_revparse_cmd (args : list string) : M string :=
  emit (GitRevparse args);;
  match git_revparse env args with
  | Some out => ret out
  | None => throw (ExternalFailure "git rev-parse")
  end.

(** *** getCurrentSha (lines 440-442) *)
Definition getCurrentSha : M string :=
  out <- git_revparse_cmd ["--short"; "HEAD"];;
  ret (trim out).

(** *** buildPackages (lines 175-271); the spinner is left out *)
Definition buildPackages : M unit :=
  let root := projectRoot env in
  spawn "yarn"
    ["lerna"; "run"; "--scope"; "@firebase/app";
     "--scope"; "@firebase/functions";
     "--scope"; "@firebase/remote-config";
     "--scope"; "@firebase/util";
     "--scope"; "@firebase/component";
     "--scope"; "@firebase/logger";
     "--scope"; "@firebase/webchannel-wrapper"; "build"] root;;
  spawn "yarn"
    ["lerna"; "run"; "--scope"; "@firebase/*-exp";
     "--scope"; "@firebase/*-compat"; "build:release"] root;;
  spawn "yarn"
    ["lerna"; "run"; "--scope"; "@firebase/firestore"; "prebuild"] root;;
  spawn "yarn"
    ["lerna"; "run"; "--scope"; "@firebase/firestore";
     "build:exp:release"] root;;
  (if installations_dist_exists env
   then rmdirSync (root +:+ "/packages/installations/dist")
   else ret tt);;
  spawn "yarn"
    ["lerna"; "run"; "--scope"; "firebase-exp"; "build:release"] root.

(** *** updatePackageJsons (lines 343-409); console output left out *)

(** The inner loop over the keys of one dependency object. *)
Definition rewrite_deps (versions : dict jsval) (dependencies : dict string)
  : dict string :=
  fold_left
    (fun newDependenciesObj kv =>
       let d := fst kv in
       let dNextVersion := map_get d versions in
       let nameWithoutExp := removeExpInPackageName d in
       if falsy dNextVersion
       then object_set nameWithoutExp (snd kv) newDependenciesObj
       else object_set nameWithoutExp (template dNextVersion)
              newDependenciesObj)
    dependencies [].

Definition or_empty (o : option (dict string)) : dict string :=
  match o with
  | Some d => d
  | None => []
  end.

(** The body of the loop, from the descriptor read to the one written. *)
Definition rewrite_descriptor (versions : dict jsval) (o : RewriteOptions)
    (packageJson : PackageJson) : PackageJson :=
  let p1 :=
    if updateVersions o
    then {| name := name packageJson;
            version := map_get (name packageJson) versions;
            private := private packageJson;
            dependencies := dependencies packageJson;
            peerDependencies := peerDependencies packageJson;
            devDependencies := devDependencies packageJson |}
    else packageJson in
  let p2 :=
    if removeExpInName o
    then {| name := removeExpInPackageName (name p1);
            version := version p1;
            private := private p1;
            dependencies :=
              Some (rewrite_deps versions (or_empty (dependencies p1)));
            peerDependencies :=
              Some (rewrite_deps versions (or_empty (peerDependencies p1)));
            devDependencies := devDependencies p1 |}
    else p1 in
  if makePublic o
  then {| name := name p2; version := version p2; private := Some false;
          dependencies := dependencies p2;
          peerDependencies := peerDependencies p2;
          devDependencies := devDependencies p2 |}
  else p2.

Fixpoint updatePackageJsons (packagePaths : list string)
    (versions : dict jsval) (o : RewriteOptions) : M unit :=
  match packagePaths with
  | [] => ret tt
  | path :: rest =>
      let packageJsonPath := path +:+ "/package.json" in
      packageJson <- readPackageJson path;;
      writeFile packageJsonPath
        (stringify (rewrite_descriptor versions o packageJson));;
      updatePackageJsons rest versions o
  end.

(** *** updatePackageNamesAndVersions (lines 273-299) *)

Fixpoint plan_versions (packagePaths : list string) (versions : dict jsval)
  : M (dict jsval) :=
  match packagePaths with
  | [] => ret versions
  | path :: rest =>
      p <- readPackageJson path;;
      if String.eqb (name p) FIREBASE_UMBRELLA_PACKAGE_NAME
      then
        let nextVersion := Semver.inc (version p) in
        plan_versions rest (dict_set (name p) nextVersion versions)
      else
        sha <- getCurrentSha;;
        let nextVersion := template (version p) +:+ "-exp." +:+ sha in
        plan_versions rest (dict_set (name p) (Str nextVersion) versions)
  end.

Definition updatePackageNamesAndVersions (packagePaths : list string)
  : M (dict jsval) :=
  versions <- plan_versions packagePaths [];;
  updatePackageJsons packagePaths versions
    {| removeExpInName := true; updateVersions := true;
       makePublic := true |};;
  ret versions.

(** *** publishPackage and publishToNpm (lines 301-327) *)

Definition publishPackage (packagePath : string) (dryRun : bool) : M unit :=
  let args := ["publish"; "--access"; "public"; "--tag"; "exp"] in
  let args := if dryRun then args ++ ["--dry-run"] else args in
  spawn "npm" args packagePath.

Record Task : Type := { title : string; task : M unit }.

(** The task list of listr, a dependency that is not part of the
    sources, with the options [concurrent: false] and
    [exitOnError: false] that the script passes: the tasks run one
    after the other in the order of the list, the state of each is
    rendered, and the error of a failed task is reported to the list,
    which collects it, while the following tasks still run. *)
Fixpoint listr_tasks (tasks : list Task) : M (list Error) :=
  match tasks with
  | [] => ret []
  | t :: rest =>
      fun w =>
        match task t w with
        | (Done _, w1, ev1) =>
            match listr_tasks rest w1 with
            | (c, w2, ev2) =>
                (c, w2, ev1 ++ TaskRendered (title t) Completed :: ev2)
            end
        | (Throw e, w1, ev1) =>
            match listr_tasks rest w1 with
            | (Done errors, w2, ev2) =>
                (Done (e :: errors), w2,
                 ev1 ++ TaskRendered (title t) (Failed e) :: ev2)
            | (c, w2, ev2) =>
                (c, w2, ev1 ++ TaskRendered (title t) (Failed e) :: ev2)
            end
        | (ProcessExit code, w1, ev1) => (ProcessExit code, w1, ev1)
        end
  end.

(** [Listr.run]: once every task has run, the promise it returns is
    rejected if errors have been collected, with one error (a
    [ListrError], Something went wrong) that holds them; otherwise it
    is fulfilled. *)
Definition listr_run (tasks : list Task) : M unit :=
  errors <- listr_tasks tasks;;
  match errors with
  | [] => ret tt
  | _ :: _ => throw (ListrError errors)
  end.

(** The tasks, one per package, titled with the name and the version
    read from the descriptor (the pictogram in front of the title is
    left out). *)
Fixpoint publish_tasks (packagePaths : list string) (dryRun : bool)
  : M (list Task) :=
  match packagePaths with
  | [] => ret []
  | pp :: rest =>
      p <- readPackageJson pp;;
      tasks <- publish_tasks rest dryRun;;
      ret ({| title := name p +:+ "@" +:+ template (version p);
              task := publishPackage pp dryRun |} :: tasks)
  end.

Definition publishToNpm (packagePaths : list string) (dryRun : bool)
  : M unit :=
  taskArray <- publish_tasks packagePaths dryRun;;
  listr_run taskArray.

(** *** resetWorkingTreeAndBumpVersions (lines 329-341) *)
Definition resetWorkingTreeAndBumpVersions (packagePaths : list string)
    (versions : dict jsval) : M unit :=
  git_checkout ".";;
  updatePackageJsons packagePaths versions
    {| removeExpInName := false; updateVersions := true;
       makePublic := false |}.

(** *** commitAndPush (lines 411-427); the working directory given to
    the last command is left out *)
Definition commitAndPush (versions : dict jsval) : M unit :=
  exec "git add */package.json yarn.lock";;
  let firebaseExpVersion := map_get FIREBASE_UMBRELLA_PACKAGE_NAME versions in
  exec ("git commit -m " +:+ quote +:+ "Publish firebase@exp "
        +:+ (if falsy firebaseExpVersion then EmptyString
             else template firebaseExpVersion) +:+ quote);;
  out <- exec "git rev-parse --abbrev-ref HEAD";;
  let currentBranch := trim out in
  exec ("git push origin " +:+ currentBranch +:+ " --no-verify -u");;
  ret tt.

(** *** publishExpPackages (lines 48-170)

    The body of the [try] block; console output and the text of the
    questions are left out, a confirmation is known by its name. Inside
    the block guarded by [!dryRun] the constant [commitAndPush] that
    receives the answer of the confirmation hides the function of the
    same name, so the call [commitAndPush(versions)] applies that
    constant. *)
Definition publishExpPackages_try (dryRun : bool) : M unit :=
  prepareFirestoreForRelease;;
  buildPackages;;
  workspace <- mapWorkspaceToPackages [projectRoot env +:+ "/packages-exp/*"];;
  let packagePaths := workspace ++ [projectRoot env +:+ "/packages/firestore"] in
  versions <- updatePackageNamesAndVersions packagePaths;;
  versionCheck <- prompt "versionCheck";;
  (if negb versionCheck then throw (JsError "Version check failed")
   else ret tt);;
  publishToNpm packagePaths dryRun;;
  let firebaseExpVersion :=
    dict_set FIREBASE_UMBRELLA_PACKAGE_NAME
      (map_get FIREBASE_UMBRELLA_PACKAGE_NAME versions) [] in
  let firebaseExpPath :=
    filter (fun p => includes FIREBASE_UMBRELLA_PACKAGE_NAME p) packagePaths in
  resetWorkingTree <- prompt "resetWorkingTree";;
  (if resetWorkingTree
   then resetWorkingTreeAndBumpVersions firebaseExpPath firebaseExpVersion
   else process_exit 0);;
  if negb dryRun
  then
    answered <- prompt "commitAndPush";;
    let commitAndPush := BooleanValue answered in
    if answered then call "commitAndPush" commitAndPush versions
    else ret tt
  else ret tt.

(** The whole function: an exception is logged and turned into exit
    code 1; a run that ends without one leaves the process to finish
    with exit code 0. The result is the exit code of the process. *)
Definition publishExpPackages (dryRun : bool)
  : World -> Z * World * list Event :=
  fun w =>
    match publishExpPackages_try dryRun w with
    | (Done _, w1, ev) => (0%Z, w1, ev)
    | (Throw err, w1, ev) => (1%Z, w1, ev ++ [ConsoleError err])
    | (ProcessExit code, w1, ev) => (code, w1, ev)
    end.

End Release.

(** ** Observations used in the statements *)

Definition completion {A : Type} (r : Completion A * World * list Event)
  : Completion A := fst (fst r).

Definition world_after {A : Type} (r : Completion A * World * list Event)
  : World := snd (fst r).

Definition events {A : Type} (r : Completion A * World * list Event)
  : list Event := snd r.

(** The descriptor that [readPackageJson] finds for a package
    directory in a tree, if any. *)
Definition descriptor_at (fs : gmap string json) (path : string)
  : option PackageJson :=
  match fs !! (path +:+ "/package.json") with
  | Some j => parse_package j
  | None => None
  end.

Definition readable (fs : gmap string json) (path : string) : bool :=
  match descriptor_at fs path with
  | Some _ => true
  | None => false
  end.

(** The devDependencies member of a file of the tree, if any. *)
Definition devDependencies_of (fs : gmap string json) (file : string)
  : option json :=
  match fs !! file with
  | Some j => json_member "devDependencies" j
  | None => None
  end.

(** The version that the planner assigns to a descriptor, for a given
    revision identifier. *)
Definition next_version (sha : string) (p : PackageJson) : jsval :=
  if String.eqb (name p) FIREBASE_UMBRELLA_PACKAGE_NAME
  then Semver.inc (version p)
  else Str (template (version p) +:+ "-exp." +:+ sha).

(** One turn of the planning loop, on the version map alone. *)
Definition plan_step (sha : string) (fs : gmap string json)
    (versions : dict jsval) (path : string) : dict jsval :=
  match descriptor_at fs path with
  | Some p => dict_set (name p) (next_version sha p) versions
  | None => versions
  end.

(** The package of a directory is readable and its current version
    parses as a semantic version. *)
Definition version_parses (fs : gmap string json) (path : string) : bool :=
  match descriptor_at fs path with
  | Some p =>
      match version p with
      | Str v =>
          match Semver.parse v with
          | Some _ => true
          | None => false
          end
      | _ => false
      end
  | None => false
  end.

(** Whether a directory holds a package of a given name. *)
Definition named (fs : gmap string json) (k : string) (path : string) : bool :=
  match descriptor_at fs path with
  | Some p => String.eqb (name p) k
  | None => false
  end.

(** "Neither equal nor older": both versions parse and the first one
    ranks strictly above the second. *)
Definition ranks_above (planned current : string) : Prop :=
  exists p c, Semver.parse planned = Some p /\ Semver.parse current = Some c
              /\ Semver.compare p c = Gt.

(** ** A working set to run the script on

    The umbrella package at 1.2.3, a package @x/a-exp at 0.5.0 that
    depends on @x/b-exp in the range ^0.5.0, and @x/b-exp at 0.5.0;
    the current revision is abcdef. *)

Module Scenario.

Definition descriptor (n v : string) (deps : option (dict string))
  : PackageJson :=
  {| name := n; version := Str v; private := Some true;
     dependencies := deps; peerDependencies := None;
     devDependencies := Some [("@x/b-exp", "^0.5.0")] |}.

Definition umbrella_dir : string := "/repo/packages-exp/firebase-exp".
Definition a_dir : string := "/repo/packages-exp/a-exp".
Definition b_dir : string := "/repo/packages-exp/b-exp".
Definition firestore_dir : string := "/repo/packages/firestore".

Definition paths : list string := [umbrella_dir; a_dir; b_dir].

Definition tree : gmap string json :=
  <[umbrella_dir +:+ "/package.json" :=
      stringify (descriptor "firebase-exp" "1.2.3" None)]>
  (<[a_dir +:+ "/package.json" :=
      stringify (descriptor "@x/a-exp" "0.5.0"
                   (Some [("@x/b-exp", "^0.5.0")]))]>
  (<[b_dir +:+ "/package.json" :=
      stringify (descriptor "@x/b-exp" "0.5.0" None)]>
  (<[firestore_dir +:+ "/package.json" :=
      stringify (descriptor "@firebase/firestore" "2.0.0"
                   (Some [("@firebase/app-exp", "0.0.1")]))]> ∅))).

Definition world : World := {| files := tree |}.

Definition newline : string := String (ascii_of_nat 10) EmptyString.

(** An outside world in which every tool succeeds except the
    publication of the directories listed in [failing], and in which
    the operator gives the answers of [answers]. *)
Definition env (answers : string -> bool) (failing : list string) : Env :=
  {| projectRoot := "/repo";
     prepare_firestore := fun fs => Some fs;
     workspace_packages := fun _ => Some paths;
     spawn_ok := fun program _ cwd =>
       negb (String.eqb program "npm" && existsb (String.eqb cwd) failing);
     exec_stdout := fun _ => Some ("master" +:+ newline);
     installations_dist_exists := true;
     remove_dir_ok := true;
     committed := tree;
     git_checkout_ok := true;
     git_revparse := fun _ => Some ("abcdef" +:+ newline);
     answer := answers |}.

Definition yes : string -> bool := fun _ => true.

Definition yes_but (question : string) : string -> bool :=
  fun q => negb (String.eqb q question).

End Scenario.

(** ** Observations on a run of the workflow *)

Definition exit_code (r : Z * World * list Event) : Z := fst (fst r).

Definition trace (r : Z * World * list Event) : list Event := snd r.

(** Events of the steps that neither ask the operator nor publish. *)
Definition quiet (e : Event) : bool :=
  match e with
  | PrepareFirestore | RemoveDir _ | MapWorkspace _ | GitRevparse _
  | GitCheckout _ | WriteFile _ => true
  | Spawn program _ _ => String.eqb program "yarn"
  | _ => false
  end.

(** Events of the publisher. *)
Definition publishing (e : Event) : bool :=
  match e with
  | Spawn program _ _ => String.eqb program "npm"
  | TaskRendered _ _ => true
  | _ => false
  end.

(** Events of a publisher none of whose tasks failed. *)
Definition published (e : Event) : bool :=
  match e with
  | Spawn program _ _ => String.eqb program "npm"
  | TaskRendered _ Completed => true
  | _ => false
  end.

(** A computation that causes only events of one kind and never ends
    the process. *)
Definition emits {A : Type} (P : Event -> bool) (m : M A) : Prop :=
  forall w, forallb P (events (m w)) = true
            /\ forall code, completion (m w) <> ProcessExit code.

(** The publisher, package by package. *)
Definition publish_args (dryRun : bool) : list string :=
  let args := ["publish"; "--access"; "public"; "--tag"; "exp"] in
  if dryRun then args ++ ["--dry-run"] else args.

Definition publish_state (env : Env) (dryRun : bool) (pp : string)
  : TaskState :=
  if spawn_ok env "npm" (publish_args dryRun) pp then Completed
  else Failed (ChildProcessError "npm" (publish_args dryRun) pp).

Definition package_title (fs : gmap string json) (pp : string) : string :=
  match descriptor_at fs pp with
  | Some p => name p +:+ "@" +:+ template (version p)
  | None => EmptyString
  end.

Definition publish_events (env : Env) (dryRun : bool)
    (fs : gmap string json) (pp : string) : list Event :=
  [Spawn "npm" (publish_args dryRun) pp;
   TaskRendered (package_title fs pp) (publish_state env dryRun pp)].

Definition publish_errors (env : Env) (dryRun : bool) (paths : list string)
  : list Error :=
  flat_map (fun pp => match publish_state env dryRun pp with
                      | Failed e => [e]
                      | Completed => []
                      end) paths.

(** The ways in which the body of the [try] block can end, with the
    events it has caused: [before] and [between] are the quiet
    stretches around the confirmations, [pub] what the publisher did. *)
Inductive Outcome (env : Env) (dryRun : bool)
  : Completion unit -> list Event -> Prop :=
| FailedBeforeVersionCheck e before :
    forallb quiet before = true ->
    Outcome env dryRun (Throw e) before
| VersionCheckDeclined before :
    forallb quiet before = true ->
    answer env "versionCheck" = false ->
    Outcome env dryRun (Throw (JsError "Version check failed"))
      (before ++ [Prompt "versionCheck"])
| DescriptorUnreadable e before :
    forallb quiet before = true ->
    answer env "versionCheck" = true ->
    Outcome env dryRun (Throw e) (before ++ [Prompt "versionCheck"])
| PublishRejected errors before pub :
    forallb quiet before = true ->
    answer env "versionCheck" = true ->
    forallb publishing pub = true ->
    errors <> [] ->
    Outcome env dryRun (Throw (ListrError errors))
      (before ++ Prompt "versionCheck" :: pub)
| ResetDeclined before pub :
    forallb quiet before = true ->
    answer env "versionCheck" = true ->
    forallb published pub = true ->
    answer env "resetWorkingTree" = false ->
    Outcome env dryRun (ProcessExit 0)
      (before ++ Prompt "versionCheck" :: pub ++ [Prompt "resetWorkingTree"])
| ResetFailed e before pub between :
    forallb quiet before = true ->
    answer env "versionCheck" = true ->
    forallb published pub = true ->
    answer env "resetWorkingTree" = true ->
    forallb quiet between = true ->
    Outcome env dryRun (Throw e)
      (before ++ Prompt "versionCheck" :: pub
       ++ Prompt "resetWorkingTree" :: between)
| DryRunDone before pub between :
    forallb quiet before = true ->
    answer env "versionCheck" = true ->
    forallb published pub = true ->
    answer env "resetWorkingTree" = true ->
    forallb quiet between = true ->
    dryRun = true ->
    Outcome env dryRun (Done tt)
      (before ++ Prompt "versionCheck" :: pub
       ++ Prompt "resetWorkingTree" :: between)
| CommitDeclined before pub between :
    forallb quiet before = true ->
    answer env "versionCheck" = true ->
    forallb published pub = true ->
    answer env "resetWorkingTree" = true ->
    forallb quiet between = true ->
    dryRun = false ->
    answer env "commitAndPush" = false ->
    Outcome env dryRun (Done tt)
      (before ++ Prompt "versionCheck" :: pub
       ++ Prompt "resetWorkingTree" :: between ++ [Prompt "commitAndPush"])
| CommitCallFailed before pub between :
    forallb quiet before = true ->
    answer env "versionCheck" = true ->
    forallb published pub = true ->
    answer env "resetWorkingTree" = true ->
    forallb quiet between = true ->
    dryRun = false ->
    answer env "commitAndPush" = true ->
    Outcome env dryRun (Throw (TypeError "commitAndPush is not a function"))
      (before ++ Prompt "versionCheck" :: pub
       ++ Prompt "resetWorkingTree" :: between ++ [Prompt "commitAndPush"]).

(** The task list that [publishToNpm] builds for readable packages. *)
Definition tasks_for (env : Env) (dryRun : bool) (fs : gmap string json)
    (paths : list string) : list Task :=
  map (fun pp => {| title := package_title fs pp;
                    task := publishPackage env pp dryRun |}) paths.

(** ** Observations used in the further properties *)

(** The events of a build in which every stage succeeds, in order. *)
Definition build_events (env : Env) : list Event :=
  let root := projectRoot env in
  [Spawn "yarn"
     ["lerna"; "run"; "--scope"; "@firebase/app";
      "--scope"; "@firebase/functions";
      "--scope"; "@firebase/remote-config";
      "--scope"; "@firebase/util";
      "--scope"; "@firebase/component";
      "--scope"; "@firebase/logger";
      "--scope"; "@firebase/webchannel-wrapper"; "build"] root;
   Spawn "yarn"
     ["lerna"; "run"; "--scope"; "@firebase/*-exp";
      "--scope"; "@firebase/*-compat"; "build:release"] root;
   Spawn "yarn"
     ["lerna"; "run"; "--scope"; "@firebase/firestore"; "prebuild"] root;
   Spawn "yarn"
     ["lerna"; "run"; "--scope"; "@firebase/firestore";
      "build:exp:release"] root]
  ++ (if installations_dist_exists env
      then [RemoveDir (root +:+ "/packages/installations/dist")]
      else [])
  ++ [Spawn "yarn"
        ["lerna"; "run"; "--scope"; "firebase-exp"; "build:release"] root].

(** The child process or the removal asked for by an event ended well
    (any other event counts as such). *)
Definition spawned_ok (env : Env) (e : Event) : bool :=
  match e with
  | Spawn program args cwd => spawn_ok env program args cwd
  | RemoveDir _ => remove_dir_ok env
  | _ => true
  end.

(** The error with which the stage asked for by an event fails. *)
Definition stage_error (e : Event) : Error :=
  match e with
  | Spawn program args cwd => ChildProcessError program args cwd
  | _ => ExternalFailure "rmdirSync"
  end.

(** Events of a run that got no further than the build. *)
Definition build_only (e : Event) : bool :=
  match e with
  | PrepareFirestore | RemoveDir _ | ConsoleError _ => true
  | Spawn program _ _ => String.eqb program "yarn"
  | _ => false
  end.

(** What the answers of the operator and the dry-run flag allow a run
    to do: publish only with the versions confirmed and with the
    arguments of the mode, propose the reset only with the versions
    confirmed, check out (the whole tree) only with the reset
    confirmed, propose the commit only outside a dry run, and never run
    a shell command. *)
Definition permitted (env : Env) (dryRun : bool) (e : Event) : bool :=
  match e with
  | Spawn program args _ =>
      if String.eqb program "npm"
      then answer env "versionCheck"
           && bool_decide (args = publish_args dryRun)
      else true
  | TaskRendered _ _ => answer env "versionCheck"
  | GitCheckout what =>
      String.eqb what "." && answer env "versionCheck"
      && answer env "resetWorkingTree"
  | Prompt question =>
      if String.eqb question "resetWorkingTree"
      then answer env "versionCheck"
      else if String.eqb question "commitAndPush"
           then negb dryRun && answer env "versionCheck"
                && answer env "resetWorkingTree"
           else true
  | Exec _ => false
  | _ => true
  end.

(** The tree that a run leaves behind. *)
Definition tree_after (r : Z * World * list Event) : gmap string json :=
  files (snd (fst r)).

(** The confirmations asked in a trace, in order. *)
Definition questions (l : list Event) : list string :=
  flat_map (fun e => match e with
                     | Prompt question => [question]
                     | _ => []
                     end) l.

Definition is_write (e : Event) : bool :=
  match e with
  | WriteFile _ => true
  | _ => false
  end.

(** A descriptor with another version and nothing else changed. *)
Definition with_version (p : PackageJson) (v : jsval) : PackageJson :=
  {| name := name p; version := v; private := private p;
     dependencies := dependencies p;
     peerDependencies := peerDependencies p;
     devDependencies := devDependencies p |}.

(** The value that the rewriter gives to a dependency. *)
Definition dependency_value (versions : dict jsval) (d range : string)
  : string :=
  if falsy (map_get d versions) then range
  else template (map_get d versions).

(** The options of the two uses of the rewriter. *)
Definition publish_mode : RewriteOptions :=
  {| removeExpInName := true; updateVersions := true; makePublic := true |}.

Definition reset_mode : RewriteOptions :=
  {| removeExpInName := false; updateVersions := true; makePublic := false |}.

Fixpoint last_char (s : string) : option ascii :=
  match s with
  | EmptyString => None
  | String c EmptyString => Some c
  | String _ s' => last_char s'
  end.

Definition first_char (s : string) : option ascii :=
  match s with
  | EmptyString => None
  | String c _ => Some c
  end.

Definition not_space (o : option ascii) : bool :=
  match o with
  | Some c => negb (is_space c)
  | None => true
  end.

(** The shell commands of [commitAndPush], in order; the last one is
    known once the name of the branch has been read. *)
Definition commit_commands (env : Env) (versions : dict jsval)
  : list string :=
  let firebaseExpVersion := map_get FIREBASE_UMBRELLA_PACKAGE_NAME versions in
  ["git add */package.json yarn.lock";
   "git commit -m " +:+ quote +:+ "Publish firebase@exp "
   +:+ (if falsy firebaseExpVersion then EmptyString
        else template firebaseExpVersion) +:+ quote;
   "git rev-parse --abbrev-ref HEAD"]
  ++ match exec_stdout env "git rev-parse --abbrev-ref HEAD" with
     | Some out => ["git push origin " +:+ trim out +:+ " --no-verify -u"]
     | None => []
     end.

Definition command_ok (env : Env) (command : string) : bool :=
  match exec_stdout env command with
  | Some _ => true
  | None => false
  end.
(** * Properties *)

Local Arguments String.append !_ _ / : simpl nomatch.

(** ** Strings *)

Section StringFacts.

Implicit Types s t u : string.

Lemma str_app_assoc s t u : (s +:+ t) +:+ u = s +:+ (t +:+ u).
Proof. induction s as [|c s IH]; simpl; [reflexivity | now rewrite IH]. Qed.

Lemma str_app_nil_r s : s +:+ EmptyString = s.
Proof. induction s as [|c s IH]; simpl; [reflexivity | now rewrite IH]. Qed.

Lemma str_length_app s t :
  String.length (s +:+ t) = String.length s + String.length t.
Proof. induction s as [|c s IH]; simpl; [reflexivity | now rewrite IH]. Qed.

(** Two decompositions of one string at the same position agree. *)
Lemma str_app_inv s1 s2 t1 t2 :
  s1 +:+ t1 = s2 +:+ t2 -> String.length s1 = String.length s2 ->
  s1 = s2 /\ t1 = t2.
Proof.
  revert s2. induction s1 as [|c s1 IH]; intros [|d s2]; simpl;
    intros He Hl; try discriminate.
  - now split.
  - injection He as -> He. injection Hl as Hl.
    destruct (IH _ He Hl) as [-> ->]. now split.
Qed.

Lemma str_app_inv_tail s1 s2 t : s1 +:+ t = s2 +:+ t -> s1 = s2.
Proof.
  intros He. apply (str_app_inv s1 s2 t t He).
  apply (f_equal String.length) in He. rewrite !str_length_app in He. lia.
Qed.

(** A longer prefix of the same string extends a shorter one. *)
Lemma str_app_split s1 s2 t1 t2 :
  s1 +:+ t1 = s2 +:+ t2 -> String.length s1 <= String.length s2 ->
  exists m, s2 = s1 +:+ m /\ t1 = m +:+ t2.
Proof.
  revert s2. induction s1 as [|c s1 IH]; intros s2; simpl; intros He Hl.
  - exists s2. now split.
  - destruct s2 as [|d s2]; simpl in *; [lia |].
    injection He as -> He.
    destruct (IH s2 He ltac:(lia)) as (m & -> & ->). now exists m.
Qed.

Lemma strip_prefix_spec l s r : strip_prefix l s = Some r <-> s = l +:+ r.
Proof.
  revert s. induction l as [|a l IH]; intros s; simpl.
  - split; [now intros [= ->] | now intros ->].
  - destruct s as [|b s].
    + split; discriminate.
    + destruct (Ascii.eqb_spec a b) as [->|Hne].
      * rewrite IH. split; [now intros -> | now intros [= ->]].
      * split; [discriminate | intros [= ? ?]; congruence].
Qed.

Lemma strip_prefix_app l r : strip_prefix l (l +:+ r) = Some r.
Proof. now apply strip_prefix_spec. Qed.

Lemma includes_spec sub s :
  includes sub s = true <-> exists pre post, s = pre +:+ sub +:+ post.
Proof.
  induction s as [|c s IH]; simpl.
  - destruct (strip_prefix sub EmptyString) as [r|] eqn:E.
    + apply strip_prefix_spec in E. split; [|reflexivity].
      intros _. now exists EmptyString, r.
    + split; [discriminate |]. intros (pre & post & H).
      destruct pre; [|discriminate]. simpl in H.
      apply strip_prefix_spec in H. congruence.
  - destruct (strip_prefix sub (String c s)) as [r|] eqn:E.
    + apply strip_prefix_spec in E. split; [|reflexivity].
      intros _. now exists EmptyString, r.
    + rewrite IH. split.
      * intros (pre & post & ->). now exists (String c pre), post.
      * intros (pre & post & H). destruct pre as [|d pre]; simpl in H.
        -- apply strip_prefix_spec in H. congruence.
        -- injection H as -> ->. now exists pre, post.
Qed.

Lemma includes_false sub s :
  includes sub s = false -> forall pre post, s <> pre +:+ sub +:+ post.
Proof.
  intros H pre post ->.
  assert (includes sub (pre +:+ sub +:+ post) = true)
    by (apply includes_spec; eauto).
  congruence.
Qed.

Lemma all_dot_app s t : all_dot (s +:+ t) = all_dot s && all_dot t.
Proof.
  induction s as [|c s IH]; simpl; [reflexivity|].
  now rewrite IH, andb_assoc.
Qed.

End StringFacts.

(** ** The greedy quantifier *)

Section Star.

Context {C : Type}.
Variable k : string -> option C.

(** What [.*] consumed is free of line terminators and the
    continuation accepted what was left. *)
Lemma star_sound s a r :
  star k s = Some (a, r) ->
  exists rest, s = a +:+ rest /\ all_dot a = true /\ k rest = Some r.
Proof.
  revert a r. induction s as [|c s IH]; intros a r; simpl.
  - destruct (k EmptyString) eqn:E; simpl; [|discriminate].
    intros [= <- <-]. now exists EmptyString.
  - assert (Hstop : option_map (pair EmptyString) (k (String c s)) = Some (a, r) ->
                    exists rest, String c s = a +:+ rest /\ all_dot a = true
                                 /\ k rest = Some r).
    { destruct (k (String c s)) eqn:E; simpl; [|discriminate].
      intros [= <- <-]. now exists (String c s). }
    destruct (dot c) eqn:Hc; [|exact Hstop].
    destruct (star k s) as [[a' r']|] eqn:E; [|exact Hstop].
    intros [= <- <-]. destruct (IH _ _ eq_refl) as (rest & -> & Ha & Hk).
    exists rest. simpl. rewrite Hc, Ha. now repeat split.
Qed.

(** [.*] fails only if the continuation refuses every split. *)
Lemma star_complete a rest :
  all_dot a = true -> k rest <> None -> star k (a +:+ rest) <> None.
Proof.
  induction a as [|c a IH]; simpl; intros Ha Hk.
  - destruct rest as [|d rest]; simpl.
    + destruct (k EmptyString); [discriminate | congruence].
    + destruct (dot d); [destruct (star k rest) as [[? ?]|]; [discriminate|] |];
        (destruct (k (String d rest)); [discriminate | congruence]).
  - apply andb_true_iff in Ha as [Hc Ha]. rewrite Hc.
    specialize (IH Ha Hk).
    destruct (star k (a +:+ rest)) as [[? ?]|]; [discriminate | congruence].
Qed.

(** Greediness: the continuation refuses every longer run. *)
Lemma star_greedy s a r a' rest' :
  star k s = Some (a, r) -> s = a' +:+ rest' -> all_dot a' = true ->
  String.length a < String.length a' -> k rest' = None.
Proof.
  revert a r a'. induction s as [|c s IH]; intros a r a'; simpl.
  - intros _ He _ Hl. destruct a'; [simpl in Hl; lia | discriminate].
  - intros Hs He Ha' Hl.
    destruct a' as [|c' a']; [simpl in Hl; lia|].
    simpl in He. injection He as <- ->.
    simpl in Ha'. apply andb_true_iff in Ha' as [Hc Ha']. rewrite Hc in Hs.
    destruct (star k (a' +:+ rest')) as [[a0 r0]|] eqn:E.
    + injection Hs as <- <-. simpl in Hl.
      apply (IH _ _ _ eq_refl eq_refl Ha'). lia.
    + destruct (k rest') eqn:Hk; [|reflexivity].
      exfalso. apply (star_complete a' rest' Ha'); [congruence | exact E].
Qed.

End Star.

Lemma lit_sound {C : Type} (l : string) (k : string -> option C) s r :
  lit l k s = Some r -> exists rest, s = l +:+ rest /\ k rest = Some r.
Proof.
  unfold lit. destruct (strip_prefix l s) as [rest|] eqn:E; [|discriminate].
  apply strip_prefix_spec in E. intros H. now exists rest.
Qed.

Lemma lit_app {C : Type} (l : string) (k : string -> option C) rest :
  lit l k (l +:+ rest) = k rest.
Proof. unfold lit. now rewrite strip_prefix_app. Qed.

Lemma at_end_sound s : at_end s = Some tt -> s = EmptyString.
Proof. destruct s; [reflexivity | discriminate]. Qed.

(** ** The pattern of removeExpInPackageName *)

(** A successful match splits the name around one occurrence of -exp
    that follows an occurrence of firebase, and that occurrence is the
    last one in the name. *)
Lemma regex_exec_some name c1 c2 :
  regex_exec name = Some (c1, c2) ->
  name = c1 +:+ "-exp" +:+ c2
  /\ (exists a b, c1 = a +:+ "firebase" +:+ b)
  /\ all_dot name = true
  /\ forall pre post, name = pre +:+ "-exp" +:+ post ->
                      String.length pre <= String.length c1.
Proof.
  unfold regex_exec.
  destruct (star _ name) as [[a [b [c u]]]|] eqn:E; [|discriminate].
  intros [= <- <-].
  destruct (star_sound _ _ _ _ E) as (r1 & Hn & Ha & H1).
  destruct (lit_sound _ _ _ _ H1) as (r2 & Hr1 & H2).
  destruct (star_sound _ _ _ _ H2) as (r3 & Hr2 & Hb & H3).
  destruct (lit_sound _ _ _ _ H3) as (r4 & Hr3 & H4).
  destruct (star_sound _ _ _ _ H4) as (r5 & Hr4 & Hc & H5).
  destruct u. apply at_end_sound in H5. subst r5.
  rewrite str_app_nil_r in Hr4. subst r4 r3 r2 r1.
  assert (Hname : name = (a +:+ "firebase" +:+ b) +:+ "-exp" +:+ c).
  { rewrite Hn. now rewrite !str_app_assoc. }
  assert (Hdot : all_dot name = true).
  { rewrite Hn, !all_dot_app, Ha, Hb, Hc. reflexivity. }
  split; [exact Hname|]. split; [now exists a, b|]. split; [exact Hdot|].
  intros pre post Hpre.
  destruct (Nat.le_gt_cases (String.length pre)
              (String.length (a +:+ "firebase" +:+ b))) as [Hle|Hgt];
    [exact Hle | exfalso].
  (* a later occurrence would have been preferred by the second run *)
  assert (Hsplit : exists m, pre = (a +:+ "firebase") +:+ m
                             /\ b +:+ "-exp" +:+ c = m +:+ "-exp" +:+ post).
  { assert (He : (a +:+ "firebase") +:+ (b +:+ "-exp" +:+ c)
                 = pre +:+ "-exp" +:+ post).
    { rewrite <- Hpre, Hn. now rewrite !str_app_assoc. }
    assert (Hl : String.length (a +:+ "firebase") <= String.length pre).
    { rewrite <- str_app_assoc in Hgt. rewrite str_length_app in Hgt. lia. }
    destruct (str_app_split _ _ _ _ He Hl) as (m & Hm & Hrest).
    exists m. now split. }
  destruct Hsplit as (m & Hm & Hrest).
  assert (Hall : all_dot m = true /\ all_dot post = true).
  { rewrite Hpre, Hm, !all_dot_app, !andb_true_iff in Hdot. tauto. }
  destruct Hall as [Hm' Hpost].
  assert (Hk : lit "-exp" (star at_end) ("-exp" +:+ post) = None).
  { apply (star_greedy _ _ _ _ m _ H2 Hrest Hm').
    rewrite Hm, !str_length_app in Hgt. lia. }
  rewrite lit_app in Hk.
  apply (star_complete at_end post EmptyString); [exact Hpost | discriminate |].
  now rewrite str_app_nil_r.
Qed.

Lemma removeExp_cases name :
  removeExpInPackageName name = name
  \/ exists c1 c2, regex_exec name = Some (c1, c2)
                   /\ removeExpInPackageName name = c1 +:+ c2.
Proof.
  unfold removeExpInPackageName.
  destruct (regex_exec name) as [[c1 c2]|]; [right; eauto | now left].
Qed.

(** C8: name stripping is the identity on every name that does not
    contain the channel suffix marker -exp. *)
Theorem removeExp_identity_without_marker (name : string) :
  includes "-exp" name = false -> removeExpInPackageName name = name.
Proof.
  intros H. destruct (removeExp_cases name) as [E|(c1 & c2 & E & _)];
    [exact E|].
  apply regex_exec_some in E as (Hn & _).
  now apply (includes_false _ _ H) in Hn.
Qed.

Lemma removeExp_identity_without_marker_witness :
  includes "-exp" "@firebase/app" = false
  /\ removeExpInPackageName "@firebase/app" = "@firebase/app".
Proof.
  split; [reflexivity|].
  apply removeExp_identity_without_marker. reflexivity.
Defined.

(** Some names: the umbrella, a scoped package, a name with two
    suffixes, a name without firebase and a name in which firebase comes
    after the suffix. *)
Lemma removeExp_examples :
  removeExpInPackageName "firebase-exp" = "firebase"
  /\ removeExpInPackageName "@firebase/app-exp" = "@firebase/app"
  /\ removeExpInPackageName "@firebase/app-exp-exp" = "@firebase/app-exp"
  /\ removeExpInPackageName "@x/a-exp" = "@x/a-exp"
  /\ removeExpInPackageName "a-exp-firebase" = "a-exp-firebase".
Proof. repeat split. Qed.

Lemma regex_exec_complete x y z :
  all_dot x = true -> all_dot y = true -> all_dot z = true ->
  regex_exec (x +:+ "firebase" +:+ y +:+ "-exp" +:+ z) <> None.
Proof.
  intros Hx Hy Hz. unfold regex_exec.
  assert (Hz' : star at_end z <> None).
  { rewrite <- (str_app_nil_r z). now apply star_complete. }
  assert (Hy' : star (lit "-exp" (star at_end)) (y +:+ "-exp" +:+ z) <> None).
  { apply star_complete; [exact Hy|]. now rewrite lit_app. }
  assert (Hx' : star (lit "firebase" (star (lit "-exp" (star at_end))))
                  (x +:+ "firebase" +:+ y +:+ "-exp" +:+ z) <> None).
  { apply star_complete; [exact Hx|]. now rewrite lit_app. }
  destruct (star _ (x +:+ "firebase" +:+ y +:+ "-exp" +:+ z))
    as [[a [b [c u]]]|]; [discriminate | contradiction].
Qed.

Lemma removeExp_changes name c1 c2 :
  regex_exec name = Some (c1, c2) -> removeExpInPackageName name <> name.
Proof.
  intros E. unfold removeExpInPackageName. rewrite E.
  apply regex_exec_some in E as (Hn & _). intros H.
  apply (f_equal String.length) in H. rewrite Hn in H.
  rewrite !str_length_app in H. simpl in H. lia.
Qed.



(** ** Dictionaries *)

Section Dict.

Context {V : Type}.
Implicit Types (m : dict V) (k : string) (v : V).

Lemma dict_get_set_eq k v m : dict_get k (dict_set k v m) = Some v.
Proof.
  induction m as [|[k' v'] m IH]; simpl.
  - now rewrite String.eqb_refl.
  - destruct (String.eqb_spec k' k) as [->|Hne]; simpl.
    + now rewrite String.eqb_refl.
    + apply String.eqb_neq in Hne. now rewrite Hne.
Qed.

Lemma dict_get_set_ne k k' v m :
  k <> k' -> dict_get k' (dict_set k v m) = dict_get k' m.
Proof.
  intros Hne. induction m as [|[k0 v0] m IH]; simpl.
  - apply String.eqb_neq in Hne. now rewrite Hne.
  - destruct (String.eqb_spec k0 k) as [->|Hne0]; simpl.
    + apply String.eqb_neq in Hne. now rewrite Hne.
    + now rewrite IH.
Qed.

Lemma dict_keys_set k v m k' :
  In k' (dict_keys (dict_set k v m)) <-> k' = k \/ In k' (dict_keys m).
Proof.
  unfold dict_keys. induction m as [|[k0 v0] m IH]; simpl.
  - intuition.
  - destruct (String.eqb_spec k0 k) as [->|Hne]; simpl.
    + intuition.
    + rewrite IH. intuition.
Qed.

Lemma dict_keys_set_NoDup k v m :
  List.NoDup (dict_keys m) -> List.NoDup (dict_keys (dict_set k v m)).
Proof.
  unfold dict_keys. induction m as [|[k0 v0] m IH]; simpl; intros Hnd.
  - constructor; [intros [] | constructor].
  - inversion Hnd as [|? ? Hnotin Hnd']; subst.
    destruct (String.eqb_spec k0 k) as [->|Hne]; simpl.
    + now constructor.
    + constructor; [|now apply IH].
      intros Hin. apply (dict_keys_set k v m k0) in Hin.
      destruct Hin as [->|Hin]; [congruence | auto].
Qed.

Lemma dict_get_In k m : dict_get k m <> None <-> In k (dict_keys m).
Proof.
  unfold dict_keys. induction m as [|[k0 v0] m IH]; simpl.
  - intuition.
  - destruct (String.eqb_spec k0 k) as [->|Hne].
    + split; [now left | discriminate].
    + rewrite IH. intuition.
Qed.

End Dict.

(** ** Descriptors and their JSON form *)

Lemma parse_deps_members_deps d :
  parse_deps_members (map (fun kv => (fst kv, JString (snd kv))) d) = Some d.
Proof.
  induction d as [|[k r] d IH]; simpl; [reflexivity | now rewrite IH].
Qed.

Lemma parse_deps_members_inv ms d :
  parse_deps_members ms = Some d ->
  map (fun kv => (fst kv, JString (snd kv))) d = ms.
Proof.
  revert d. induction ms as [|[k j] ms IH]; simpl; intros d.
  - now intros [= <-].
  - destruct j; try discriminate.
    destruct (parse_deps_members ms) as [d'|]; [|discriminate].
    intros [= <-]. simpl. now rewrite (IH d' eq_refl).
Qed.

(** What is written can be read back: parsing undoes [stringify]. *)
Lemma parse_stringify p : parse_package (stringify p) = Some p.
Proof.
  destruct p as [n v pr d pd dd].
  destruct v, pr, d, pd, dd; unfold parse_package, stringify, parse_version,
    parse_private, parse_deps, deps_member, deps_json; simpl;
    rewrite ?parse_deps_members_deps; reflexivity.
Qed.

Lemma stringify_devDependencies j p :
  parse_package j = Some p ->
  json_member "devDependencies" (stringify p) = json_member "devDependencies" j.
Proof.
  unfold parse_package.
  destruct (json_member "name" j) as [[| |n|]|]; try discriminate.
  destruct (parse_version j) as [v|]; [|discriminate].
  destruct (parse_private j) as [pr|]; [|discriminate].
  destruct (parse_deps "dependencies" j) as [d|]; [|discriminate].
  destruct (parse_deps "peerDependencies" j) as [pd|]; [|discriminate].
  destruct (parse_deps "devDependencies" j) as [dd|] eqn:Hdd; [|discriminate].
  intros [= <-]. unfold parse_deps in Hdd.
  destruct (json_member "devDependencies" j) as [[| | |ms]|] eqn:Hm;
    try discriminate.
  - destruct (parse_deps_members ms) as [d0|] eqn:Hms; [|discriminate].
    injection Hdd as <-. apply parse_deps_members_inv in Hms.
    destruct v, pr, d, pd; unfold stringify, deps_member, deps_json; simpl;
      now rewrite Hms.
  - injection Hdd as <-.
    destruct v, pr, d, pd; reflexivity.
Qed.

Lemma stringify_devDependencies_member p :
  json_member "devDependencies" (stringify p)
  = option_map deps_json (devDependencies p).
Proof.
  destruct p as [n v pr d pd dd].
  destruct v, pr, d, pd, dd; reflexivity.
Qed.

Lemma stringify_version_member p :
  json_member "version" (stringify p) = None <-> version p = Undefined.
Proof.
  destruct p as [n v pr d pd dd].
  destruct v, pr, d, pd, dd; simpl; split; congruence.
Qed.

(** ** The descriptor rewriter *)

Lemma rewrite_descriptor_devDependencies versions o p :
  devDependencies (rewrite_descriptor versions o p) = devDependencies p.
Proof.
  unfold rewrite_descriptor.
  destruct (updateVersions o), (removeExpInName o), (makePublic o); reflexivity.
Qed.

Lemma rewrite_descriptor_version versions o p :
  updateVersions o = true ->
  version (rewrite_descriptor versions o p) = map_get (name p) versions.
Proof.
  unfold rewrite_descriptor. intros ->.
  destruct (removeExpInName o), (makePublic o); reflexivity.
Qed.

Lemma package_json_path_inj p q :
  p +:+ "/package.json" = q +:+ "/package.json" -> p = q.
Proof. apply str_app_inv_tail. Qed.

Lemma readPackageJson_descriptor w path :
  readPackageJson path w
  = match descriptor_at (files w) path with
    | Some p => (Done p, w, [])
    | None =>
        (Throw (match files w !! (path +:+ "/package.json") with
                | Some _ => Malformed path
                | None => NotFound path
                end), w, [])
    end.
Proof.
  unfold readPackageJson, descriptor_at.
  destruct (files w !! (path +:+ "/package.json")) as [j|]; [|reflexivity].
  destruct (parse_package j); reflexivity.
Qed.

Lemma descriptor_at_insert fs path q p :
  descriptor_at (<[path +:+ "/package.json" := stringify p]> fs) q
  = if decide (path = q) then Some p else descriptor_at fs q.
Proof.
  unfold descriptor_at. destruct (decide (path = q)) as [->|Hne].
  - rewrite lookup_insert_eq. apply parse_stringify.
  - rewrite lookup_insert_ne; [reflexivity|].
    intros H. now apply package_json_path_inj in H.
Qed.

Section Rewriter.

Variable versions : dict jsval.
Variable o : RewriteOptions.

(** One turn of the loop of [updatePackageJsons]. *)
Lemma updatePackageJsons_cons path rest w :
  updatePackageJsons (path :: rest) versions o w
  = match descriptor_at (files w) path with
    | Some p =>
        let w1 := {| files := <[path +:+ "/package.json" :=
                                stringify (rewrite_descriptor versions o p)]>
                              (files w) |} in
        match updatePackageJsons rest versions o w1 with
        | (c, w2, ev) => (c, w2, WriteFile (path +:+ "/package.json") :: ev)
        end
    | None =>
        (Throw (match files w !! (path +:+ "/package.json") with
                | Some _ => Malformed path
                | None => NotFound path
                end), w, [])
    end.
Proof.
  simpl. unfold bind at 1. rewrite readPackageJson_descriptor.
  destruct (descriptor_at (files w) path) as [p|]; [|reflexivity].
  unfold bind, writeFile. simpl.
  destruct (updatePackageJsons rest versions o _) as [[c w2] ev].
  reflexivity.
Qed.

(** Whatever happens, no file of the tree sees its devDependencies
    member change. *)
Lemma updatePackageJsons_devDependencies paths w file :
  devDependencies_of
    (files (world_after (updatePackageJsons paths versions o w))) file
  = devDependencies_of (files w) file.
Proof.
  revert w. induction paths as [|path rest IH]; intros w; [reflexivity|].
  rewrite updatePackageJsons_cons.
  destruct (descriptor_at (files w) path) as [p|] eqn:Hp; [|reflexivity].
  cbv zeta. specialize (IH {| files := <[path +:+ "/package.json" :=
                stringify (rewrite_descriptor versions o p)]> (files w) |}).
  destruct (updatePackageJsons rest versions o _) as [[c w2] ev].
  unfold world_after in *. simpl in *. rewrite IH.
  unfold devDependencies_of.
  destruct (decide (path +:+ "/package.json" = file)) as [<-|Hne].
  - rewrite lookup_insert_eq. unfold descriptor_at in Hp.
    destruct (files w !! (path +:+ "/package.json")) as [j|]; [|discriminate].
    rewrite <- (stringify_devDependencies j p Hp).
    rewrite !stringify_devDependencies_member.
    now rewrite rewrite_descriptor_devDependencies.
  - now rewrite lookup_insert_ne.
Qed.

(** On readable packages the rewriter completes, writes one file per
    package in the order of the list, and leaves every other file
    alone and every readable package readable. *)
Lemma updatePackageJsons_completes paths w :
  forallb (readable (files w)) paths = true ->
  exists w',
    updatePackageJsons paths versions o w
    = (Done tt, w', map (fun p => WriteFile (p +:+ "/package.json")) paths)
    /\ (forall q, ~ In q paths ->
                  files w' !! (q +:+ "/package.json")
                  = files w !! (q +:+ "/package.json"))
    /\ (forall q, readable (files w) q = true -> readable (files w') q = true).
Proof.
  revert w. induction paths as [|path rest IH]; intros w Hr.
  - exists w. now repeat split.
  - simpl in Hr. apply andb_true_iff in Hr as [Hpath Hrest].
    rewrite updatePackageJsons_cons. unfold readable in Hpath.
    destruct (descriptor_at (files w) path) as [p|] eqn:Hp; [|discriminate].
    cbv zeta.
    set (w1 := {| files := <[path +:+ "/package.json" :=
                  stringify (rewrite_descriptor versions o p)]> (files w) |}).
    assert (Hkeep : forall q, readable (files w) q = true ->
                              readable (files w1) q = true).
    { intros q Hq. unfold readable, w1. simpl. rewrite descriptor_at_insert.
      destruct (decide (path = q)); [reflexivity | exact Hq]. }
    assert (Hrest1 : forallb (readable (files w1)) rest = true).
    { apply forallb_forall. intros q Hq. apply Hkeep.
      now apply (proj1 (forallb_forall _ _) Hrest). }
    destruct (IH w1 Hrest1) as (w' & -> & Hother & Hread).
    exists w'. split; [reflexivity|]. split.
    + intros q Hq. rewrite Hother by (intros Hin; apply Hq; now right).
      unfold w1. simpl. rewrite lookup_insert_ne; [reflexivity|].
      intros H. apply package_json_path_inj in H. apply Hq. now left.
    + intros q Hq. apply Hread, Hkeep, Hq.
Qed.

(** With pairwise different package directories, each descriptor
    written is the rewriting of the descriptor found at the start. *)
Lemma updatePackageJsons_written paths w path p :
  List.NoDup paths ->
  forallb (readable (files w)) paths = true ->
  In path paths ->
  descriptor_at (files w) path = Some p ->
  files (world_after (updatePackageJsons paths versions o w))
    !! (path +:+ "/package.json")
  = Some (stringify (rewrite_descriptor versions o p)).
Proof.
  revert w. induction paths as [|q rest IH]; intros w Hnd Hr Hin Hp;
    [contradiction|].
  inversion Hnd as [|? ? Hnotin Hnd']; subst.
  simpl in Hr. apply andb_true_iff in Hr as [Hq Hrest].
  rewrite updatePackageJsons_cons. unfold readable in Hq.
  destruct (descriptor_at (files w) q) as [pq|] eqn:Hpq; [|discriminate].
  cbv zeta.
  set (w1 := {| files := <[q +:+ "/package.json" :=
                stringify (rewrite_descriptor versions o pq)]> (files w) |}).
  assert (Hrest1 : forallb (readable (files w1)) rest = true).
  { apply forallb_forall. intros x Hx. unfold readable, w1. simpl.
    rewrite descriptor_at_insert. destruct (decide (q = x)); [reflexivity|].
    now apply (proj1 (forallb_forall _ _) Hrest). }
  destruct Hin as [->|Hin].
  - destruct (updatePackageJsons_completes rest w1 Hrest1)
      as (w' & E & Hother & _).
    rewrite E. unfold world_after. simpl.
    rewrite (Hother path Hnotin). unfold w1. simpl.
    rewrite lookup_insert_eq. congruence.
  - specialize (IH w1 Hnd' Hrest1 Hin).
    destruct (updatePackageJsons rest versions o w1) as [[c w2] ev].
    unfold world_after in *. simpl in *. apply IH.
    unfold w1. simpl. rewrite descriptor_at_insert.
    destruct (decide (q = path)) as [->|]; [contradiction | exact Hp].
Qed.

End Rewriter.

(** ** The computations of the script *)

Lemma bind_Done {A B : Type} (m : M A) (k : A -> M B) w a w1 ev1 :
  m w = (Done a, w1, ev1) ->
  bind m k w = (let '(c, w2, ev2) := k a w1 in (c, w2, ev1 ++ ev2)).
Proof. unfold bind. now intros ->. Qed.

Lemma getCurrentSha_run env w out :
  git_revparse env ["--short"; "HEAD"] = Some out ->
  getCurrentSha env w = (Done (trim out), w, [GitRevparse ["--short"; "HEAD"]]).
Proof.
  intros H. unfold getCurrentSha, git_revparse_cmd, bind, emit, ret.
  now rewrite H.
Qed.

(** ** The version planner *)

Section Planner.

Variable env : Env.
Variable out : string.
Hypothesis Hsha : git_revparse env ["--short"; "HEAD"] = Some out.

Lemma plan_versions_run paths acc w :
  forallb (readable (files w)) paths = true ->
  exists ev,
    plan_versions env paths acc w
    = (Done (fold_left (plan_step (trim out) (files w)) paths acc), w, ev).
Proof.
  revert acc. induction paths as [|path rest IH]; intros acc Hr.
  - now exists [].
  - simpl in Hr. apply andb_true_iff in Hr as [Hpath Hrest].
    unfold readable in Hpath. cbn [plan_versions fold_left].
    unfold plan_step at 2.
    destruct (descriptor_at (files w) path) as [p|] eqn:Hp; [|discriminate].
    unfold bind at 1. rewrite readPackageJson_descriptor, Hp.
    unfold next_version.
    destruct (String.eqb (name p) FIREBASE_UMBRELLA_PACKAGE_NAME).
    + destruct (IH (dict_set (name p) (Semver.inc (version p)) acc) Hrest)
        as (ev & ->). now exists ev.
    + rewrite (bind_Done _ _ _ _ _ _ (getCurrentSha_run env w out Hsha)).
      destruct (IH (dict_set (name p)
                      (Str (template (version p) +:+ "-exp." +:+ trim out))
                      acc) Hrest) as (ev & ->).
      now eexists.
Qed.

Lemma updatePackageNamesAndVersions_run paths w :
  forallb (readable (files w)) paths = true ->
  completion (updatePackageNamesAndVersions env paths w)
  = Done (fold_left (plan_step (trim out) (files w)) paths []).
Proof.
  intros Hr. unfold updatePackageNamesAndVersions.
  destruct (plan_versions_run paths [] w Hr) as (ev & E).
  rewrite (bind_Done _ _ _ _ _ _ E).
  destruct (updatePackageJsons_completes
              (fold_left (plan_step (trim out) (files w)) paths [])
              {| removeExpInName := true; updateVersions := true;
                 makePublic := true |} paths w Hr) as (w' & E' & _).
  rewrite (bind_Done _ _ _ _ _ _ E'). reflexivity.
Qed.

End Planner.

Section PlanFold.

Variable sha : string.
Variable fs : gmap string json.

Lemma plan_fold_keys paths acc k :
  In k (dict_keys (fold_left (plan_step sha fs) paths acc))
  <-> In k (dict_keys acc)
      \/ exists path p, In path paths /\ descriptor_at fs path = Some p
                        /\ name p = k.
Proof.
  revert acc. induction paths as [|q rest IH]; intros acc; simpl.
  - split; [now left | intros [H|(? & ? & [] & _)]; exact H].
  - rewrite IH. unfold plan_step.
    destruct (descriptor_at fs q) as [pq|] eqn:Hq.
    + rewrite dict_keys_set. split.
      * intros [[->|H]|(path & p & Hin & Hp & Hn)].
        -- right. exists q, pq. auto.
        -- now left.
        -- right. exists path, p. auto.
      * intros [H|(path & p & [->|Hin] & Hp & Hn)].
        -- left. now right.
        -- left. left. congruence.
        -- right. exists path, p. auto.
    + split.
      * intros [H|(path & p & Hin & Hp & Hn)]; [now left|].
        right. exists path, p. auto.
      * intros [H|(path & p & [->|Hin] & Hp & Hn)];
          [now left | congruence |].
        right. exists path, p. auto.
Qed.

Lemma plan_fold_NoDup paths acc :
  List.NoDup (dict_keys acc) ->
  List.NoDup (dict_keys (fold_left (plan_step sha fs) paths acc)).
Proof.
  revert acc. induction paths as [|q rest IH]; intros acc Hnd; simpl;
    [exact Hnd|].
  apply IH. unfold plan_step.
  destruct (descriptor_at fs q); [now apply dict_keys_set_NoDup | exact Hnd].
Qed.

(** Packages of other names leave the entry of a name alone. *)
Lemma plan_fold_other paths acc k :
  existsb (named fs k) paths = false ->
  dict_get k (fold_left (plan_step sha fs) paths acc) = dict_get k acc.
Proof.
  revert acc. induction paths as [|q rest IH]; intros acc; simpl;
    [reflexivity|].
  intros H. apply orb_false_iff in H as [Hq Hrest].
  rewrite (IH _ Hrest). unfold plan_step. unfold named in Hq.
  destruct (descriptor_at fs q) as [pq|]; [|reflexivity].
  apply dict_get_set_ne. now apply String.eqb_neq.
Qed.

(** The entry of a name is the version planned for the packages of
    that name, when they all agree on it. *)
Lemma plan_fold_get paths acc k x :
  existsb (named fs k) paths = true ->
  (forall path p, In path paths -> descriptor_at fs path = Some p ->
                  name p = k -> next_version sha p = x) ->
  dict_get k (fold_left (plan_step sha fs) paths acc) = Some x.
Proof.
  revert acc. induction paths as [|q rest IH]; intros acc; simpl;
    [discriminate|].
  intros Hex Hall.
  destruct (existsb (named fs k) rest) eqn:Hrest.
  - apply IH; [reflexivity|]. intros path p Hin. apply Hall. now right.
  - rewrite orb_false_r in Hex. rewrite (plan_fold_other _ _ _ Hrest).
    unfold plan_step. unfold named in Hex.
    destruct (descriptor_at fs q) as [pq|] eqn:Hq; [|discriminate].
    apply String.eqb_eq in Hex.
    rewrite <- (Hall q pq (or_introl eq_refl) Hq Hex), <- Hex.
    apply dict_get_set_eq.
Qed.

End PlanFold.

Lemma named_exists fs k paths path p :
  In path paths -> descriptor_at fs path = Some p -> name p = k ->
  existsb (named fs k) paths = true.
Proof.
  intros Hin Hp Hn. apply existsb_exists. exists path. split; [exact Hin|].
  unfold named. rewrite Hp. now apply String.eqb_eq.
Qed.

Lemma version_parses_readable fs paths :
  forallb (version_parses fs) paths = true ->
  forallb (readable fs) paths = true.
Proof.
  intros H. apply forallb_forall. intros q Hq.
  apply (proj1 (forallb_forall _ _) H) in Hq.
  unfold version_parses in Hq. unfold readable.
  now destruct (descriptor_at fs q).
Qed.

(** C5: on a working set whose versions all parse, the planning step
    returns a version map with exactly one entry for every package name
    of the working set and no other entry; the entry of the umbrella
    package is its current stable version with the patch number
    incremented by one. *)
Theorem version_plan_covers_working_set
    (env : Env) (paths : list string) (w : World) (out : string) :
  git_revparse env ["--short"; "HEAD"] = Some out ->
  forallb (version_parses (files w)) paths = true ->
  exists versions,
    completion (updatePackageNamesAndVersions env paths w) = Done versions
    /\ List.NoDup (dict_keys versions)
    /\ (forall k, In k (dict_keys versions)
                  <-> exists path p, In path paths
                                     /\ descriptor_at (files w) path = Some p
                                     /\ name p = k)
    /\ (forall path p v sv,
          In path paths -> descriptor_at (files w) path = Some p ->
          name p = FIREBASE_UMBRELLA_PACKAGE_NAME ->
          version p = Str v -> Semver.parse v = Some sv ->
          Semver.prerelease sv = [] ->
          (forall path' p', In path' paths ->
                            descriptor_at (files w) path' = Some p' ->
                            name p' = FIREBASE_UMBRELLA_PACKAGE_NAME ->
                            version p' = version p) ->
          map_get FIREBASE_UMBRELLA_PACKAGE_NAME versions
          = Str (Semver.show_N (Semver.major sv) +:+ "."
                 +:+ Semver.show_N (Semver.minor sv) +:+ "."
                 +:+ Semver.show_N (Semver.patch sv + 1))).
Proof.
  intros Hsha Hparse.
  pose proof (version_parses_readable _ _ Hparse) as Hr.
  eexists. split; [apply (updatePackageNamesAndVersions_run env out Hsha _ _ Hr)|].
  split; [apply plan_fold_NoDup; constructor|].
  split.
  - intros k. rewrite plan_fold_keys. simpl. intuition.
  - intros path p v sv Hin Hp Hn Hv Hsv Hpre Hsame.
    unfold map_get.
    rewrite (plan_fold_get (trim out) (files w) paths []
               FIREBASE_UMBRELLA_PACKAGE_NAME
               (Str (Semver.show_N (Semver.major sv) +:+ "."
                     +:+ Semver.show_N (Semver.minor sv) +:+ "."
                     +:+ Semver.show_N (Semver.patch sv + 1)))).
    + reflexivity.
    + exact (named_exists _ _ _ _ _ Hin Hp Hn).
    + intros path' p' Hin' Hp' Hn'. unfold next_version.
      rewrite Hn', String.eqb_refl, (Hsame _ _ Hin' Hp' Hn'), Hv.
      unfold Semver.inc. rewrite Hsv. unfold Semver.format, Semver.inc_patch.
      simpl. rewrite Hpre. now rewrite str_app_nil_r.
Qed.

(** ** Versions with the channel suffix appended *)

Module SemverFacts.

Import Semver.

Lemma split_not_nil sep s : split sep s <> [].
Proof.
  destruct s as [|c s]; simpl; [discriminate|].
  destruct (Ascii.eqb c sep); [discriminate|].
  destruct (split sep s); discriminate.
Qed.

Lemma parts_nil valid o : parts valid o = Some [] -> o = None.
Proof.
  destruct o as [txt|]; [|reflexivity]. simpl.
  destruct (forallb valid (split "." txt)); [|discriminate].
  intros [= H]. now apply split_not_nil in H.
Qed.

Lemma break_None sep s h : break sep s = (h, None) -> h = s.
Proof.
  revert h. induction s as [|c s IH]; simpl; intros h.
  - now intros [= <-].
  - destruct (Ascii.eqb c sep); [discriminate|].
    destruct (break sep s) as [h' r]. intros [= <- ->].
    now rewrite (IH h' eq_refl).
Qed.

(** Breaking a text whose first part has no separator. *)
Lemma break_app sep s t :
  break sep s = (s, None) ->
  break sep (s +:+ t) = (s +:+ fst (break sep t), snd (break sep t)).
Proof.
  induction s as [|c s IH]; simpl.
  - intros _. now destruct (break sep t).
  - destruct (Ascii.eqb c sep); [discriminate|].
    destruct (break sep s) as [h r] eqn:E. intros [= -> ->].
    now rewrite (IH eq_refl).
Qed.

Lemma break_absent sep s :
  all_chars (fun c => negb (Ascii.eqb c sep)) s = true ->
  break sep s = (s, None).
Proof.
  induction s as [|c s IH]; simpl; [reflexivity|].
  intros H. apply andb_true_iff in H as [Hc Hs].
  apply negb_true_iff in Hc. rewrite Hc. now rewrite (IH Hs).
Qed.

Lemma split_absent sep s :
  all_chars (fun c => negb (Ascii.eqb c sep)) s = true ->
  split sep s = [s].
Proof.
  induction s as [|c s IH]; simpl; [reflexivity|].
  intros H. apply andb_true_iff in H as [Hc Hs].
  apply negb_true_iff in Hc. rewrite Hc. now rewrite (IH Hs).
Qed.

Lemma all_chars_impl (f g : ascii -> bool) s :
  (forall c, f c = true -> g c = true) ->
  all_chars f s = true -> all_chars g s = true.
Proof.
  intros Hfg. induction s as [|c s IH]; simpl; [reflexivity|].
  intros H. apply andb_true_iff in H as [Hc Hs].
  now rewrite (Hfg c Hc), (IH Hs).
Qed.

Lemma is_digit_ident c : is_digit c = true -> is_ident_char c = true.
Proof. unfold is_ident_char. now intros ->. Qed.

Lemma numeric_identifier_digits s :
  numeric_identifier s = true -> all_chars is_digit s = true.
Proof.
  destruct s as [|c [|d s]]; simpl; [discriminate | |].
  - now intros ->.
  - intros H. apply andb_true_iff in H as [H Hs].
    apply andb_true_iff in H as [Hc _]. now rewrite Hc.
Qed.

Lemma prerelease_identifier_chars s :
  prerelease_identifier s = true -> all_chars is_ident_char s = true.
Proof.
  unfold prerelease_identifier. intros H.
  apply orb_true_iff in H as [H|H].
  - apply (all_chars_impl is_digit); [exact is_digit_ident|].
    now apply numeric_identifier_digits.
  - apply andb_true_iff in H as [H _]. now apply andb_true_iff in H as [_ H].
Qed.

(** The characters of an identifier are neither dots nor plus signs. *)
Lemma ident_char_not sep c :
  is_ident_char sep = false -> is_ident_char c = true ->
  negb (Ascii.eqb c sep) = true.
Proof.
  intros Hsep Hc. apply negb_true_iff.
  destruct (Ascii.eqb_spec c sep) as [->|]; [congruence | reflexivity].
Qed.

Lemma identifier_without sep s :
  is_ident_char sep = false -> prerelease_identifier s = true ->
  all_chars (fun c => negb (Ascii.eqb c sep)) s = true.
Proof.
  intros Hsep Hs. apply (all_chars_impl is_ident_char).
  - intros c. now apply ident_char_not.
  - now apply prerelease_identifier_chars.
Qed.

(** A version that parses without prerelease and without build
    metadata has neither hyphen nor plus sign. *)
Lemma grammar_release v sv :
  grammar v = Some sv -> prerelease sv = [] -> build sv = [] ->
  break "+" v = (v, None) /\ break "-" v = (v, None)
  /\ exists ma mi pa,
       split "." v = [ma; mi; pa]
       /\ (numeric_identifier ma && numeric_identifier mi
           && numeric_identifier pa
           && (number ma <=? MAX_SAFE_INTEGER)%N
           && (number mi <=? MAX_SAFE_INTEGER)%N
           && (number pa <=? MAX_SAFE_INTEGER)%N = true)
       /\ major sv = number ma /\ minor sv = number mi
       /\ patch sv = number pa.
Proof.
  unfold grammar.
  destruct (break "+" v) as [front b] eqn:Hb.
  destruct (break "-" front) as [main p] eqn:Hp.
  destruct (split "." main) as [|ma [|mi [|pa [|? ?]]]] eqn:Hs;
    try discriminate.
  destruct (parts prerelease_identifier p) as [pre|] eqn:Hpre;
    [|discriminate].
  destruct (parts build_identifier b) as [bld|] eqn:Hbld; [|discriminate].
  match goal with |- (if ?c then _ else _) = _ -> _ =>
    destruct c eqn:Hc; [|discriminate] end.
  intros [= <-]. simpl. intros Hpre0 Hbld0. subst bld.
  destruct pre; [|discriminate].
  apply parts_nil in Hpre. apply parts_nil in Hbld. subst p b.
  apply break_None in Hb as Hfront. apply break_None in Hp as Hmain.
  subst front main.
  split; [first [exact Hb | reflexivity]|].
  split; [first [exact Hp | reflexivity]|].
  exists ma, mi, pa. now repeat split.
Qed.

(** Appending -exp and an identifier to a release version yields the
    prerelease of that release with the two identifiers exp and the
    one appended. *)
Lemma grammar_exp_suffix v sv sha :
  grammar v = Some sv -> prerelease sv = [] -> build sv = [] ->
  prerelease_identifier sha = true ->
  grammar (v +:+ "-exp." +:+ sha)
  = Some {| major := major sv; minor := minor sv; patch := patch sv;
            prerelease := [Alphanumeric "exp"; to_identifier sha];
            build := [] |}.
Proof.
  intros Hv Hpre Hbld Hsha.
  destruct (grammar_release v sv Hv Hpre Hbld)
    as (Hplus & Hminus & ma & mi & pa & Hs & Hc & -> & -> & ->).
  unfold grammar.
  rewrite (break_app "+" v _ Hplus).
  assert (Hnoplus : break "+" ("-exp." +:+ sha) = ("-exp." +:+ sha, None)).
  { simpl. rewrite (break_absent "+" sha); [reflexivity|].
    now apply identifier_without. }
  rewrite Hnoplus. cbn [fst snd].
  rewrite (break_app "-" v _ Hminus).
  assert (Hhyphen : break "-" ("-exp." +:+ sha) = (EmptyString, Some ("exp." +:+ sha)))
    by reflexivity.
  rewrite Hhyphen. cbn [fst snd]. rewrite str_app_nil_r, Hs.
  assert (Hids : split "." ("exp." +:+ sha) = ["exp"; sha]).
  { simpl. rewrite (split_absent "." sha); [reflexivity|].
    now apply identifier_without. }
  unfold parts at 1. rewrite Hids.
  assert (Hvalid : forallb prerelease_identifier ["exp"; sha] = true).
  { cbn [forallb]. rewrite Hsha. reflexivity. }
  rewrite Hvalid. cbn [parts]. rewrite Hc. reflexivity.
Qed.

Lemma compareMain_same a b :
  major a = major b -> minor a = minor b -> patch a = patch b ->
  compareMain a b = Eq.
Proof.
  unfold compareMain. intros -> -> ->. now rewrite !N.compare_refl.
Qed.

(** A prerelease ranks strictly below its release. *)
Lemma compare_prerelease_release a b :
  major a = major b -> minor a = minor b -> patch a = patch b ->
  prerelease a <> [] -> prerelease b = [] ->
  compare a b = Lt.
Proof.
  intros H1 H2 H3 Ha Hb. unfold compare.
  rewrite (compareMain_same a b H1 H2 H3). simpl. unfold comparePre.
  rewrite Hb. destruct (prerelease a); [contradiction | reflexivity].
Qed.

Lemma break_app_some sep s h t u :
  break sep s = (h, Some t) -> break sep (s +:+ u) = (h, Some (t +:+ u)).
Proof.
  revert h. induction s as [|c s IH]; simpl; intros h; [discriminate|].
  destruct (Ascii.eqb c sep); [now intros [= <- <-]|].
  destruct (break sep s) as [h' r] eqn:E. intros [= <- ->].
  now rewrite (IH h' eq_refl).
Qed.

(** Splitting a text continued by another one: the last piece of the
    first is glued to the first piece of the second. *)
Lemma split_app sep s u init l hd tl :
  split sep s = init ++ [l] -> split sep u = hd :: tl ->
  split sep (s +:+ u) = init ++ (l +:+ hd) :: tl.
Proof.
  intros Hs Hu. revert init l Hs.
  induction s as [|c s IH]; intros init l; simpl.
  - destruct init as [|x [|y init]]; simpl; try discriminate.
    intros [= <-]. exact Hu.
  - destruct (Ascii.eqb c sep).
    + destruct init as [|x init]; simpl.
      * intros [= _ H]. now apply split_not_nil in H.
      * intros [= <- H]. now rewrite (IH _ _ H).
    + destruct (split sep s) as [|h t] eqn:E; [now apply split_not_nil in E|].
      destruct init as [|x init]; simpl.
      * intros [= <- ->]. now rewrite (IH [] h eq_refl).
      * intros [= <- ->]. now rewrite (IH (h :: init) l eq_refl).
Qed.

Lemma all_chars_app f s t :
  all_chars f (s +:+ t) = all_chars f s && all_chars f t.
Proof.
  induction s as [|c s IH]; simpl; [reflexivity|].
  now rewrite IH, andb_assoc.
Qed.

Lemma nonempty_app_r s t : nonempty t = true -> nonempty (s +:+ t) = true.
Proof. now destruct s, t. Qed.

Lemma build_identifier_exp l :
  all_chars is_ident_char l = true -> build_identifier (l +:+ "-exp") = true.
Proof.
  intros H. unfold build_identifier.
  rewrite nonempty_app_r by reflexivity. now rewrite all_chars_app, H.
Qed.

Lemma not_digits_exp l : all_chars is_digit (l +:+ "-exp") = false.
Proof. rewrite all_chars_app. apply andb_false_r. Qed.

Lemma prerelease_identifier_exp l :
  all_chars is_ident_char l = true ->
  prerelease_identifier (l +:+ "-exp") = true.
Proof.
  intros H. unfold prerelease_identifier. apply orb_true_iff. right.
  rewrite nonempty_app_r by reflexivity.
  now rewrite all_chars_app, H, not_digits_exp.
Qed.

Lemma build_identifier_chars s :
  build_identifier s = true -> all_chars is_ident_char s = true.
Proof. unfold build_identifier. intros H. now apply andb_true_iff in H. Qed.

Lemma prerelease_is_build s :
  prerelease_identifier s = true -> build_identifier s = true.
Proof.
  intros H. unfold build_identifier.
  rewrite (prerelease_identifier_chars s H), andb_true_r.
  destruct s; [discriminate H | reflexivity].
Qed.

Lemma suffix_pieces sha :
  prerelease_identifier sha = true ->
  split "." ("-exp." +:+ sha) = ["-exp"; sha].
Proof.
  intros H. simpl. rewrite (split_absent "." sha); [reflexivity|].
  now apply identifier_without.
Qed.

(** The pieces of a dotted series of identifiers to which the suffix
    has been appended. *)
Lemma parts_suffix valid txt ids sha :
  parts valid (Some txt) = Some ids ->
  prerelease_identifier sha = true ->
  (forall l, valid l = true -> valid (l +:+ "-exp") = true) ->
  valid sha = true ->
  exists init l,
    ids = init ++ [l]
    /\ parts valid (Some (txt +:+ "-exp." +:+ sha))
       = Some (init ++ [l +:+ "-exp"; sha]).
Proof.
  intros Hp Hsha Hexp Hvalid. simpl in Hp.
  destruct (forallb valid (split "." txt)) eqn:Hall; [|discriminate].
  injection Hp as <-.
  destruct (exists_last (split_not_nil "." txt)) as (init & l & Hs).
  exists init, l. split; [exact Hs|].
  unfold parts.
  rewrite (split_app "." txt _ init l _ _ Hs (suffix_pieces sha Hsha)).
  rewrite Hs, forallb_app in Hall. apply andb_true_iff in Hall as [Hi Hl].
  simpl in Hl. rewrite andb_true_r in Hl.
  rewrite forallb_app, Hi. simpl. now rewrite (Hexp l Hl), Hvalid.
Qed.

Lemma ascii_compare_refl a : Ascii.compare a a = Eq.
Proof. unfold Ascii.compare. apply N.compare_refl. Qed.

Lemma string_compare_refl s : String.compare s s = Eq.
Proof.
  induction s as [|a s IH]; simpl; [reflexivity|].
  now rewrite ascii_compare_refl.
Qed.

Lemma compareIdentifiers_refl x : compareIdentifiers x x = Eq.
Proof.
  destruct x; simpl; [apply N.compare_refl | apply string_compare_refl].
Qed.

Lemma compareIds_refl l : compareIds l l = Eq.
Proof.
  induction l as [|x l IH]; simpl; [reflexivity|].
  now rewrite compareIdentifiers_refl.
Qed.

Lemma compareIds_prefix init a b :
  compareIds (init ++ a) (init ++ b) = compareIds a b.
Proof.
  induction init as [|x init IH]; simpl; [reflexivity|].
  now rewrite compareIdentifiers_refl.
Qed.

(** A text ranks above each of its proper prefixes. *)
Lemma string_compare_longer s c t : String.compare (s +:+ String c t) s = Gt.
Proof.
  induction s as [|a s IH]; simpl; [reflexivity|].
  now rewrite ascii_compare_refl.
Qed.

(** The identifier with the suffix ranks above the one without. *)
Lemma compareIdentifiers_exp l :
  compareIdentifiers (to_identifier (l +:+ "-exp")) (to_identifier l) = Gt.
Proof.
  unfold to_identifier. rewrite not_digits_exp.
  destruct (all_chars is_digit l); simpl; [reflexivity|].
  apply string_compare_longer.
Qed.

(** What the grammar has found in a version it accepts. *)
Lemma grammar_inv v sv :
  grammar v = Some sv ->
  exists front b main p ma mi pa pre bld,
    break "+" v = (front, b) /\ break "-" front = (main, p)
    /\ split "." main = [ma; mi; pa]
    /\ parts prerelease_identifier p = Some pre
    /\ parts build_identifier b = Some bld
    /\ (numeric_identifier ma && numeric_identifier mi
        && numeric_identifier pa
        && (number ma <=? MAX_SAFE_INTEGER)%N
        && (number mi <=? MAX_SAFE_INTEGER)%N
        && (number pa <=? MAX_SAFE_INTEGER)%N = true)
    /\ sv = {| major := number ma; minor := number mi; patch := number pa;
               prerelease := map to_identifier pre; build := bld |}.
Proof.
  unfold grammar.
  destruct (break "+" v) as [front b] eqn:Hb.
  destruct (break "-" front) as [main p] eqn:Hp.
  destruct (split "." main) as [|ma [|mi [|pa [|? ?]]]] eqn:Hs;
    try discriminate.
  destruct (parts prerelease_identifier p) as [pre|] eqn:Hpre;
    [|discriminate].
  destruct (parts build_identifier b) as [bld|] eqn:Hbld; [|discriminate].
  match goal with |- (if ?c then _ else _) = _ -> _ =>
    destruct c eqn:Hc; [|discriminate] end.
  intros [= <-]. exists front, b, main, p, ma, mi, pa, pre, bld.
  now repeat split.
Qed.

Lemma grammar_build v front b main p ma mi pa pre bld :
  break "+" v = (front, b) -> break "-" front = (main, p) ->
  split "." main = [ma; mi; pa] ->
  parts prerelease_identifier p = Some pre ->
  parts build_identifier b = Some bld ->
  (numeric_identifier ma && numeric_identifier mi
   && numeric_identifier pa
   && (number ma <=? MAX_SAFE_INTEGER)%N
   && (number mi <=? MAX_SAFE_INTEGER)%N
   && (number pa <=? MAX_SAFE_INTEGER)%N = true) ->
  grammar v = Some {| major := number ma; minor := number mi;
                      patch := number pa;
                      prerelease := map to_identifier pre; build := bld |}.
Proof.
  intros Hb Hp Hs Hpre Hbld Hc. unfold grammar.
  now rewrite Hb, Hp, Hs, Hpre, Hbld, Hc.
Qed.

(** The precedence of a version to which the channel suffix and an
    identifier have been appended. *)
Lemma grammar_suffix_precedence v sv sha :
  grammar v = Some sv ->
  prerelease_identifier sha = true ->
  exists planned,
    grammar (v +:+ "-exp." +:+ sha) = Some planned
    /\ major planned = major sv /\ minor planned = minor sv
    /\ patch planned = patch sv
    /\ compare planned sv
       = match build sv, prerelease sv with
         | _ :: _, _ => Eq
         | [], _ :: _ => Gt
         | [], [] => Lt
         end.
Proof.
  intros Hv Hsha.
  destruct (grammar_inv v sv Hv)
    as (front & b & main & p & ma & mi & pa & pre & bld
        & Hb & Hp & Hs & Hpre & Hbld & Hc & ->).
  destruct b as [btxt|].
  - (* build metadata: the suffix lands in it *)
    destruct (parts_suffix build_identifier btxt bld sha Hbld Hsha)
      as (init & l & -> & Hbld').
    { intros l0 Hl0. apply build_identifier_exp.
      now apply build_identifier_chars. }
    { now apply prerelease_is_build. }
    eexists. split.
    { apply (grammar_build _ front _ main p ma mi pa pre _
               (break_app_some "+" v front btxt _ Hb) Hp Hs Hpre Hbld' Hc). }
    repeat split. cbn [build prerelease].
    destruct (init ++ [l]) eqn:E; [now destruct init|].
    unfold compare. rewrite compareMain_same by reflexivity. simpl.
    unfold comparePre. cbn [prerelease].
    destruct (map to_identifier pre); [reflexivity | apply compareIds_refl].
  - cbn [parts] in Hbld. injection Hbld as <-.
    apply break_None in Hb as Hfront. subst front.
    assert (Hb' : break "+" (v +:+ "-exp." +:+ sha)
                  = (v +:+ "-exp." +:+ sha, None)).
    { rewrite (break_app "+" v _ Hb).
      assert (Hnoplus : break "+" ("-exp." +:+ sha) = ("-exp." +:+ sha, None)).
      { simpl. rewrite (break_absent "+" sha); [reflexivity|].
        now apply identifier_without. }
      now rewrite Hnoplus. }
    destruct p as [ptxt|].
    + (* prerelease: the suffix extends its last identifier *)
      destruct (parts_suffix prerelease_identifier ptxt pre sha Hpre Hsha)
        as (init & l & -> & Hpre').
      { intros l0 Hl0. apply prerelease_identifier_exp.
        now apply prerelease_identifier_chars. }
      { exact Hsha. }
      eexists. split.
      { apply (grammar_build _ _ None main _ ma mi pa _ [] Hb'
                 (break_app_some "-" v main ptxt _ Hp) Hs Hpre' eq_refl Hc). }
      repeat split. cbn [build prerelease].
      rewrite !map_app. cbn [map].
      destruct (map to_identifier init ++ [to_identifier l]) eqn:E;
        [now destruct (map to_identifier init)|].
      rewrite <- E. unfold compare.
      rewrite compareMain_same by reflexivity. simpl.
      unfold comparePre. cbn [prerelease].
      assert (Hcmp : compareIds
                       (map to_identifier init
                        ++ [to_identifier (l +:+ "-exp"); to_identifier sha])
                       (map to_identifier init ++ [to_identifier l]) = Gt).
      { rewrite compareIds_prefix. simpl. now rewrite compareIdentifiers_exp. }
      destruct (map to_identifier init) as [|x xs]; simpl in *;
        [now rewrite compareIdentifiers_exp | exact Hcmp].
    + (* release: the suffix is its whole prerelease *)
      cbn [parts] in Hpre. injection Hpre as <-.
      apply break_None in Hp as Hmain. subst main.
      exists {| major := number ma; minor := number mi; patch := number pa;
                prerelease := [Alphanumeric "exp"; to_identifier sha];
                build := [] |}.
      split.
      { apply (grammar_exp_suffix v _ sha Hv eq_refl eq_refl Hsha). }
      repeat split.
      now apply compare_prerelease_release.
Qed.

(** *** Versions in canonical form

    A text that the grammar accepts as it stands has neither white
    space nor a leading v: the parser reads it as it is. *)

Lemma version_char_not_space c : version_char c = true -> is_space c = false.
Proof.
  destruct c as [[] [] [] [] [] [] [] []]; intros H;
    first [reflexivity | discriminate H].
Qed.

Lemma digit_version_char c : is_digit c = true -> version_char c = true.
Proof. unfold version_char, is_ident_char. now intros ->. Qed.

Lemma ident_version_char c : is_ident_char c = true -> version_char c = true.
Proof. unfold version_char. now intros ->. Qed.

Lemma break_chars f sep s h t :
  break sep s = (h, t) -> all_chars f h = true ->
  match t with
  | Some t' => f sep = true /\ all_chars f t' = true
  | None => True
  end ->
  all_chars f s = true.
Proof.
  revert h. induction s as [|c s IH]; intros h; simpl.
  - now intros [= <- <-].
  - destruct (Ascii.eqb_spec c sep) as [->|Hne].
    + intros [= <- <-] _ [Hsep Ht]. now rewrite Hsep.
    + destruct (break sep s) as [h' r] eqn:E. intros [= <- <-]. simpl.
      intros Hh Ht. apply andb_true_iff in Hh as [Hc Hh'].
      now rewrite Hc, (IH h' eq_refl Hh' Ht).
Qed.

Lemma split_chars f sep s :
  f sep = true -> forallb (all_chars f) (split sep s) = true ->
  all_chars f s = true.
Proof.
  intros Hsep. induction s as [|c s IH]; simpl; [reflexivity|].
  destruct (Ascii.eqb_spec c sep) as [->|Hne]; simpl.
  - intros H. now rewrite Hsep, (IH H).
  - destruct (split sep s) as [|h t] eqn:E; [now apply split_not_nil in E|].
    simpl in *. intros H.
    apply andb_true_iff in H as [H Ht]. apply andb_true_iff in H as [Hc Hh].
    rewrite Hc. apply IH. now rewrite Hh, Ht.
Qed.

Lemma parts_chars valid o ids :
  parts valid o = Some ids ->
  (forall id, valid id = true -> all_chars version_char id = true) ->
  match o with
  | Some txt => all_chars version_char txt = true
  | None => True
  end.
Proof.
  destruct o as [txt|]; [|easy]. simpl.
  destruct (forallb valid (split "." txt)) eqn:Hall; [|discriminate].
  intros _ Hvalid. apply (split_chars _ "."); [reflexivity|].
  apply forallb_forall. intros id Hin. apply Hvalid.
  now apply (proj1 (forallb_forall _ _) Hall).
Qed.

Lemma split_head sep s c ma rest :
  split sep s = String c ma :: rest -> exists s', s = String c s'.
Proof.
  destruct s as [|c0 s]; simpl; [discriminate|].
  destruct (Ascii.eqb c0 sep); [discriminate|].
  destruct (split sep s); intros [= <- _ _]; now eexists.
Qed.

Lemma break_head sep s c h t :
  break sep s = (String c h, t) -> exists s', s = String c s'.
Proof.
  destruct s as [|c0 s]; simpl; [discriminate|].
  destruct (Ascii.eqb c0 sep); [discriminate|].
  destruct (break sep s). intros [= <- _ _]. now eexists.
Qed.

Lemma numeric_identifier_head s :
  numeric_identifier s = true ->
  exists c s', s = String c s' /\ is_digit c = true.
Proof.
  destruct s as [|c [|d s]]; simpl; [discriminate | |].
  - intros H. now exists c, EmptyString.
  - intros H. apply andb_true_iff in H as [H _].
    apply andb_true_iff in H as [H _]. now exists c, (String d s).
Qed.

(** A text that the grammar accepts is made of the characters of
    versions and starts with a digit. *)
Lemma grammar_chars v sv :
  grammar v = Some sv ->
  all_chars version_char v = true
  /\ exists c v', v = String c v' /\ is_digit c = true.
Proof.
  intros Hv.
  destruct (grammar_inv v sv Hv)
    as (front & b & main & p & ma & mi & pa & pre & bld
        & Hb & Hp & Hs & Hpre & Hbld & Hc & _).
  repeat (apply andb_true_iff in Hc as [Hc ?]).
  assert (Hdigits : forall id, numeric_identifier id = true ->
                               all_chars version_char id = true).
  { intros id Hid. apply (all_chars_impl is_digit); [exact digit_version_char|].
    now apply numeric_identifier_digits. }
  assert (Hmain : all_chars version_char main = true).
  { apply (split_chars _ "."); [reflexivity|]. rewrite Hs. simpl.
    now rewrite !Hdigits. }
  assert (Hfront : all_chars version_char front = true).
  { apply (break_chars _ "-" front main p Hp Hmain).
    pose proof (parts_chars _ _ _ Hpre) as Hptxt.
    destruct p as [ptxt|]; [|exact I]. split; [reflexivity|].
    apply Hptxt. intros id Hid.
    apply (all_chars_impl is_ident_char); [exact ident_version_char|].
    now apply prerelease_identifier_chars. }
  split.
  - apply (break_chars _ "+" v front b Hb Hfront).
    pose proof (parts_chars _ _ _ Hbld) as Hbtxt.
    destruct b as [btxt|]; [|exact I]. split; [reflexivity|].
    apply Hbtxt. intros id Hid.
    apply (all_chars_impl is_ident_char); [exact ident_version_char|].
    now apply build_identifier_chars.
  - destruct (numeric_identifier_head ma Hc) as (c & ma' & -> & Hd).
    destruct (split_head "." main c ma' _ Hs) as (main' & ->).
    destruct (break_head "-" front c main' p Hp) as (front' & ->).
    destruct (break_head "+" v c front' b Hb) as (v' & ->).
    now exists c, v'.
Qed.

Lemma trim_end_chars s :
  all_chars version_char s = true -> trim_end s = s.
Proof.
  induction s as [|c s IH]; [reflexivity|]. cbn [all_chars trim_end].
  intros H. apply andb_true_iff in H as [Hc Hs]. rewrite (IH Hs).
  destruct s; [|reflexivity]. now rewrite (version_char_not_space c Hc).
Qed.

Lemma strip_v_digit c s : is_digit c = true -> strip_v (String c s) = String c s.
Proof.
  destruct c as [[] [] [] [] [] [] [] []]; intros H;
    first [reflexivity | discriminate H].
Qed.

(** The parser reads a version in canonical form as the grammar does. *)
Lemma grammar_parse v sv :
  grammar v = Some sv -> (String.length v <= MAX_LENGTH)%nat ->
  parse v = Some sv /\ trim_end v = v.
Proof.
  intros Hv Hlen.
  destruct (grammar_chars v sv Hv) as (Hchars & c & v' & -> & Hd).
  pose proof (trim_end_chars _ Hchars) as Hend.
  split; [|exact Hend].
  unfold parse, trim. apply Nat.ltb_ge in Hlen. rewrite Hlen.
  cbn [trim_start].
  rewrite (version_char_not_space c (digit_version_char c Hd)), Hend.
  now rewrite (strip_v_digit c v' Hd).
Qed.

(** *** The parser and the channel suffix *)

Lemma trim_end_app a b :
  b <> EmptyString -> trim_end b = b -> trim_end (a +:+ b) = a +:+ b.
Proof.
  intros Hb Hend. induction a as [|c a IH]; [exact Hend|].
  cbn [String.append trim_end]. rewrite IH.
  destruct (a +:+ b) eqn:E; [|reflexivity].
  destruct a; [now destruct Hb | discriminate E].
Qed.

Lemma trim_end_tail c s :
  trim_end (String c s) = String c s -> s = EmptyString \/ trim_end s = s.
Proof.
  cbn [trim_end]. destruct (trim_end s) as [|d t] eqn:E.
  - destruct (is_space c); [discriminate|]. intros [= <-]. now left.
  - intros [= <-]. now right.
Qed.

Lemma trim_end_suffix l t : trim_end (l +:+ t) = l +:+ t -> trim_end t = t.
Proof.
  induction l as [|c l IH]; [now intros H|].
  cbn [String.append]. intros H.
  destruct (trim_end_tail c (l +:+ t) H) as [E|E]; [|now apply IH].
  destruct l; [|discriminate E]. cbn [String.append] in E. now subst t.
Qed.

Lemma trim_start_suffix s : exists l, s = l +:+ trim_start s.
Proof.
  induction s as [|c s (l & IH)]; [now exists EmptyString|].
  cbn [trim_start]. destruct (is_space c).
  - exists (String c l). cbn [String.append]. now rewrite <- IH.
  - now exists EmptyString.
Qed.

Lemma trim_start_app s t :
  trim_start s <> EmptyString -> trim_start (s +:+ t) = trim_start s +:+ t.
Proof.
  induction s as [|c s IH]; [now intros H|].
  cbn [String.append trim_start]. destruct (is_space c); [exact IH|].
  reflexivity.
Qed.

Lemma strip_v_app s t :
  s <> EmptyString -> strip_v (s +:+ t) = strip_v s +:+ t.
Proof.
  destruct s as [|c s]; [now intros H|]. intros _.
  cbn [String.append strip_v].
  destruct c as [[] [] [] [] [] [] [] []]; reflexivity.
Qed.

Lemma ident_char_not_space c : is_ident_char c = true -> is_space c = false.
Proof.
  destruct c as [[] [] [] [] [] [] [] []]; intros H;
    first [reflexivity | discriminate H].
Qed.

Lemma trim_end_identifier s :
  all_chars is_ident_char s = true -> trim_end s = s.
Proof.
  induction s as [|c s IH]; [reflexivity|]. cbn [all_chars trim_end].
  intros H. apply andb_true_iff in H as [Hc Hs]. rewrite (IH Hs).
  destruct s; [|reflexivity]. now rewrite (ident_char_not_space c Hc).
Qed.

(** The text that the grammar is matched on, for a version without
    white space at its end to which the suffix has been appended. *)
Lemma suffix_trimmed v sha :
  trim_end v = v -> strip_v (trim v) <> EmptyString ->
  prerelease_identifier sha = true ->
  strip_v (trim (v +:+ "-exp." +:+ sha))
  = strip_v (trim v) +:+ "-exp." +:+ sha.
Proof.
  intros Hend Hne Hsha. unfold trim in *.
  destruct (trim_start_suffix v) as (l & Hl).
  assert (Ht : trim_end (trim_start v) = trim_start v).
  { apply (trim_end_suffix l). now rewrite <- Hl. }
  rewrite Ht in Hne |- *.
  assert (Hne' : trim_start v <> EmptyString).
  { intros E. rewrite E in Hne. now apply Hne. }
  rewrite (trim_start_app v _ Hne').
  rewrite trim_end_app.
  - now apply strip_v_app.
  - discriminate.
  - apply (trim_end_app "-exp." sha).
    + destruct sha; [discriminate Hsha | discriminate].
    + now apply trim_end_identifier, prerelease_identifier_chars.
Qed.

Lemma parse_grammar v sv :
  parse v = Some sv ->
  (String.length v <= MAX_LENGTH)%nat /\ grammar (strip_v (trim v)) = Some sv.
Proof.
  unfold parse.
  destruct (MAX_LENGTH <? String.length v)%nat eqn:Hlen; [discriminate|].
  apply Nat.ltb_ge in Hlen. now split.
Qed.

(** The precedence of a version to which the channel suffix and an
    identifier have been appended. *)
Lemma suffix_precedence v sv sha :
  parse v = Some sv ->
  trim_end v = v ->
  prerelease_identifier sha = true ->
  (String.length (v +:+ "-exp." +:+ sha) <= MAX_LENGTH)%nat ->
  exists planned,
    parse (v +:+ "-exp." +:+ sha) = Some planned
    /\ major planned = major sv /\ minor planned = minor sv
    /\ patch planned = patch sv
    /\ compare planned sv
       = match build sv, prerelease sv with
         | _ :: _, _ => Eq
         | [], _ :: _ => Gt
         | [], [] => Lt
         end.
Proof.
  intros Hv Hend Hsha Hlen.
  destruct (parse_grammar v sv Hv) as [_ Hg].
  destruct (grammar_suffix_precedence _ sv sha Hg Hsha)
    as (planned & Hp & Hrest).
  exists planned. split; [|exact Hrest].
  unfold parse. apply Nat.ltb_ge in Hlen. rewrite Hlen.
  rewrite suffix_trimmed; [exact Hp | exact Hend | | exact Hsha].
  intros E. rewrite E in Hg. discriminate Hg.
Qed.

End SemverFacts.

(** C3 (as amended): for a package other than the umbrella whose
    current version parses and does not end with white space, the
    planned version is the current version followed by -exp and the
    build identifier; it parses with the same major, minor and patch
    numbers, and under the ordering of semantic
    versions it ranks strictly below the current version when that one
    is a release version (no prerelease, no build metadata), strictly
    above it when it has a prerelease and no build metadata, and equal
    to it when it has build metadata. *)
Theorem planned_version_precedence
    (env : Env) (paths : list string) (w : World) (out : string)
    (path : string) (p : PackageJson) (v : string) (sv : Semver.SemVer) :
  git_revparse env ["--short"; "HEAD"] = Some out ->
  forallb (readable (files w)) paths = true ->
  In path paths ->
  descriptor_at (files w) path = Some p ->
  name p <> FIREBASE_UMBRELLA_PACKAGE_NAME ->
  version p = Str v ->
  Semver.parse v = Some sv ->
  trim_end v = v ->
  Semver.prerelease_identifier (trim out) = true ->
  (String.length (v +:+ "-exp." +:+ trim out) <= Semver.MAX_LENGTH)%nat ->
  (forall path' p', In path' paths ->
                    descriptor_at (files w) path' = Some p' ->
                    name p' = name p -> version p' = version p) ->
  exists versions planned,
    completion (updatePackageNamesAndVersions env paths w) = Done versions
    /\ map_get (name p) versions = Str (v +:+ "-exp." +:+ trim out)
    /\ Semver.parse (v +:+ "-exp." +:+ trim out) = Some planned
    /\ Semver.major planned = Semver.major sv
    /\ Semver.minor planned = Semver.minor sv
    /\ Semver.patch planned = Semver.patch sv
    /\ Semver.compare planned sv
       = match Semver.build sv, Semver.prerelease sv with
         | _ :: _, _ => Eq
         | [], _ :: _ => Gt
         | [], [] => Lt
         end.
Proof.
  intros Hsha Hr Hin Hp Hn Hv Hsv Hend Hid Hlen Hsame.
  destruct (SemverFacts.suffix_precedence v sv (trim out) Hsv Hend Hid Hlen)
    as (planned & Hparse & Hma & Hmi & Hpa & Hcmp).
  eexists. exists planned.
  split; [apply (updatePackageNamesAndVersions_run env out Hsha _ _ Hr)|].
  split; [|now repeat split].
  unfold map_get.
  rewrite (plan_fold_get (trim out) (files w) paths [] (name p)
             (Str (v +:+ "-exp." +:+ trim out))); [reflexivity | |].
  - exact (named_exists _ _ _ _ _ Hin Hp eq_refl).
  - intros path' p' Hin' Hp' Hn'. unfold next_version.
    rewrite Hn'. apply String.eqb_neq in Hn. rewrite Hn.
    now rewrite (Hsame _ _ Hin' Hp' Hn'), Hv.
Qed.

(** ** The rewriter: frame and missing entries *)

(** C7: whatever the options, the rewriter hands the devDependencies
    of a descriptor through unchanged, and no file of the tree sees its
    devDependencies member change: no key is renamed and no range is
    replaced. (On readable packages the rewriter does complete and
    writes every descriptor.) *)
Theorem rewrite_leaves_devDependencies
    (paths : list string) (versions : dict jsval) (o : RewriteOptions)
    (w : World) :
  (forall p, devDependencies (rewrite_descriptor versions o p)
             = devDependencies p)
  /\ (forall file,
        devDependencies_of
          (files (world_after (updatePackageJsons paths versions o w))) file
        = devDependencies_of (files w) file)
  /\ (forallb (readable (files w)) paths = true ->
      completion (updatePackageJsons paths versions o w) = Done tt
      /\ events (updatePackageJsons paths versions o w)
         = map (fun p => WriteFile (p +:+ "/package.json")) paths).
Proof.
  split; [|split].
  - apply rewrite_descriptor_devDependencies.
  - apply updatePackageJsons_devDependencies.
  - intros Hr.
    destruct (updatePackageJsons_completes versions o paths w Hr)
      as (w' & -> & _).
    now split.
Qed.

Lemma rewrite_leaves_devDependencies_witness :
  devDependencies_of
    (files (world_after
              (updatePackageJsons Scenario.paths
                 [("@x/b-exp", Str "0.5.0-exp.abcdef")]
                 {| removeExpInName := true; updateVersions := true;
                    makePublic := true |} Scenario.world)))
    (Scenario.a_dir +:+ "/package.json")
  = Some (JObject [("@x/b-exp", JString "^0.5.0")])
  /\ completion
       (updatePackageJsons Scenario.paths
          [("@x/b-exp", Str "0.5.0-exp.abcdef")]
          {| removeExpInName := true; updateVersions := true;
             makePublic := true |} Scenario.world) = Done tt.
Proof.
  destruct (rewrite_leaves_devDependencies Scenario.paths
              [("@x/b-exp", Str "0.5.0-exp.abcdef")]
              {| removeExpInName := true; updateVersions := true;
                 makePublic := true |} Scenario.world)
    as (_ & Hfile & Hdone).
  split.
  - rewrite Hfile. vm_compute. reflexivity.
  - apply Hdone. vm_compute. reflexivity.
Defined.

(** C10: with [updateVersions] set, a package whose name has no entry
    in the version map makes the rewriter neither fail nor keep the old
    version: the descriptor is written without a version member. *)
Theorem missing_plan_entry_drops_version
    (paths : list string) (versions : dict jsval) (o : RewriteOptions)
    (w : World) (path : string) (p : PackageJson) :
  updateVersions o = true ->
  List.NoDup paths ->
  forallb (readable (files w)) paths = true ->
  In path paths ->
  descriptor_at (files w) path = Some p ->
  dict_get (name p) versions = None ->
  completion (updatePackageJsons paths versions o w) = Done tt
  /\ exists j,
       files (world_after (updatePackageJsons paths versions o w))
         !! (path +:+ "/package.json") = Some j
       /\ json_member "version" j = None
       /\ exists p', parse_package j = Some p' /\ version p' = Undefined.
Proof.
  intros Ho Hnd Hr Hin Hp Hget. split.
  - destruct (updatePackageJsons_completes versions o paths w Hr)
      as (w' & -> & _). reflexivity.
  - exists (stringify (rewrite_descriptor versions o p)).
    assert (Hv : version (rewrite_descriptor versions o p) = Undefined).
    { rewrite (rewrite_descriptor_version versions o p Ho).
      unfold map_get. now rewrite Hget. }
    split; [now apply updatePackageJsons_written|].
    split; [now apply stringify_version_member|].
    exists (rewrite_descriptor versions o p).
    split; [apply parse_stringify | exact Hv].
Qed.

Lemma missing_plan_entry_drops_version_witness :
  descriptor_at Scenario.tree Scenario.a_dir
  = Some (Scenario.descriptor "@x/a-exp" "0.5.0"
            (Some [("@x/b-exp", "^0.5.0")]))
  /\ completion
       (updatePackageJsons Scenario.paths [("firebase-exp", Str "1.2.4")]
          {| removeExpInName := false; updateVersions := true;
             makePublic := false |} Scenario.world) = Done tt
  /\ exists j,
       files (world_after
                (updatePackageJsons Scenario.paths
                   [("firebase-exp", Str "1.2.4")]
                   {| removeExpInName := false; updateVersions := true;
                      makePublic := false |} Scenario.world))
         !! (Scenario.a_dir +:+ "/package.json") = Some j
       /\ json_member "version" j = None
       /\ exists p', parse_package j = Some p' /\ version p' = Undefined.
Proof.
  split; [vm_compute; reflexivity|].
  apply (missing_plan_entry_drops_version Scenario.paths
           [("firebase-exp", Str "1.2.4")] _ Scenario.world Scenario.a_dir
           (Scenario.descriptor "@x/a-exp" "0.5.0"
              (Some [("@x/b-exp", "^0.5.0")]))).
  - reflexivity.
  - repeat (constructor; [simpl; intuition discriminate|]). constructor.
  - vm_compute. reflexivity.
  - right. left. reflexivity.
  - vm_compute. reflexivity.
  - reflexivity.
Defined.

(** ** The working set of the specification *)

(** C2 (counterexample): after the publish-mode rewrite of that working
    set the descriptor of @x/a-exp is not named @x/a. *)
Lemma scenario_rename_counterexample :
  ~ exists p,
      descriptor_at
        (files (world_after
                  (updatePackageNamesAndVersions
                     (Scenario.env Scenario.yes []) Scenario.paths
                     Scenario.world))) Scenario.a_dir = Some p
      /\ name p = "@x/a"
      /\ exists d, dependencies p = Some d
                   /\ dict_get "@x/b" d = Some "0.5.0-exp.abcdef".
Proof.
  intros (p & Hp & Hn & _).
  vm_compute in Hp. injection Hp as <-. discriminate Hn.
Qed.

(** C2 (as amended): after the publish-mode rewrite of that working
    set, firebase-exp has become firebase at 1.2.4 and public, while
    @x/a-exp keeps its name, has version 0.5.0-exp.abcdef, is public,
    and depends on @x/b-exp at 0.5.0-exp.abcdef. *)
Theorem scenario_publish_rewrite :
  completion
    (updatePackageNamesAndVersions (Scenario.env Scenario.yes [])
       Scenario.paths Scenario.world)
  = Done [("firebase-exp", Str "1.2.4");
          ("@x/a-exp", Str "0.5.0-exp.abcdef");
          ("@x/b-exp", Str "0.5.0-exp.abcdef")]
  /\ exists pf pa,
    descriptor_at
      (files (world_after
                (updatePackageNamesAndVersions
                   (Scenario.env Scenario.yes []) Scenario.paths
                   Scenario.world))) Scenario.umbrella_dir = Some pf
    /\ name pf = "firebase" /\ version pf = Str "1.2.4"
    /\ private pf = Some false
    /\ descriptor_at
         (files (world_after
                   (updatePackageNamesAndVersions
                      (Scenario.env Scenario.yes []) Scenario.paths
                      Scenario.world))) Scenario.a_dir = Some pa
    /\ name pa = "@x/a-exp" /\ version pa = Str "0.5.0-exp.abcdef"
    /\ private pa = Some false
    /\ dependencies pa = Some [("@x/b-exp", "0.5.0-exp.abcdef")].
Proof.
  split; [vm_compute; reflexivity|].
  eexists. eexists.
  split; [vm_compute; reflexivity|].
  split; [reflexivity|]. split; [reflexivity|]. split; [reflexivity|].
  split; [vm_compute; reflexivity|].
  repeat split.
Qed.

(** What [inc] answers on plain versions: the next patch number for a
    release version, also with build metadata, which is dropped, with a
    leading v or with blanks around it; the release itself for a
    prerelease; [null] for what is no version. *)
Lemma inc_examples :
  Semver.inc (Str "1.2.3") = Str "1.2.4"
  /\ Semver.inc (Str "1.2.3+build.7") = Str "1.2.4"
  /\ Semver.inc (Str "1.2.3-beta.1") = Str "1.2.3"
  /\ Semver.inc (Str "v1.2.3") = Str "1.2.4"
  /\ Semver.inc (Str " 1.2.3 ") = Str "1.2.4"
  /\ Semver.inc (Str "1.2") = Null
  /\ Semver.inc (Str "vv1.2.3") = Null
  /\ Semver.inc (Str "1.2.3 -beta") = Null
  /\ Semver.inc Undefined = Null.
Proof. repeat split. Qed.

Lemma version_plan_covers_working_set_witness :
  exists versions,
    completion
      (updatePackageNamesAndVersions (Scenario.env Scenario.yes [])
         Scenario.paths Scenario.world) = Done versions
    /\ dict_keys versions = ["firebase-exp"; "@x/a-exp"; "@x/b-exp"]
    /\ map_get FIREBASE_UMBRELLA_PACKAGE_NAME versions = Str "1.2.4".
Proof.
  destruct (version_plan_covers_working_set (Scenario.env Scenario.yes [])
              Scenario.paths Scenario.world
              ("abcdef" +:+ Scenario.newline) eq_refl)
    as (versions & Hc & _ & _ & Hu).
  - vm_compute. reflexivity.
  - exists versions. split; [exact Hc|].
    split.
    + vm_compute in Hc. injection Hc as <-. reflexivity.
    + apply (Hu Scenario.umbrella_dir
               (Scenario.descriptor "firebase-exp" "1.2.3" None) "1.2.3"
               {| Semver.major := 1; Semver.minor := 2; Semver.patch := 3;
                  Semver.prerelease := []; Semver.build := [] |}).
      * left. reflexivity.
      * vm_compute. reflexivity.
      * reflexivity.
      * reflexivity.
      * vm_compute. reflexivity.
      * reflexivity.
      * intros path' p' [<-|[<-|[<-|[]]]] Hp' Hn';
          vm_compute in Hp'; injection Hp' as <-;
          first [reflexivity | discriminate Hn'].
Defined.

(** C3 (counterexample): the version planned for @x/a-exp at 0.5.0 is
    0.5.0-exp.abcdef, which does not rank above 0.5.0. *)
Lemma planned_version_older_counterexample :
  exists versions,
    completion
      (updatePackageNamesAndVersions (Scenario.env Scenario.yes [])
         Scenario.paths Scenario.world) = Done versions
    /\ descriptor_at Scenario.tree Scenario.a_dir
       = Some (Scenario.descriptor "@x/a-exp" "0.5.0"
                 (Some [("@x/b-exp", "^0.5.0")]))
    /\ map_get "@x/a-exp" versions = Str "0.5.0-exp.abcdef"
    /\ ~ ranks_above "0.5.0-exp.abcdef" "0.5.0".
Proof.
  eexists. split; [vm_compute; reflexivity|].
  split; [vm_compute; reflexivity|].
  split; [reflexivity|].
  intros (p & c & Hp & Hc & Hcmp).
  vm_compute in Hp, Hc. injection Hp as <-. injection Hc as <-.
  discriminate Hcmp.
Qed.

Lemma planned_version_precedence_witness :
  exists versions planned,
    completion
      (updatePackageNamesAndVersions (Scenario.env Scenario.yes [])
         Scenario.paths Scenario.world) = Done versions
    /\ map_get "@x/a-exp" versions = Str "0.5.0-exp.abcdef"
    /\ Semver.parse "0.5.0-exp.abcdef" = Some planned
    /\ Semver.compare planned
         {| Semver.major := 0; Semver.minor := 5; Semver.patch := 0;
            Semver.prerelease := []; Semver.build := [] |} = Lt.
Proof.
  destruct (planned_version_precedence (Scenario.env Scenario.yes [])
              Scenario.paths Scenario.world ("abcdef" +:+ Scenario.newline)
              Scenario.a_dir
              (Scenario.descriptor "@x/a-exp" "0.5.0"
                 (Some [("@x/b-exp", "^0.5.0")]))
              "0.5.0"
              {| Semver.major := 0; Semver.minor := 5; Semver.patch := 0;
                 Semver.prerelease := []; Semver.build := [] |})
    as (versions & planned & Hc & Hget & Hparse & _ & _ & _ & Hcmp).
  - reflexivity.
  - vm_compute. reflexivity.
  - right. left. reflexivity.
  - vm_compute. reflexivity.
  - discriminate.
  - reflexivity.
  - vm_compute. reflexivity.
  - reflexivity.
  - vm_compute. reflexivity.
  - vm_compute. lia.
  - intros path' p' [<-|[<-|[<-|[]]]] Hp' Hn';
      vm_compute in Hp'; injection Hp' as <-;
      first [reflexivity | discriminate Hn'].
  - exists versions, planned. repeat split; assumption.
Defined.

(** The two other cases on plain versions: a prerelease gets a higher
    one, build metadata absorbs the suffix. *)
Lemma suffix_precedence_examples :
  (exists a b, Semver.parse "1.0.0-beta-exp.abcdef" = Some a
               /\ Semver.parse "1.0.0-beta" = Some b
               /\ Semver.compare a b = Gt)
  /\ (exists a b, Semver.parse "1.0.0+build-exp.abcdef" = Some a
                  /\ Semver.parse "1.0.0+build" = Some b
                  /\ Semver.compare a b = Eq).
Proof.
  split; eexists; eexists; (split; [vm_compute; reflexivity|]);
    (split; [vm_compute; reflexivity|]); reflexivity.
Qed.

(** ** Events of the steps *)

Section Emits.

Variable P : Event -> bool.

Lemma emits_ret {A : Type} (a : A) : emits P (ret a).
Proof. intros w. split; [reflexivity | discriminate]. Qed.

Lemma emits_throw {A : Type} (e : Error) : emits P (@throw A e).
Proof. intros w. split; [reflexivity | discriminate]. Qed.

Lemma emits_emit (e : Event) : P e = true -> emits P (emit e).
Proof.
  intros He w. split; [simpl; now rewrite He | discriminate].
Qed.

Lemma emits_bind {A B : Type} (m : M A) (k : A -> M B) :
  emits P m -> (forall a, emits P (k a)) -> emits P (bind m k).
Proof.
  intros Hm Hk w. unfold bind. destruct (Hm w) as [Hev Hex].
  destruct (m w) as [[[a|e|code] w1] ev1]; simpl in *.
  - destruct (Hk a w1) as [Hev2 Hex2].
    destruct (k a w1) as [[c w2] ev2]; simpl in *.
    split; [now rewrite forallb_app, Hev, Hev2 | exact Hex2].
  - split; [exact Hev | discriminate].
  - now destruct (Hex code).
Qed.

Lemma emits_readPackageJson path : emits P (readPackageJson path).
Proof.
  intros w. rewrite readPackageJson_descriptor.
  destruct (descriptor_at (files w) path);
    (split; [reflexivity | discriminate]).
Qed.

End Emits.

Section QuietSteps.

Variable env : Env.

Lemma quiet_spawn_yarn args cwd : emits quiet (spawn env "yarn" args cwd).
Proof.
  apply emits_bind; [now apply emits_emit|]. intros _.
  destruct (spawn_ok env "yarn" args cwd);
    [apply emits_ret | apply emits_throw].
Qed.

Lemma quiet_prepare : emits quiet (prepareFirestoreForRelease env).
Proof.
  intros w. unfold prepareFirestoreForRelease.
  destruct (prepare_firestore env (files w));
    (split; [reflexivity | discriminate]).
Qed.

Lemma quiet_rmdir path : emits quiet (rmdirSync env path).
Proof.
  apply emits_bind; [now apply emits_emit|]. intros _.
  destruct (remove_dir_ok env); [apply emits_ret | apply emits_throw].
Qed.

Lemma quiet_build : emits quiet (buildPackages env).
Proof.
  unfold buildPackages.
  repeat (apply emits_bind; [apply quiet_spawn_yarn | intros _]).
  apply emits_bind; [|intros _; apply quiet_spawn_yarn].
  destruct (installations_dist_exists env);
    [apply quiet_rmdir | apply emits_ret].
Qed.

Lemma quiet_workspace patterns :
  emits quiet (mapWorkspaceToPackages env patterns).
Proof.
  apply emits_bind; [now apply emits_emit|]. intros _.
  destruct (workspace_packages env patterns);
    [apply emits_ret | apply emits_throw].
Qed.

Lemma quiet_sha : emits quiet (getCurrentSha env).
Proof.
  apply emits_bind; [|intros; apply emits_ret].
  apply emits_bind; [now apply emits_emit|]. intros _.
  destruct (git_revparse env _); [apply emits_ret | apply emits_throw].
Qed.

Lemma quiet_rewriter paths versions o :
  emits quiet (updatePackageJsons paths versions o).
Proof.
  induction paths as [|path rest IH]; simpl; [apply emits_ret|].
  apply emits_bind; [apply emits_readPackageJson|]. intros p.
  apply emits_bind; [|intros _; exact IH].
  intros w. split; [reflexivity | discriminate].
Qed.

Lemma quiet_plan paths acc : emits quiet (plan_versions env paths acc).
Proof.
  revert acc. induction paths as [|path rest IH]; intros acc; simpl;
    [apply emits_ret|].
  apply emits_bind; [apply emits_readPackageJson|]. intros p.
  destruct (String.eqb (name p) FIREBASE_UMBRELLA_PACKAGE_NAME);
    [apply IH|].
  apply emits_bind; [apply quiet_sha | intros sha; apply IH].
Qed.

Lemma quiet_planner paths :
  emits quiet (updatePackageNamesAndVersions env paths).
Proof.
  apply emits_bind; [apply quiet_plan|]. intros versions.
  apply emits_bind; [apply quiet_rewriter | intros _; apply emits_ret].
Qed.

Lemma quiet_reset paths versions :
  emits quiet (resetWorkingTreeAndBumpVersions env paths versions).
Proof.
  apply emits_bind; [|intros _; apply quiet_rewriter].
  intros w. unfold git_checkout.
  destruct (git_checkout_ok env); (split; [reflexivity | discriminate]).
Qed.

End QuietSteps.

(** ** The publisher *)

Section Publisher.

Variable env : Env.
Variable dryRun : bool.

Lemma publishPackage_run pp w :
  publishPackage env pp dryRun w
  = (match publish_state env dryRun pp with
     | Completed => Done tt
     | Failed e => Throw e
     end, w, [Spawn "npm" (publish_args dryRun) pp]).
Proof.
  unfold publishPackage, publish_state, spawn, bind, emit.
  fold (publish_args dryRun).
  destruct (spawn_ok env "npm" (publish_args dryRun) pp); reflexivity.
Qed.

Lemma publish_tasks_run paths w :
  forallb (readable (files w)) paths = true ->
  publish_tasks env paths dryRun w = (Done (tasks_for env dryRun (files w) paths), w, []).
Proof.
  induction paths as [|pp rest IH]; intros Hr; [reflexivity|].
  simpl in Hr. apply andb_true_iff in Hr as [Hpp Hrest].
  cbn [publish_tasks]. unfold bind at 1.
  rewrite readPackageJson_descriptor. unfold readable in Hpp.
  unfold tasks_for, package_title. cbn [map].
  destruct (descriptor_at (files w) pp) as [p|] eqn:Hp; [|discriminate].
  unfold bind. rewrite (IH Hrest). reflexivity.
Qed.

(** When a descriptor cannot be read, no task is started. *)
Lemma publish_tasks_unreadable paths w :
  forallb (readable (files w)) paths = false ->
  exists e, publish_tasks env paths dryRun w = (Throw e, w, []).
Proof.
  induction paths as [|pp rest IH]; intros Hr; [discriminate|].
  simpl in Hr. cbn [publish_tasks]. unfold bind at 1.
  rewrite readPackageJson_descriptor. unfold readable in Hr.
  destruct (descriptor_at (files w) pp) as [p|] eqn:Hp; [|now eexists].
  simpl in Hr. destruct (IH Hr) as (e & E).
  unfold bind. rewrite E. now eexists.
Qed.

(** Every task runs, in the order of the list, whatever happened to
    the tasks before it; the errors are collected in that order. *)
Lemma listr_tasks_run fs paths w :
  listr_tasks (tasks_for env dryRun fs paths) w
  = (Done (publish_errors env dryRun paths), w,
     flat_map (publish_events env dryRun fs) paths).
Proof.
  induction paths as [|pp rest IH]; [reflexivity|].
  cbn [tasks_for map listr_tasks task title].
  rewrite publishPackage_run. fold (tasks_for env dryRun fs rest). rewrite IH.
  unfold publish_errors, publish_events. cbn [flat_map].
  destruct (publish_state env dryRun pp); reflexivity.
Qed.

Lemma publishToNpm_run paths w :
  forallb (readable (files w)) paths = true ->
  publishToNpm env paths dryRun w
  = (match publish_errors env dryRun paths with
     | [] => Done tt
     | errors => Throw (ListrError errors)
     end, w, flat_map (publish_events env dryRun (files w)) paths).
Proof.
  intros Hr. unfold publishToNpm.
  rewrite (bind_Done _ _ _ _ _ _ (publish_tasks_run paths w Hr)).
  unfold listr_run.
  rewrite (bind_Done _ _ _ _ _ _ (listr_tasks_run (files w) paths w)).
  destruct (publish_errors env dryRun paths); simpl;
    now rewrite app_nil_r.
Qed.

Lemma publish_events_publishing fs paths :
  forallb publishing (flat_map (publish_events env dryRun fs) paths) = true.
Proof. induction paths as [|pp rest IH]; [reflexivity | exact IH]. Qed.

Lemma publish_events_published fs paths :
  publish_errors env dryRun paths = [] ->
  forallb published (flat_map (publish_events env dryRun fs) paths) = true.
Proof.
  induction paths as [|pp rest IH]; [reflexivity|].
  unfold publish_errors, publish_events. cbn [flat_map].
  destruct (publish_state env dryRun pp); [|discriminate].
  intros H. simpl. now apply IH.
Qed.

End Publisher.

(** ** The workflow *)

Lemma bind_Done_run {A B : Type} (m : M A) (k : A -> M B) w a w1 ev1 :
  m w = (Done a, w1, ev1) ->
  completion (bind m k w) = completion (k a w1)
  /\ events (bind m k w) = ev1 ++ events (k a w1).
Proof.
  intros E. unfold bind. rewrite E.
  destruct (k a w1) as [[c w2] ev2]. now split.
Qed.

Lemma bind_Throw_run {A B : Type} (m : M A) (k : A -> M B) w e w1 ev1 :
  m w = (Throw e, w1, ev1) ->
  completion (bind m k w) = Throw e /\ events (bind m k w) = ev1.
Proof. intros E. unfold bind. rewrite E. now split. Qed.

Lemma bind_Exit_run {A B : Type} (m : M A) (k : A -> M B) w code w1 ev1 :
  m w = (ProcessExit code, w1, ev1) ->
  completion (bind m k w) = ProcessExit code /\ events (bind m k w) = ev1.
Proof. intros E. unfold bind. rewrite E. now split. Qed.

Ltac step_done E :=
  match goal with
  | |- context [completion (bind ?m ?k ?w)] =>
      rewrite (proj1 (bind_Done_run m k w _ _ _ E)),
              (proj2 (bind_Done_run m k w _ _ _ E)); cbv beta
  end.

Ltac step_throw E :=
  match goal with
  | |- context [completion (bind ?m ?k ?w)] =>
      rewrite (proj1 (bind_Throw_run m k w _ _ _ E)),
              (proj2 (bind_Throw_run m k w _ _ _ E))
  end.

Ltac step_exit E :=
  match goal with
  | |- context [completion (bind ?m ?k ?w)] =>
      rewrite (proj1 (bind_Exit_run m k w _ _ _ E)),
              (proj2 (bind_Exit_run m k w _ _ _ E))
  end.

Section Workflow.

Variable env : Env.
Variable dryRun : bool.

Lemma ret_run {A : Type} (a : A) w : ret a w = (Done a, w, []).
Proof. reflexivity. Qed.

Lemma throw_run {A : Type} (e : Error) w : @throw A e w = (Throw e, w, []).
Proof. reflexivity. Qed.

Lemma process_exit_run {A : Type} code w :
  @process_exit A code w = (ProcessExit code, w, []).
Proof. reflexivity. Qed.

Lemma prompt_run question w :
  prompt env question w = (Done (answer env question), w, [Prompt question]).
Proof. reflexivity. Qed.

Lemma Outcome_prepend ev0 c ev :
  forallb quiet ev0 = true -> Outcome env dryRun c ev ->
  Outcome env dryRun c (ev0 ++ ev).
Proof.
  intros H0 H.
  assert (Hq : forall before, forallb quiet before = true ->
                              forallb quiet (ev0 ++ before) = true).
  { intros before Hb. now rewrite forallb_app, H0, Hb. }
  destruct H; rewrite ?(app_assoc ev0 before).
  - apply FailedBeforeVersionCheck; auto.
  - apply VersionCheckDeclined; auto.
  - apply DescriptorUnreadable; auto.
  - apply PublishRejected; auto.
  - apply ResetDeclined; auto.
  - apply ResetFailed; auto.
  - apply DryRunDone; auto.
  - apply CommitDeclined; auto.
  - apply CommitCallFailed; auto.
Qed.

(** A quiet step in front of the rest of the body. *)
Lemma Outcome_bind {A : Type} (m : M A) (k : A -> M unit) w :
  emits quiet m ->
  (forall a w1,
      Outcome env dryRun (completion (k a w1)) (events (k a w1))) ->
  Outcome env dryRun (completion (bind m k w)) (events (bind m k w)).
Proof.
  intros Hm Hk. destruct (Hm w) as [Hq Hne].
  destruct (m w) as [[[a|e|code] w1] ev1] eqn:E; simpl in Hq, Hne.
  - step_done E. apply Outcome_prepend; [exact Hq | apply Hk].
  - step_throw E. now apply FailedBeforeVersionCheck.
  - now destruct (Hne code).
Qed.

(** The body of the [try] block ends in one of the ways listed by
    [Outcome]. *)
Lemma try_outcome w :
  Outcome env dryRun
    (completion (publishExpPackages_try env dryRun w))
    (events (publishExpPackages_try env dryRun w)).
Proof.
  unfold publishExpPackages_try.
  apply Outcome_bind; [apply quiet_prepare|]. intros _ w1.
  apply Outcome_bind; [apply quiet_build|]. clear w1. intros _ w1.
  apply Outcome_bind; [apply quiet_workspace|]. clear w1.
  intros workspace w1. cbv zeta.
  set (packagePaths := workspace ++ [projectRoot env +:+ "/packages/firestore"]).
  apply Outcome_bind; [apply quiet_planner|]. clear w1.
  intros versions w1.
  (* the confirmation of the versions *)
  step_done (prompt_run "versionCheck" w1).
  destruct (answer env "versionCheck") eqn:Hvc; cbn [negb].
  2:{ step_throw (throw_run (A := unit) (JsError "Version check failed") w1).
      now apply (VersionCheckDeclined env dryRun []). }
  step_done (ret_run tt w1).
  (* the publisher *)
  destruct (forallb (readable (files w1)) packagePaths) eqn:Hread.
  2:{ destruct (publish_tasks_unreadable env dryRun _ _ Hread) as (e & E).
      assert (E' : publishToNpm env packagePaths dryRun w1 = (Throw e, w1, [])).
      { unfold publishToNpm, bind. now rewrite E. }
      step_throw E'. now apply (DescriptorUnreadable env dryRun e []). }
  pose proof (publishToNpm_run env dryRun _ _ Hread) as E.
  pose proof (publish_events_publishing env dryRun (files w1) packagePaths)
    as Hpub.
  pose proof (publish_events_published env dryRun (files w1) packagePaths)
    as Hok.
  set (pub := flat_map (publish_events env dryRun (files w1)) packagePaths)
    in *.
  destruct (publish_errors env dryRun packagePaths) as [|e0 errors].
  2:{ step_throw E. simpl.
      now apply (PublishRejected env dryRun (e0 :: errors) [] pub). }
  specialize (Hok eq_refl). step_done E.
  (* the confirmation of the reset *)
  step_done (prompt_run "resetWorkingTree" w1).
  destruct (answer env "resetWorkingTree") eqn:Hreset.
  2:{ step_exit (process_exit_run (A := unit) 0 w1).
      simpl. now apply (ResetDeclined env dryRun [] pub). }
  match goal with
  | |- context [resetWorkingTreeAndBumpVersions env ?ps ?vs] =>
      destruct (quiet_reset env ps vs w1) as [Hq Hne];
      destruct (resetWorkingTreeAndBumpVersions env ps vs w1)
        as [[[[]|e|code] w2] between] eqn:Ereset
  end; simpl in Hq, Hne.
  3:{ now destruct (Hne code). }
  2:{ step_throw Ereset. simpl.
      now apply (ResetFailed env dryRun e [] pub between). }
  step_done Ereset.
  (* the confirmation of the commit *)
  destruct dryRun eqn:Hdry; cbn [negb].
  { simpl. rewrite app_nil_r.
    now apply (DryRunDone env true [] pub between). }
  step_done (prompt_run "commitAndPush" w2).
  destruct (answer env "commitAndPush") eqn:Hcommit; simpl.
  - now apply (CommitCallFailed env false [] pub between).
  - now apply (CommitDeclined env false [] pub between).
Qed.

End Workflow.

Lemma forallb_In {A : Type} (P : A -> bool) (l : list A) (x : A) :
  forallb P l = true -> In x l -> P x = true.
Proof. intros H. now apply forallb_forall. Qed.

(** Splits a membership in a trace into its stretches, and discards
    the stretches whose kind of events excludes the event. *)
Ltac in_trace H :=
  repeat match type of H with
         | In _ (_ ++ _) => apply in_app_or in H as [H|H]
         | In _ (_ :: _) => destruct H as [H|H]
         | In _ [] => destruct H
         end;
  try discriminate H;
  try match type of H with
      | In ?e ?l =>
          match goal with
          | Hq : forallb ?P l = true |- _ =>
              apply (forallb_In P l e Hq) in H; discriminate H
          end
      end.

Section WorkflowFacts.

Variable env : Env.
Variable dryRun : bool.
Variable w : World.

Lemma publishExpPackages_exit_code :
  exit_code (publishExpPackages env dryRun w)
  = match completion (publishExpPackages_try env dryRun w) with
    | Done _ => 0%Z
    | Throw _ => 1%Z
    | ProcessExit code => code
    end.
Proof.
  unfold publishExpPackages, exit_code, completion.
  now destruct (publishExpPackages_try env dryRun w) as [[[?|?|?] ?] ?].
Qed.

Lemma publishExpPackages_trace :
  trace (publishExpPackages env dryRun w)
  = events (publishExpPackages_try env dryRun w)
    ++ match completion (publishExpPackages_try env dryRun w) with
       | Throw err => [ConsoleError err]
       | _ => []
       end.
Proof.
  unfold publishExpPackages, trace, completion, events.
  destruct (publishExpPackages_try env dryRun w) as [[[?|?|?] ?] ?];
    simpl; now rewrite ?app_nil_r.
Qed.

(** The process ends with 0 or 1. *)
Lemma exit_code_0_or_1 :
  exit_code (publishExpPackages env dryRun w) = 0%Z
  \/ exit_code (publishExpPackages env dryRun w) = 1%Z.
Proof.
  rewrite publishExpPackages_exit_code.
  destruct (try_outcome env dryRun w); auto.
Qed.

Lemma exit_code_1_iff :
  exit_code (publishExpPackages env dryRun w) = 1%Z
  <-> exists e, completion (publishExpPackages_try env dryRun w) = Throw e.
Proof.
  rewrite publishExpPackages_exit_code.
  destruct (try_outcome env dryRun w); split;
    try (intros _; now eexists); try discriminate;
    intros (? & ?); discriminate.
Qed.

(** Declining the reset ends the process with 0, and the
    confirmation is the last thing that happened. *)
Lemma reset_declined :
  In (Prompt "resetWorkingTree") (trace (publishExpPackages env dryRun w)) ->
  answer env "resetWorkingTree" = false ->
  exit_code (publishExpPackages env dryRun w) = 0%Z
  /\ completion (publishExpPackages_try env dryRun w) = ProcessExit 0
  /\ exists evs, trace (publishExpPackages env dryRun w)
                 = evs ++ [Prompt "resetWorkingTree"].
Proof.
  rewrite publishExpPackages_exit_code, publishExpPackages_trace.
  intros Hin Hno.
  destruct (try_outcome env dryRun w); try congruence;
    try (exfalso; in_trace Hin; fail).
  split; [reflexivity|]. split; [reflexivity|].
  exists (before ++ Prompt "versionCheck" :: pub).
  rewrite app_nil_r, <- app_assoc. reflexivity.
Qed.

(** Declining the versions raises the error of the version check,
    which is caught: the process ends with 1 and the publisher has
    not run. *)
Lemma version_check_declined :
  In (Prompt "versionCheck") (trace (publishExpPackages env dryRun w)) ->
  answer env "versionCheck" = false ->
  exit_code (publishExpPackages env dryRun w) = 1%Z
  /\ completion (publishExpPackages_try env dryRun w)
     = Throw (JsError "Version check failed")
  /\ exists evs, forallb quiet evs = true
                 /\ trace (publishExpPackages env dryRun w)
                    = evs ++ [Prompt "versionCheck";
                              ConsoleError (JsError "Version check failed")].
Proof.
  rewrite publishExpPackages_exit_code, publishExpPackages_trace.
  intros Hin Hno.
  destruct (try_outcome env dryRun w); try congruence;
    try (exfalso; in_trace Hin; fail).
  split; [reflexivity|]. split; [reflexivity|].
  exists before. split; [assumption|]. now rewrite <- app_assoc.
Qed.

(** A failed publication is fatal once every package has been tried:
    the process ends with 1 and the reset is never proposed. *)
Lemma publish_failure_is_fatal title e :
  In (TaskRendered title (Failed e))
     (trace (publishExpPackages env dryRun w)) ->
  exit_code (publishExpPackages env dryRun w) = 1%Z
  /\ ~ In (Prompt "resetWorkingTree")
         (trace (publishExpPackages env dryRun w))
  /\ exists errors,
       errors <> []
       /\ completion (publishExpPackages_try env dryRun w)
          = Throw (ListrError errors).
Proof.
  rewrite publishExpPackages_exit_code, publishExpPackages_trace.
  intros Hin.
  destruct (try_outcome env dryRun w);
    try (exfalso; in_trace Hin; fail).
  split; [reflexivity|]. split; [|now exists errors].
  intros Hr. in_trace Hr.
Qed.

(** No run executes a shell command: the commands of [commitAndPush]
    are never reached. *)
Lemma no_shell_command command :
  ~ In (Exec command) (trace (publishExpPackages env dryRun w)).
Proof.
  rewrite publishExpPackages_trace. intros Hin.
  destruct (try_outcome env dryRun w); in_trace Hin.
Qed.

(** Answering yes to the commit confirmation makes the call fail. *)
Lemma commit_confirmed :
  In (Prompt "commitAndPush") (trace (publishExpPackages env dryRun w)) ->
  answer env "commitAndPush" = true ->
  exit_code (publishExpPackages env dryRun w) = 1%Z
  /\ completion (publishExpPackages_try env dryRun w)
     = Throw (TypeError "commitAndPush is not a function")
  /\ exists evs,
       trace (publishExpPackages env dryRun w)
       = evs ++ [Prompt "commitAndPush";
                 ConsoleError (TypeError "commitAndPush is not a function")].
Proof.
  rewrite publishExpPackages_exit_code, publishExpPackages_trace.
  intros Hin Hyes.
  destruct (try_outcome env dryRun w); try congruence;
    try (exfalso; in_trace Hin; fail).
  split; [reflexivity|]. split; [reflexivity|].
  exists (before ++ Prompt "versionCheck" :: pub
          ++ Prompt "resetWorkingTree" :: between).
  repeat (rewrite <- ?app_assoc; simpl). reflexivity.
Qed.

End WorkflowFacts.

(** ** The claims on the workflow *)

Ltac find_event := repeat (first [left; reflexivity | right]).

(** C1: when the operator confirms the reset and then answers yes at
    the commit-and-push confirmation of a run that is not a dry run, the
    call of [commitAndPush] reaches the boolean answer instead of the
    function: a [TypeError] is caught, the process ends with exit code
    1, and no shell command (git add, commit, rev-parse, push) is ever
    executed. *)
Theorem commit_gate_call_fails (env : Env) (w : World) :
  In (Prompt "commitAndPush") (trace (publishExpPackages env false w)) ->
  answer env "commitAndPush" = true ->
  exit_code (publishExpPackages env false w) = 1%Z
  /\ In (ConsoleError (TypeError "commitAndPush is not a function"))
        (trace (publishExpPackages env false w))
  /\ forall command,
       ~ In (Exec command) (trace (publishExpPackages env false w)).
Proof.
  intros Hin Hyes.
  destruct (commit_confirmed env false w Hin Hyes) as (Hcode & _ & evs & Ht).
  split; [exact Hcode|]. split.
  - rewrite Ht. apply in_or_app. right. right. now left.
  - intros command. apply no_shell_command.
Qed.

Lemma commit_gate_call_fails_witness :
  answer (Scenario.env Scenario.yes []) "resetWorkingTree" = true
  /\ exit_code (publishExpPackages (Scenario.env Scenario.yes []) false
                  Scenario.world) = 1%Z
  /\ In (ConsoleError (TypeError "commitAndPush is not a function"))
        (trace (publishExpPackages (Scenario.env Scenario.yes []) false
                  Scenario.world))
  /\ forall command,
       ~ In (Exec command)
            (trace (publishExpPackages (Scenario.env Scenario.yes []) false
                      Scenario.world)).
Proof.
  split; [reflexivity|].
  apply (commit_gate_call_fails (Scenario.env Scenario.yes []) Scenario.world).
  - vm_compute. find_event.
  - reflexivity.
Defined.

(** The function [commitAndPush] itself, when it is called, stages the
    descriptors and the lock file, commits with the umbrella version in
    the message, reads the branch and pushes it without hooks. *)
Lemma commitAndPush_function_run :
  commitAndPush (Scenario.env Scenario.yes [])
    [("firebase-exp", Str "1.2.4")] Scenario.world
  = (Done tt, Scenario.world,
     [Exec "git add */package.json yarn.lock";
      Exec ("git commit -m " +:+ quote +:+ "Publish firebase@exp 1.2.4"
            +:+ quote);
      Exec "git rev-parse --abbrev-ref HEAD";
      Exec "git push origin master --no-verify -u"]).
Proof. reflexivity. Qed.

(** C4 (counterexample): the publication of @x/a-exp fails, that of
    @x/b-exp succeeds, and the reset confirmation is never reached. *)
Lemma publish_failure_halts_counterexample :
  publish_state (Scenario.env Scenario.yes [Scenario.a_dir]) false
    Scenario.a_dir
  <> Completed
  /\ publish_state (Scenario.env Scenario.yes [Scenario.a_dir]) false
       Scenario.b_dir
     = Completed
  /\ ~ In (Prompt "resetWorkingTree")
          (trace (publishExpPackages
                    (Scenario.env Scenario.yes [Scenario.a_dir]) false
                    Scenario.world)).
Proof.
  split; [discriminate|]. split; [reflexivity|].
  vm_compute. intuition discriminate.
Qed.

(** C4 (as amended): the packages are published one after the other in
    the order of the list; a failure does not keep the later packages
    from being tried and the state of every task is rendered; the run of
    the task list is rejected with the collected errors exactly when a
    publication failed. In the workflow a failed publication therefore
    ends the process with exit code 1 once every package has been tried,
    and the reset confirmation is reached only if no publication
    failed. *)
Theorem publish_continues_then_rejects (env : Env) (dryRun : bool) :
  (forall paths w,
      forallb (readable (files w)) paths = true ->
      events (publishToNpm env paths dryRun w)
      = flat_map (publish_events env dryRun (files w)) paths
      /\ world_after (publishToNpm env paths dryRun w) = w
      /\ completion (publishToNpm env paths dryRun w)
         = match publish_errors env dryRun paths with
           | [] => Done tt
           | errors => Throw (ListrError errors)
           end)
  /\ (forall w title e,
        In (TaskRendered title (Failed e))
           (trace (publishExpPackages env dryRun w)) ->
        exit_code (publishExpPackages env dryRun w) = 1%Z
        /\ ~ In (Prompt "resetWorkingTree")
               (trace (publishExpPackages env dryRun w)))
  /\ (forall w title state,
        In (Prompt "resetWorkingTree")
           (trace (publishExpPackages env dryRun w)) ->
        In (TaskRendered title state)
           (trace (publishExpPackages env dryRun w)) ->
        state = Completed).
Proof.
  split; [|split].
  - intros paths w Hr. rewrite (publishToNpm_run env dryRun paths w Hr).
    now repeat split.
  - intros w title e Hin.
    destruct (publish_failure_is_fatal env dryRun w title e Hin)
      as (Hcode & Hno & _).
    now split.
  - intros w title [|e] Hreset Hin; [reflexivity|].
    now destruct (publish_failure_is_fatal env dryRun w title e Hin)
      as (_ & Hno & _).
Qed.

Lemma publish_continues_then_rejects_witness :
  events (publishToNpm (Scenario.env Scenario.yes [Scenario.a_dir])
            Scenario.paths false Scenario.world)
  = [Spawn "npm" ["publish"; "--access"; "public"; "--tag"; "exp"]
       Scenario.umbrella_dir;
     TaskRendered "firebase-exp@1.2.3" Completed;
     Spawn "npm" ["publish"; "--access"; "public"; "--tag"; "exp"]
       Scenario.a_dir;
     TaskRendered "@x/a-exp@0.5.0"
       (Failed (ChildProcessError "npm"
                  ["publish"; "--access"; "public"; "--tag"; "exp"]
                  Scenario.a_dir));
     Spawn "npm" ["publish"; "--access"; "public"; "--tag"; "exp"]
       Scenario.b_dir;
     TaskRendered "@x/b-exp@0.5.0" Completed]
  /\ exit_code (publishExpPackages
                  (Scenario.env Scenario.yes [Scenario.a_dir]) false
                  Scenario.world) = 1%Z.
Proof.
  destruct (publish_continues_then_rejects
              (Scenario.env Scenario.yes [Scenario.a_dir]) false)
    as (Hpub & Hfatal & _).
  split.
  - destruct (Hpub Scenario.paths Scenario.world) as (-> & _).
    + vm_compute. reflexivity.
    + vm_compute. reflexivity.
  - apply (Hfatal Scenario.world "@x/a-exp@0.5.0-exp.abcdef"
             (ChildProcessError "npm"
                ["publish"; "--access"; "public"; "--tag"; "exp"]
                Scenario.a_dir)).
    vm_compute. find_event.
Defined.

(** C6: the process ends with exit code 0 or 1; with 1 exactly when an
    error is caught, which is then logged; with 0 when the body
    completes, and also when the operator declines the reset, which
    ends the process on the spot; declining the versions raises an error
    that is caught like any other. *)
Theorem exit_codes (env : Env) (dryRun : bool) (w : World) :
  (exit_code (publishExpPackages env dryRun w) = 0%Z
   \/ exit_code (publishExpPackages env dryRun w) = 1%Z)
  /\ (exit_code (publishExpPackages env dryRun w) = 1%Z
      <-> exists e, completion (publishExpPackages_try env dryRun w) = Throw e)
  /\ (forall e,
        completion (publishExpPackages_try env dryRun w) = Throw e ->
        trace (publishExpPackages env dryRun w)
        = events (publishExpPackages_try env dryRun w) ++ [ConsoleError e])
  /\ (completion (publishExpPackages_try env dryRun w) = Done tt ->
      exit_code (publishExpPackages env dryRun w) = 0%Z)
  /\ (In (Prompt "resetWorkingTree") (trace (publishExpPackages env dryRun w)) ->
      answer env "resetWorkingTree" = false ->
      exit_code (publishExpPackages env dryRun w) = 0%Z
      /\ completion (publishExpPackages_try env dryRun w) = ProcessExit 0
      /\ exists evs, trace (publishExpPackages env dryRun w)
                     = evs ++ [Prompt "resetWorkingTree"])
  /\ (In (Prompt "versionCheck") (trace (publishExpPackages env dryRun w)) ->
      answer env "versionCheck" = false ->
      exit_code (publishExpPackages env dryRun w) = 1%Z
      /\ completion (publishExpPackages_try env dryRun w)
         = Throw (JsError "Version check failed")
      /\ exists evs, forallb quiet evs = true
                     /\ trace (publishExpPackages env dryRun w)
                        = evs ++ [Prompt "versionCheck";
                                  ConsoleError (JsError "Version check failed")]).
Proof.
  split; [apply exit_code_0_or_1|].
  split; [apply exit_code_1_iff|].
  split.
  { intros e He. rewrite publishExpPackages_trace, He. reflexivity. }
  split.
  { intros Hd. rewrite publishExpPackages_exit_code, Hd. reflexivity. }
  split; [apply reset_declined | apply version_check_declined].
Qed.

Lemma exit_codes_witness :
  exit_code (publishExpPackages
               (Scenario.env (Scenario.yes_but "resetWorkingTree") [])
               false Scenario.world) = 0%Z
  /\ exit_code (publishExpPackages
                  (Scenario.env (Scenario.yes_but "versionCheck") [])
                  false Scenario.world) = 1%Z
  /\ exit_code (publishExpPackages (Scenario.env Scenario.yes []) true
                  Scenario.world) = 0%Z.
Proof.
  split; [|split].
  - destruct (exit_codes (Scenario.env (Scenario.yes_but "resetWorkingTree") [])
                false Scenario.world) as (_ & _ & _ & _ & Hreset & _).
    apply Hreset; [vm_compute; find_event | reflexivity].
  - destruct (exit_codes (Scenario.env (Scenario.yes_but "versionCheck") [])
                false Scenario.world) as (_ & _ & _ & _ & _ & Hversion).
    apply Hversion; [vm_compute; find_event | reflexivity].
  - destruct (exit_codes (Scenario.env Scenario.yes []) true Scenario.world)
      as (_ & _ & _ & Hdone & _).
    apply Hdone. vm_compute. reflexivity.
Defined.

(** * Further properties *)

(** ** removeExpInPackageName: when a name is rewritten *)

(** A name is rewritten exactly when it is free of line terminators
    and firebase occurs in it before an occurrence of -exp. *)
Theorem removeExp_rewrites_iff (name : string) :
  removeExpInPackageName name <> name
  <-> all_dot name = true
      /\ exists x y z, name = x +:+ "firebase" +:+ y +:+ "-exp" +:+ z.
Proof.
  split.
  - intros Hne. destruct (removeExp_cases name) as [E|(c1 & c2 & E & _)];
      [contradiction|].
    destruct (regex_exec_some _ _ _ E) as (Hn & (a & b & Hc1) & Hdot & _).
    split; [exact Hdot|]. exists a, b, c2.
    rewrite Hn, Hc1. now rewrite !str_app_assoc.
  - intros (Hdot & x & y & z & ->).
    rewrite !all_dot_app, !andb_true_iff in Hdot.
    destruct Hdot as (Hx & _ & Hy & _ & Hz).
    destruct (regex_exec (x +:+ "firebase" +:+ y +:+ "-exp" +:+ z))
      as [[c1 c2]|] eqn:E.
    + exact (removeExp_changes _ _ _ E).
    + now destruct (regex_exec_complete x y z Hx Hy Hz).
Qed.

(** Stripping undoes the suffixing of a name that contains firebase
    and no line terminator: the last -exp is the one removed, also when
    the name holds others. *)
Theorem removeExp_undoes_suffix (x : string) :
  all_dot x = true -> includes "firebase" x = true ->
  removeExpInPackageName (x +:+ "-exp") = x.
Proof.
  intros Hdot Hfb.
  apply includes_spec in Hfb as (a & b & Hx).
  assert (Ha : all_dot a = true /\ all_dot b = true).
  { rewrite Hx, !all_dot_app, !andb_true_iff in Hdot. tauto. }
  destruct Ha as [Ha Hb].
  pose proof (regex_exec_complete a b EmptyString Ha Hb eq_refl) as Hc.
  assert (Hname : a +:+ "firebase" +:+ b +:+ "-exp" +:+ EmptyString
                  = x +:+ "-exp").
  { rewrite Hx. now rewrite !str_app_assoc. }
  rewrite Hname in Hc.
  unfold removeExpInPackageName.
  destruct (regex_exec (x +:+ "-exp")) as [[c1 c2]|] eqn:E;
    [|contradiction].
  destruct (regex_exec_some _ _ _ E) as (Hn & _ & _ & Hlast).
  assert (Hle : String.length x <= String.length c1).
  { apply (Hlast x EmptyString). reflexivity. }
  assert (Hlen : String.length c1 = String.length x).
  { apply (f_equal String.length) in Hn.
    rewrite !str_length_app in Hn. simpl in Hn. lia. }
  assert (Hn' : x +:+ "-exp" = c1 +:+ "-exp" +:+ c2) by exact Hn.
  destruct (str_app_inv x c1 "-exp" ("-exp" +:+ c2) Hn' (eq_sym Hlen))
    as [<- Hc2].
  destruct c2; [apply str_app_nil_r | discriminate].
Qed.

Lemma removeExp_undoes_suffix_witness :
  removeExpInPackageName ("@firebase/app-exp-types" +:+ "-exp")
  = "@firebase/app-exp-types".
Proof.
  apply removeExp_undoes_suffix; reflexivity.
Defined.

(** ** The dependencies written by the rewriter *)

(** No name is stripped to __proto__ but that name itself. *)
Lemma removeExp_proto d :
  removeExpInPackageName d = "__proto__" <-> d = "__proto__".
Proof.
  split; [|now intros ->].
  destruct (removeExp_cases d) as [E|(c1 & c2 & E & Hout)]; [congruence|].
  destruct (regex_exec_some _ _ _ E) as (_ & (a & b & Hc1) & _).
  rewrite Hout, Hc1. intros H. exfalso.
  apply (includes_false "firebase" "__proto__" eq_refl a (b +:+ c2)).
  rewrite <- H. now rewrite !str_app_assoc.
Qed.

Lemma object_set_keys k v (obj : dict string) k' :
  In k' (dict_keys (object_set k v obj))
  <-> (k <> "__proto__" /\ k' = k) \/ In k' (dict_keys obj).
Proof.
  unfold object_set. destruct (String.eqb_spec k "__proto__") as [->|Hne].
  - split; [now right | intros [[H _]|H]; [now destruct H | exact H]].
  - rewrite dict_keys_set. simpl. split.
    + intros [<-|H]; [left; now split | now right].
    + intros [[_ ->]|H]; [now left | now right].
Qed.

Lemma object_set_NoDup k v (obj : dict string) :
  List.NoDup (dict_keys obj) -> List.NoDup (dict_keys (object_set k v obj)).
Proof.
  unfold object_set. destruct (String.eqb k "__proto__"); [easy|].
  apply dict_keys_set_NoDup.
Qed.

Lemma object_set_other k v (obj : dict string) k' :
  k <> k' -> dict_get k' (object_set k v obj) = dict_get k' obj.
Proof.
  unfold object_set. destruct (String.eqb k "__proto__"); [easy|].
  apply dict_get_set_ne.
Qed.

Lemma object_set_proto k v (obj : dict string) :
  dict_get "__proto__" (object_set k v obj) = dict_get "__proto__" obj.
Proof.
  unfold object_set. destruct (String.eqb_spec k "__proto__"); [easy|].
  now apply dict_get_set_ne.
Qed.

Section DependencyFold.

Variable versions : dict jsval.
Variable f : dict string -> string * string -> dict string.
Hypothesis Hf :
  forall acc kv,
    f acc kv
    = object_set (removeExpInPackageName (fst kv))
        (dependency_value versions (fst kv) (snd kv)) acc.

Lemma deps_fold_keys deps acc k :
  In k (dict_keys (fold_left f deps acc))
  <-> In k (dict_keys acc)
      \/ (k <> "__proto__"
          /\ exists d, In d (dict_keys deps) /\ removeExpInPackageName d = k).
Proof.
  revert acc. induction deps as [|[d r] deps IH]; intros acc; simpl.
  - split; [now left | intros [H|(_ & ? & [] & _)]; exact H].
  - rewrite IH, Hf, object_set_keys. simpl. split.
    + intros [[[Hne ->]|H]|(Hne & d' & Hin & Hk)].
      * right. split; [exact Hne|]. exists d. auto.
      * now left.
      * right. split; [exact Hne|]. exists d'. auto.
    + intros [H|(Hne & d' & [<-|Hin] & Hk)].
      * left. now right.
      * left. left. subst k. now split.
      * right. split; [exact Hne|]. exists d'. auto.
Qed.

Lemma deps_fold_NoDup deps acc :
  List.NoDup (dict_keys acc) ->
  List.NoDup (dict_keys (fold_left f deps acc)).
Proof.
  revert acc. induction deps as [|kv deps IH]; intros acc Hnd; simpl;
    [exact Hnd|].
  apply IH. rewrite Hf. now apply object_set_NoDup.
Qed.

Lemma deps_fold_other deps acc k :
  (forall kv, In kv deps -> removeExpInPackageName (fst kv) <> k) ->
  dict_get k (fold_left f deps acc) = dict_get k acc.
Proof.
  revert acc. induction deps as [|kv deps IH]; intros acc Hne; simpl;
    [reflexivity|].
  rewrite IH by (intros kv' Hin; apply Hne; now right).
  rewrite Hf. apply object_set_other. apply Hne. now left.
Qed.

Lemma deps_fold_proto deps acc :
  dict_get "__proto__" (fold_left f deps acc) = dict_get "__proto__" acc.
Proof.
  revert acc. induction deps as [|kv deps IH]; intros acc; simpl;
    [reflexivity|].
  rewrite IH, Hf. apply object_set_proto.
Qed.

Lemma deps_fold_last l1 d r l2 acc :
  d <> "__proto__" ->
  (forall kv, In kv l2 ->
              removeExpInPackageName (fst kv) <> removeExpInPackageName d) ->
  dict_get (removeExpInPackageName d) (fold_left f (l1 ++ (d, r) :: l2) acc)
  = Some (dependency_value versions d r).
Proof.
  intros Hd Hl2. rewrite fold_left_app. simpl.
  rewrite (deps_fold_other l2 _ _ Hl2), Hf. unfold object_set.
  cbn [fst snd].
  destruct (String.eqb_spec (removeExpInPackageName d) "__proto__") as [E|_].
  - now apply (proj1 (removeExp_proto d)) in E.
  - apply dict_get_set_eq.
Qed.

End DependencyFold.

Lemma rewrite_deps_step versions (acc : dict string) (kv : string * string) :
  (let d := fst kv in
   let dNextVersion := map_get d versions in
   let nameWithoutExp := removeExpInPackageName d in
   if falsy dNextVersion then object_set nameWithoutExp (snd kv) acc
   else object_set nameWithoutExp (template dNextVersion) acc)
  = object_set (removeExpInPackageName (fst kv))
      (dependency_value versions (fst kv) (snd kv)) acc.
Proof.
  unfold dependency_value. cbv zeta.
  now destruct (falsy (map_get (fst kv) versions)).
Qed.

(** The keys of a rewritten dependency object are the stripped names of
    the keys it had other than __proto__, each of them once: two
    dependencies whose names are stripped to the same name end up in
    one entry, and a dependency named __proto__ is dropped, because the
    assignment of a text to that key of a fresh object creates no
    member. *)
Theorem rewrite_deps_keys (versions : dict jsval) (deps : dict string) :
  List.NoDup (dict_keys (rewrite_deps versions deps))
  /\ (forall k,
        In k (dict_keys (rewrite_deps versions deps))
        <-> k <> "__proto__"
            /\ exists d, In d (dict_keys deps)
                         /\ removeExpInPackageName d = k)
  /\ dict_get "__proto__" (rewrite_deps versions deps) = None.
Proof.
  unfold rewrite_deps. split; [|split].
  - apply (deps_fold_NoDup versions _ (rewrite_deps_step versions)).
    constructor.
  - intros k.
    rewrite (deps_fold_keys versions _ (rewrite_deps_step versions)).
    simpl. tauto.
  - now rewrite (deps_fold_proto versions _ (rewrite_deps_step versions)).
Qed.

(** The value of a rewritten dependency other than __proto__: the
    planned version of the package when the version map has a non-empty
    one for its name as declared, the declared range otherwise; when
    several names are stripped to the same name the last one decides. *)
Theorem rewrite_deps_value
    (versions : dict jsval) (l1 l2 : dict string) (d r : string) :
  d <> "__proto__" ->
  (forall kv, In kv l2 ->
              removeExpInPackageName (fst kv) <> removeExpInPackageName d) ->
  dict_get (removeExpInPackageName d)
    (rewrite_deps versions (l1 ++ (d, r) :: l2))
  = Some (dependency_value versions d r)
  /\ (dict_get d versions = None -> dependency_value versions d r = r)
  /\ (forall c v, dict_get d versions = Some (Str (String c v)) ->
                  dependency_value versions d r = String c v)
  /\ (dict_get d versions = Some (Str EmptyString) ->
      dependency_value versions d r = r).
Proof.
  intros Hd Hl2. split.
  - unfold rewrite_deps.
    now apply (deps_fold_last versions _ (rewrite_deps_step versions)).
  - unfold dependency_value, map_get.
    split; [|split]; [intros -> | intros c v -> | intros ->]; reflexivity.
Qed.

Lemma rewrite_deps_value_witness :
  dict_get "@firebase/app"
    (rewrite_deps [("@firebase/app-exp", Str "0.0.900-exp.abcdef")]
       ([("@firebase/app", "0.6.1")]
        ++ ("@firebase/app-exp", "0.0.900") :: [("tslib", "^1.11.1")]))
  = Some "0.0.900-exp.abcdef"
  /\ dict_get "tslib"
       (rewrite_deps [("@firebase/app-exp", Str "0.0.900-exp.abcdef")]
          ([("__proto__", "1.0.0"); ("@firebase/app-exp", "0.0.900")]
           ++ ("tslib", "^1.11.1") :: []))
     = Some "^1.11.1".
Proof.
  split.
  - apply (rewrite_deps_value
             [("@firebase/app-exp", Str "0.0.900-exp.abcdef")]
             [("@firebase/app", "0.6.1")] [("tslib", "^1.11.1")]
             "@firebase/app-exp" "0.0.900").
    + discriminate.
    + intros kv [<-|[]]. vm_compute. discriminate.
  - apply (rewrite_deps_value
             [("@firebase/app-exp", Str "0.0.900-exp.abcdef")]
             [("__proto__", "1.0.0"); ("@firebase/app-exp", "0.0.900")]
             [] "tslib" "^1.11.1").
    + discriminate.
    + intros kv [].
Defined.

(** A dependency object with the key __proto__: the key is not carried
    over, the other dependencies are. *)
Lemma rewrite_deps_proto_example :
  rewrite_deps [] [("__proto__", "1.0.0"); ("tslib", "^1.11.1")]
  = [("tslib", "^1.11.1")].
Proof. reflexivity. Qed.

(** ** The rewriter, package by package *)

(** With pairwise different package directories, all readable, every
    package is rewritten from the descriptor found at the start, whatever
    the other packages are, and no other file of the tree changes. *)
Theorem rewriter_package_by_package
    (paths : list string) (versions : dict jsval) (o : RewriteOptions)
    (w : World) :
  List.NoDup paths ->
  forallb (readable (files w)) paths = true ->
  (forall path p,
      In path paths -> descriptor_at (files w) path = Some p ->
      descriptor_at
        (files (world_after (updatePackageJsons paths versions o w))) path
      = Some (rewrite_descriptor versions o p))
  /\ (forall q,
        ~ In q paths ->
        files (world_after (updatePackageJsons paths versions o w))
          !! (q +:+ "/package.json")
        = files w !! (q +:+ "/package.json")).
Proof.
  intros Hnd Hr. split.
  - intros path p Hin Hp. unfold descriptor_at at 1.
    rewrite (updatePackageJsons_written versions o paths w path p Hnd Hr Hin Hp).
    apply parse_stringify.
  - destruct (updatePackageJsons_completes versions o paths w Hr)
      as (w' & -> & Hother & _).
    exact Hother.
Qed.

Lemma rewriter_package_by_package_witness :
  descriptor_at
    (files (world_after
              (updatePackageJsons Scenario.paths
                 [("firebase-exp", Str "1.2.4")] reset_mode Scenario.world)))
    Scenario.umbrella_dir
  = Some (with_version (Scenario.descriptor "firebase-exp" "1.2.3" None)
            (Str "1.2.4")).
Proof.
  destruct (rewriter_package_by_package Scenario.paths
              [("firebase-exp", Str "1.2.4")] reset_mode Scenario.world)
    as (Hw & _).
  - repeat (constructor; [simpl; intuition discriminate|]). constructor.
  - vm_compute. reflexivity.
  - rewrite (Hw Scenario.umbrella_dir
               (Scenario.descriptor "firebase-exp" "1.2.3" None)).
    + reflexivity.
    + left. reflexivity.
    + vm_compute. reflexivity.
Defined.

Lemma readable_insert fs path p q :
  readable (<[path +:+ "/package.json" := stringify p]> fs) q
  = if decide (path = q) then true else readable fs q.
Proof.
  unfold readable. rewrite descriptor_at_insert.
  now destruct (decide (path = q)).
Qed.

(** The rewriter writes file by file and stops at the first package it
    cannot read: the packages before it have been rewritten, nothing
    after it is touched, and the error names the package. *)
Theorem rewriter_stops_at_unreadable
    (l1 l2 : list string) (path : string) (versions : dict jsval)
    (o : RewriteOptions) (w : World) :
  forallb (readable (files w)) l1 = true ->
  ~ In path l1 ->
  readable (files w) path = false ->
  (completion (updatePackageJsons (l1 ++ path :: l2) versions o w)
   = Throw (NotFound path)
   \/ completion (updatePackageJsons (l1 ++ path :: l2) versions o w)
      = Throw (Malformed path))
  /\ events (updatePackageJsons (l1 ++ path :: l2) versions o w)
     = map (fun p => WriteFile (p +:+ "/package.json")) l1
  /\ world_after (updatePackageJsons (l1 ++ path :: l2) versions o w)
     = world_after (updatePackageJsons l1 versions o w).
Proof.
  revert w. induction l1 as [|q rest IH]; intros w Hr Hnotin Hpath.
  - cbn [app]. rewrite updatePackageJsons_cons. unfold readable in Hpath.
    destruct (descriptor_at (files w) path); [discriminate|].
    split; [|now split].
    destruct (files w !! (path +:+ "/package.json")); [now right | now left].
  - simpl in Hr. apply andb_true_iff in Hr as [Hq Hrest].
    cbn [app]. rewrite !updatePackageJsons_cons. unfold readable in Hq.
    destruct (descriptor_at (files w) q) as [pq|] eqn:Hpq; [|discriminate].
    cbv zeta.
    set (w1 := {| files := <[q +:+ "/package.json" :=
                  stringify (rewrite_descriptor versions o pq)]> (files w) |}).
    assert (Hrest1 : forallb (readable (files w1)) rest = true).
    { apply forallb_forall. intros x Hx. unfold w1. simpl.
      rewrite readable_insert. destruct (decide (q = x)); [reflexivity|].
      now apply (proj1 (forallb_forall _ _) Hrest). }
    assert (Hpath1 : readable (files w1) path = false).
    { unfold w1. simpl. rewrite readable_insert.
      destruct (decide (q = path)) as [->|]; [|exact Hpath].
      exfalso. apply Hnotin. now left. }
    assert (Hnotin1 : ~ In path rest) by (intros H; apply Hnotin; now right).
    destruct (IH w1 Hrest1 Hnotin1 Hpath1) as (Hc & He & Hw).
    destruct (updatePackageJsons (rest ++ path :: l2) versions o w1)
      as [[c w2] ev].
    destruct (updatePackageJsons rest versions o w1) as [[c' w2'] ev'].
    unfold completion, events, world_after in *. simpl in *.
    split; [exact Hc|]. split; [now rewrite He | exact Hw].
Qed.

Lemma rewriter_stops_at_unreadable_witness :
  events (updatePackageJsons
            ([Scenario.umbrella_dir] ++ "/repo/packages-exp/missing"
             :: [Scenario.a_dir])
            [("firebase-exp", Str "1.2.4")] publish_mode Scenario.world)
  = [WriteFile (Scenario.umbrella_dir +:+ "/package.json")]
  /\ (completion (updatePackageJsons
                    ([Scenario.umbrella_dir] ++ "/repo/packages-exp/missing"
                     :: [Scenario.a_dir])
                    [("firebase-exp", Str "1.2.4")] publish_mode
                    Scenario.world)
      = Throw (NotFound "/repo/packages-exp/missing")).
Proof.
  destruct (rewriter_stops_at_unreadable [Scenario.umbrella_dir]
              [Scenario.a_dir] "/repo/packages-exp/missing"
              [("firebase-exp", Str "1.2.4")] publish_mode Scenario.world)
    as (Hc & He & _).
  - vm_compute. reflexivity.
  - intros [H|[]]. discriminate H.
  - vm_compute. reflexivity.
  - split; [exact He|]. destruct Hc as [Hc|Hc]; [exact Hc|].
    vm_compute in Hc. discriminate Hc.
Defined.

(** ** getCurrentSha: the revision without the white space around it *)

Lemma trim_start_split s :
  exists l, s = l +:+ trim_start s /\ Semver.all_chars is_space l = true.
Proof.
  induction s as [|c s (l & Hl & Hsp)]; simpl.
  - now exists EmptyString.
  - destruct (is_space c) eqn:Hc.
    + exists (String c l). simpl. now rewrite Hc, <- Hl.
    + now exists EmptyString.
Qed.

Lemma trim_start_first s : not_space (first_char (trim_start s)) = true.
Proof.
  induction s as [|c s IH]; simpl; [reflexivity|].
  destruct (is_space c) eqn:Hc; [exact IH | simpl; now rewrite Hc].
Qed.

Lemma trim_end_split s :
  exists r, s = trim_end s +:+ r /\ Semver.all_chars is_space r = true.
Proof.
  induction s as [|c s (r & Hr & Hsp)]; simpl.
  - now exists EmptyString.
  - destruct (trim_end s) as [|d t] eqn:E.
    + simpl in Hr. subst r. destruct (is_space c) eqn:Hc.
      * exists (String c s). simpl. now rewrite Hc.
      * now exists s.
    + exists r. simpl. split; [now rewrite Hr at 1 | exact Hsp].
Qed.

Lemma trim_end_last s : not_space (last_char (trim_end s)) = true.
Proof.
  induction s as [|c s IH]; simpl; [reflexivity|].
  destruct (trim_end s) as [|d t] eqn:E.
  - destruct (is_space c) eqn:Hc; simpl; [reflexivity | now rewrite Hc].
  - exact IH.
Qed.

Lemma trim_end_first s :
  not_space (first_char s) = true ->
  not_space (first_char (trim_end s)) = true.
Proof.
  destruct s as [|c s]; simpl; [reflexivity|]. intros Hc.
  destruct (trim_end s); [|exact Hc].
  apply negb_true_iff in Hc. rewrite Hc. simpl. now rewrite Hc.
Qed.

(** The revision used in the planned versions is the output of git
    without the white space around it: it neither starts nor ends with
    white space, and only white space has been removed. When git fails
    the error is passed on. *)
Theorem getCurrentSha_trimmed (env : Env) (w : World) :
  (forall out,
      git_revparse env ["--short"; "HEAD"] = Some out ->
      completion (getCurrentSha env w) = Done (trim out)
      /\ not_space (first_char (trim out)) = true
      /\ not_space (last_char (trim out)) = true
      /\ exists l r, out = l +:+ trim out +:+ r
                     /\ Semver.all_chars is_space l = true
                     /\ Semver.all_chars is_space r = true)
  /\ (git_revparse env ["--short"; "HEAD"] = None ->
      exists e, completion (getCurrentSha env w) = Throw e)
  /\ world_after (getCurrentSha env w) = w.
Proof.
  split; [|split].
  - intros out Hout. rewrite (getCurrentSha_run env w out Hout).
    split; [reflexivity|]. unfold trim.
    split; [apply trim_end_first, trim_start_first|].
    split; [apply trim_end_last|].
    destruct (trim_start_split out) as (l & Hl & Hsl).
    destruct (trim_end_split (trim_start out)) as (r & Hr & Hsr).
    exists l, r. split; [|now split]. now rewrite <- Hr.
  - intros Hnone.
    unfold getCurrentSha, git_revparse_cmd, bind, emit, ret, throw.
    rewrite Hnone. now eexists.
  - unfold getCurrentSha, git_revparse_cmd, bind, emit, ret, throw.
    now destruct (git_revparse env ["--short"; "HEAD"]).
Qed.

Lemma getCurrentSha_trimmed_witness :
  completion (getCurrentSha (Scenario.env Scenario.yes []) Scenario.world)
  = Done "abcdef".
Proof.
  destruct (getCurrentSha_trimmed (Scenario.env Scenario.yes [])
              Scenario.world) as (H & _).
  destruct (H ("abcdef" +:+ Scenario.newline) eq_refl) as (-> & _).
  reflexivity.
Defined.

(** ** buildPackages: the stages and their order *)

Lemma forallb_prefix {A : Type} (P : A -> bool) (l k : list A) :
  forallb P (l ++ k) = true -> forallb P l = true.
Proof. rewrite forallb_app. intros H. now apply andb_true_iff in H. Qed.

Lemma build_events_build_only env :
  forallb build_only (build_events env) = true.
Proof.
  unfold build_events. now destruct (installations_dist_exists env).
Qed.

Ltac case_stages env :=
  repeat match goal with
         | |- context [spawn_ok env ?p ?a ?c] =>
             let E := fresh "Hstage" in
             destruct (spawn_ok env p a c) eqn:E
         | |- context [remove_dir_ok env] =>
             let E := fresh "Hstage" in
             destruct (remove_dir_ok env) eqn:E
         end.

Ltac stages_known :=
  repeat match goal with
         | H : spawn_ok _ _ _ _ = _ |- _ => rewrite H
         | H : remove_dir_ok _ = _ |- _ => rewrite H
         end.

Lemma buildPackages_run env w :
  world_after (buildPackages env w) = w
  /\ (exists rest, build_events env = events (buildPackages env w) ++ rest)
  /\ (completion (buildPackages env w) = Done tt
      <-> forallb (spawned_ok env) (build_events env) = true).
Proof.
  unfold buildPackages, build_events, rmdirSync, spawn, bind, emit, ret,
    throw, world_after, completion, events.
  cbv zeta. destruct (installations_dist_exists env);
    cbn [forallb spawned_ok app fst snd];
    case_stages env; cbn [fst snd app andb];
    (split; [reflexivity|]);
    (split; [eexists; cbn [app]; reflexivity|]);
    split; intros H; first [reflexivity | discriminate H].
Qed.

(** The build is a fixed series of stages (the builds by yarn and, when
    the directory exists, its removal) that stops at the first stage
    that fails: the stages run are a beginning of the series, every
    stage before the last one run has succeeded, the build completes
    exactly when every stage succeeds, and the error of a failed build
    is that of the last stage run, which has failed. The working tree of
    descriptors is not touched. *)
Theorem buildPackages_fail_fast (env : Env) (w : World) :
  world_after (buildPackages env w) = w
  /\ (exists rest, build_events env = events (buildPackages env w) ++ rest)
  /\ (completion (buildPackages env w) = Done tt
      <-> forallb (spawned_ok env) (build_events env) = true)
  /\ (completion (buildPackages env w) = Done tt ->
      events (buildPackages env w) = build_events env)
  /\ (forall e,
        completion (buildPackages env w) = Throw e ->
        exists stage evs,
          events (buildPackages env w) = evs ++ [stage]
          /\ forallb (spawned_ok env) evs = true
          /\ spawned_ok env stage = false
          /\ e = stage_error stage)
  /\ (forall code, completion (buildPackages env w) <> ProcessExit code).
Proof.
  unfold buildPackages, build_events, rmdirSync, spawn, bind, emit, ret,
    throw, world_after, completion, events.
  cbv zeta. destruct (installations_dist_exists env);
    cbn [forallb spawned_ok app fst snd];
    case_stages env; cbn [fst snd app andb];
    (split; [reflexivity|]);
    (split; [eexists; cbn [app]; reflexivity|]);
    (split; [split; intros H; first [reflexivity | discriminate H]|]);
    (split; [intros H; first [reflexivity | discriminate H]|]);
    (split; [|discriminate]);
    intros e He; try discriminate He; injection He as <-;
    eexists; eexists.
  all: (split;
        [ first [ exact (eq_refl : _ = [] ++ [_])
                | exact (eq_refl : _ = [_] ++ [_])
                | exact (eq_refl : _ = [_; _] ++ [_])
                | exact (eq_refl : _ = [_; _; _] ++ [_])
                | exact (eq_refl : _ = [_; _; _; _] ++ [_])
                | exact (eq_refl : _ = [_; _; _; _; _] ++ [_]) ] |]);
    cbn [forallb spawned_ok stage_error]; stages_known;
    repeat split.
Qed.

(** When a stage of the build fails, the workflow ends with exit code
    1 and has done nothing but prepare and build: no descriptor is
    written, nothing is asked and nothing is published. *)
Theorem build_failure_aborts (env : Env) (dryRun : bool) (w : World) :
  forallb (spawned_ok env) (build_events env) = false ->
  exit_code (publishExpPackages env dryRun w) = 1%Z
  /\ forallb build_only (trace (publishExpPackages env dryRun w)) = true.
Proof.
  intros Hfail.
  rewrite publishExpPackages_exit_code, publishExpPackages_trace.
  unfold publishExpPackages_try.
  destruct (prepare_firestore env (files w)) as [fs|] eqn:Hp.
  - assert (E : prepareFirestoreForRelease env w
                = (Done tt, {| files := fs |}, [PrepareFirestore])).
    { unfold prepareFirestoreForRelease. now rewrite Hp. }
    step_done E.
    destruct (buildPackages_run env {| files := fs |})
      as (_ & (rest & Hpre) & Hiff).
    destruct (quiet_build env {| files := fs |}) as [_ Hne].
    destruct (buildPackages env {| files := fs |})
      as [[[[]|e|code] w2] ev2] eqn:Eb;
      unfold completion, events in Hiff, Hpre, Hne;
      cbn [fst snd] in Hiff, Hpre, Hne.
    + rewrite (proj1 Hiff eq_refl) in Hfail. discriminate Hfail.
    + step_throw Eb. split; [reflexivity|].
      pose proof (build_events_build_only env) as Hall.
      rewrite Hpre in Hall. apply forallb_prefix in Hall.
      simpl. now rewrite forallb_app, Hall.
    + now destruct (Hne code).
  - assert (E : prepareFirestoreForRelease env w
                = (Throw (ExternalFailure "prepare"), w, [PrepareFirestore])).
    { unfold prepareFirestoreForRelease. now rewrite Hp. }
    step_throw E. now split.
Qed.

Lemma build_failure_aborts_witness :
  exit_code
    (publishExpPackages
       {| projectRoot := "/repo";
          prepare_firestore := fun fs => Some fs;
          workspace_packages := fun _ => Some Scenario.paths;
          spawn_ok := fun _ args _ =>
            negb (existsb (String.eqb "prebuild") args);
          exec_stdout := fun _ => None;
          installations_dist_exists := false;
          remove_dir_ok := true;
          committed := Scenario.tree;
          git_checkout_ok := true;
          git_revparse := fun _ => Some "abcdef";
          answer := Scenario.yes |} false Scenario.world) = 1%Z.
Proof.
  apply build_failure_aborts. vm_compute. reflexivity.
Defined.

(** ** publishToNpm: every descriptor is read before anything is
    published *)

Lemma publish_tasks_first_unreadable env dryRun paths w :
  forallb (readable (files w)) paths = false ->
  exists path e,
    In path paths /\ readable (files w) path = false
    /\ publish_tasks env paths dryRun w = (Throw e, w, [])
    /\ (e = NotFound path \/ e = Malformed path).
Proof.
  induction paths as [|pp rest IH]; intros Hr; [discriminate|].
  simpl in Hr. cbn [publish_tasks]. unfold bind at 1.
  rewrite readPackageJson_descriptor.
  destruct (readable (files w) pp) eqn:Hpp.
  - unfold readable in Hpp.
    destruct (descriptor_at (files w) pp) as [p|] eqn:Hp; [|discriminate].
    simpl in Hr. destruct (IH Hr) as (path & e & Hin & Hpath & E & He).
    exists path, e. split; [now right|]. split; [exact Hpath|].
    split; [|exact He]. unfold bind. now rewrite E.
  - pose proof Hpp as Hpp'. unfold readable in Hpp'.
    destruct (descriptor_at (files w) pp) eqn:Hd; [discriminate|].
    eexists pp, _. split; [now left|].
    split; [exact Hpp|].
    split; [reflexivity|].
    destruct (files w !! (pp +:+ "/package.json")); [now right | now left].
Qed.

(** When the descriptor of one package of the list cannot be read,
    [publishToNpm] fails with the error of such a package before any
    publication is started: no package is published at all. *)
Theorem publishToNpm_needs_every_descriptor
    (env : Env) (dryRun : bool) (paths : list string) (w : World) :
  forallb (readable (files w)) paths = false ->
  events (publishToNpm env paths dryRun w) = []
  /\ world_after (publishToNpm env paths dryRun w) = w
  /\ exists path,
       In path paths /\ readable (files w) path = false
       /\ (completion (publishToNpm env paths dryRun w)
           = Throw (NotFound path)
           \/ completion (publishToNpm env paths dryRun w)
              = Throw (Malformed path)).
Proof.
  intros Hr.
  destruct (publish_tasks_first_unreadable env dryRun paths w Hr)
    as (path & e & Hin & Hpath & E & He).
  unfold publishToNpm, bind. rewrite E.
  split; [reflexivity|]. split; [reflexivity|].
  exists path. split; [exact Hin|]. split; [exact Hpath|].
  unfold completion. simpl. destruct He as [-> | ->]; [now left | now right].
Qed.

Lemma publishToNpm_needs_every_descriptor_witness :
  events (publishToNpm (Scenario.env Scenario.yes [])
            [Scenario.umbrella_dir; "/repo/packages-exp/missing"] false
            Scenario.world) = [].
Proof.
  apply (publishToNpm_needs_every_descriptor (Scenario.env Scenario.yes [])
           false [Scenario.umbrella_dir; "/repo/packages-exp/missing"]
           Scenario.world).
  vm_compute. reflexivity.
Defined.

(** ** updatePackageNamesAndVersions: planning comes first *)

Lemma getCurrentSha_world env w :
  world_after (getCurrentSha env w) = w
  /\ forallb (fun e => negb (is_write e)) (events (getCurrentSha env w)) = true
  /\ forall code, completion (getCurrentSha env w) <> ProcessExit code.
Proof.
  unfold getCurrentSha, git_revparse_cmd, bind, emit, ret, throw.
  destruct (git_revparse env ["--short"; "HEAD"]);
    (split; [reflexivity|]); (split; [reflexivity | discriminate]).
Qed.

Lemma plan_versions_cons env path rest acc w :
  plan_versions env (path :: rest) acc w
  = match descriptor_at (files w) path with
    | Some p =>
        if String.eqb (name p) FIREBASE_UMBRELLA_PACKAGE_NAME
        then plan_versions env rest
               (dict_set (name p) (Semver.inc (version p)) acc) w
        else
          match getCurrentSha env w with
          | (Done sha, w1, ev1) =>
              match plan_versions env rest
                      (dict_set (name p)
                         (Str (template (version p) +:+ "-exp." +:+ sha)) acc)
                      w1 with
              | (c, w2, ev2) => (c, w2, ev1 ++ ev2)
              end
          | (Throw e, w1, ev1) => (Throw e, w1, ev1)
          | (ProcessExit code, w1, ev1) => (ProcessExit code, w1, ev1)
          end
    | None =>
        (Throw (match files w !! (path +:+ "/package.json") with
                | Some _ => Malformed path
                | None => NotFound path
                end), w, [])
    end.
Proof.
  cbn [plan_versions]. unfold bind at 1. rewrite readPackageJson_descriptor.
  destruct (descriptor_at (files w) path) as [p|]; [|reflexivity].
  destruct (String.eqb (name p) FIREBASE_UMBRELLA_PACKAGE_NAME).
  - now destruct (plan_versions env rest _ w) as [[c w2] ev2].
  - unfold bind.
    destruct (getCurrentSha env w) as [[[sha|e|code] w1] ev1];
      [|reflexivity|reflexivity].
    now destruct (plan_versions env rest _ w1) as [[c w2] ev2].
Qed.

(** Planning only reads: the tree stays as it is, nothing is written,
    and a plan is obtained only if every package was readable. *)
Lemma plan_versions_reads env paths acc w :
  world_after (plan_versions env paths acc w) = w
  /\ forallb (fun e => negb (is_write e))
       (events (plan_versions env paths acc w)) = true
  /\ (forall code, completion (plan_versions env paths acc w)
                   <> ProcessExit code)
  /\ (forall v, completion (plan_versions env paths acc w) = Done v ->
                forallb (readable (files w)) paths = true).
Proof.
  revert acc. induction paths as [|path rest IH]; intros acc.
  - split; [reflexivity|]. split; [reflexivity|].
    split; [discriminate | reflexivity].
  - rewrite plan_versions_cons. cbn [forallb]. unfold readable at 1.
    destruct (descriptor_at (files w) path) as [p|].
    2:{ split; [reflexivity|]. split; [reflexivity|].
        split; discriminate. }
    destruct (String.eqb (name p) FIREBASE_UMBRELLA_PACKAGE_NAME).
    + apply IH.
    + destruct (getCurrentSha_world env w) as (Hw0 & He0 & Hx0).
      destruct (getCurrentSha env w) as [[[sha|e|code] w1] ev1];
        unfold world_after, events, completion in Hw0, He0, Hx0;
        cbn [fst snd] in Hw0, He0, Hx0; subst w1.
      * destruct (IH (dict_set (name p)
                        (Str (template (version p) +:+ "-exp." +:+ sha)) acc))
          as (Hw & He & Hx & Hd).
        destruct (plan_versions env rest _ w) as [[c w2] ev2].
        unfold world_after, events, completion in *. cbn [fst snd] in *.
        split; [exact Hw|]. split; [now rewrite forallb_app, He0, He|].
        now split.
      * split; [reflexivity|]. split; [exact He0|]. split; discriminate.
      * now destruct (Hx0 code).
Qed.

(** A plan is obtained only if the revision could be resolved for
    every package other than the umbrella. *)
Lemma plan_versions_revision env paths acc w v path p :
  completion (plan_versions env paths acc w) = Done v ->
  In path paths -> descriptor_at (files w) path = Some p ->
  name p <> FIREBASE_UMBRELLA_PACKAGE_NAME ->
  git_revparse env ["--short"; "HEAD"] <> None.
Proof.
  revert acc. induction paths as [|q rest IH]; intros acc Hdone Hin Hp Hn;
    [contradiction|].
  rewrite plan_versions_cons in Hdone.
  destruct (descriptor_at (files w) q) as [pq|] eqn:Hq; [|discriminate Hdone].
  destruct (String.eqb_spec (name pq) FIREBASE_UMBRELLA_PACKAGE_NAME)
    as [Hu|Hu].
  - destruct Hin as [->|Hin]; [congruence|]. now apply (IH _ Hdone).
  - intros Hgit.
    unfold getCurrentSha, git_revparse_cmd, bind, emit, ret, throw in Hdone.
    rewrite Hgit in Hdone. discriminate Hdone.
Qed.

(** Every version is planned before the first descriptor is written:
    when a package of the list cannot be read, or when the revision
    cannot be resolved for a package other than the umbrella, the step
    fails and nothing has been written. *)
Theorem planner_fails_before_first_write
    (env : Env) (paths : list string) (w : World) :
  forallb (readable (files w)) paths = false
  \/ (git_revparse env ["--short"; "HEAD"] = None
      /\ exists path p,
           In path paths /\ descriptor_at (files w) path = Some p
           /\ name p <> FIREBASE_UMBRELLA_PACKAGE_NAME) ->
  (exists e, completion (updatePackageNamesAndVersions env paths w) = Throw e)
  /\ world_after (updatePackageNamesAndVersions env paths w) = w
  /\ forallb (fun ev => negb (is_write ev))
       (events (updatePackageNamesAndVersions env paths w)) = true.
Proof.
  intros Hcause. unfold updatePackageNamesAndVersions.
  destruct (plan_versions_reads env paths [] w) as (Hw & He & Hx & Hd).
  pose proof (plan_versions_revision env paths [] w) as Hg.
  destruct (plan_versions env paths [] w) as [[[v|e'|code] w1] ev1] eqn:E;
    unfold world_after, events, completion in Hw, He, Hx, Hd, Hg;
    cbn [fst snd] in Hw, He, Hx, Hd, Hg; subst w1.
  - exfalso. destruct Hcause as [Hr|(Hgit & path & p & Hin & Hp & Hn)].
    + rewrite (Hd v eq_refl) in Hr. discriminate Hr.
    + exact (Hg v path p eq_refl Hin Hp Hn Hgit).
  - unfold bind. rewrite E. split; [now exists e'|]. now split.
  - now destruct (Hx code).
Qed.

Lemma planner_fails_before_first_write_witness :
  world_after
    (updatePackageNamesAndVersions (Scenario.env Scenario.yes [])
       [Scenario.umbrella_dir; Scenario.a_dir; "/repo/packages-exp/missing"]
       Scenario.world)
  = Scenario.world
  /\ world_after
       (updatePackageNamesAndVersions
          {| projectRoot := "/repo";
             prepare_firestore := fun fs => Some fs;
             workspace_packages := fun _ => Some Scenario.paths;
             spawn_ok := fun _ _ _ => true;
             exec_stdout := fun _ => None;
             installations_dist_exists := false;
             remove_dir_ok := true;
             committed := Scenario.tree;
             git_checkout_ok := true;
             git_revparse := fun _ => None;
             answer := Scenario.yes |}
          Scenario.paths Scenario.world)
     = Scenario.world.
Proof.
  split.
  - apply (planner_fails_before_first_write (Scenario.env Scenario.yes [])
             [Scenario.umbrella_dir; Scenario.a_dir;
              "/repo/packages-exp/missing"]
             Scenario.world).
    left. vm_compute. reflexivity.
  - apply planner_fails_before_first_write.
    right. split; [reflexivity|].
    exists Scenario.a_dir,
      (Scenario.descriptor "@x/a-exp" "0.5.0"
         (Some [("@x/b-exp", "^0.5.0")])).
    split; [right; left; reflexivity|].
    split; [vm_compute; reflexivity | discriminate].
Defined.

(** ** The plan and the descriptors written from it *)

Lemma updatePackageNamesAndVersions_world env out paths w :
  git_revparse env ["--short"; "HEAD"] = Some out ->
  forallb (readable (files w)) paths = true ->
  world_after (updatePackageNamesAndVersions env paths w)
  = world_after
      (updatePackageJsons paths
         (fold_left (plan_step (trim out) (files w)) paths [])
         {| removeExpInName := true; updateVersions := true;
            makePublic := true |} w).
Proof.
  intros Hsha Hr. unfold updatePackageNamesAndVersions.
  destruct (plan_versions_run env out Hsha paths [] w Hr) as (ev & E).
  unfold bind at 1. rewrite E.
  destruct (updatePackageJsons_completes
              (fold_left (plan_step (trim out) (files w)) paths [])
              {| removeExpInName := true; updateVersions := true;
                 makePublic := true |} paths w Hr) as (w' & E' & _).
  unfold bind. rewrite E'. reflexivity.
Qed.

(** The versions returned by the planning step, which are the ones
    submitted to the operator, are the ones written: every descriptor
    has the version that the map holds for its name, its name stripped,
    the private flag cleared and its devDependencies as before. *)
Theorem plan_matches_descriptors
    (env : Env) (paths : list string) (w : World) (out : string) :
  git_revparse env ["--short"; "HEAD"] = Some out ->
  List.NoDup paths ->
  forallb (readable (files w)) paths = true ->
  exists versions,
    completion (updatePackageNamesAndVersions env paths w) = Done versions
    /\ forall path p,
         In path paths -> descriptor_at (files w) path = Some p ->
         exists p',
           descriptor_at
             (files (world_after (updatePackageNamesAndVersions env paths w)))
             path = Some p'
           /\ version p' = map_get (name p) versions
           /\ name p' = removeExpInPackageName (name p)
           /\ private p' = Some false
           /\ devDependencies p' = devDependencies p.
Proof.
  intros Hsha Hnd Hr. eexists.
  split; [apply (updatePackageNamesAndVersions_run env out Hsha _ _ Hr)|].
  intros path p Hin Hp.
  rewrite (updatePackageNamesAndVersions_world env out paths w Hsha Hr).
  eexists. split.
  - unfold descriptor_at at 1.
    rewrite (updatePackageJsons_written _ _ paths w path p Hnd Hr Hin Hp).
    apply parse_stringify.
  - now repeat split.
Qed.

Lemma plan_matches_descriptors_witness :
  exists versions,
    completion
      (updatePackageNamesAndVersions (Scenario.env Scenario.yes [])
         Scenario.paths Scenario.world) = Done versions
    /\ exists p',
         descriptor_at
           (files (world_after
                     (updatePackageNamesAndVersions
                        (Scenario.env Scenario.yes []) Scenario.paths
                        Scenario.world))) Scenario.b_dir = Some p'
         /\ version p' = map_get "@x/b-exp" versions.
Proof.
  destruct (plan_matches_descriptors (Scenario.env Scenario.yes [])
              Scenario.paths Scenario.world ("abcdef" +:+ Scenario.newline))
    as (versions & Hc & Hall).
  - reflexivity.
  - repeat (constructor; [simpl; intuition discriminate|]). constructor.
  - vm_compute. reflexivity.
  - exists versions. split; [exact Hc|].
    destruct (Hall Scenario.b_dir (Scenario.descriptor "@x/b-exp" "0.5.0" None))
      as (p' & Hp' & Hv & _).
    + right. right. left. reflexivity.
    + vm_compute. reflexivity.
    + exists p'. now split.
Defined.

Lemma stringify_version_null p :
  version p = Null -> json_member "version" (stringify p) = Some JNull.
Proof.
  destruct p as [n v pr d pd dd]. simpl. intros ->.
  destruct pr, d, pd, dd; reflexivity.
Qed.

(** An umbrella version that the semver package refuses does not stop
    the planning step: the version planned for the umbrella is [null]
    and its descriptor is written with the version [null]. *)
Theorem planner_accepts_refused_version
    (env : Env) (paths : list string) (w : World) (out : string)
    (path : string) (p : PackageJson) :
  git_revparse env ["--short"; "HEAD"] = Some out ->
  List.NoDup paths ->
  forallb (readable (files w)) paths = true ->
  In path paths ->
  descriptor_at (files w) path = Some p ->
  name p = FIREBASE_UMBRELLA_PACKAGE_NAME ->
  Semver.inc (version p) = Null ->
  (forall path' p', In path' paths ->
                    descriptor_at (files w) path' = Some p' ->
                    name p' = FIREBASE_UMBRELLA_PACKAGE_NAME ->
                    version p' = version p) ->
  exists versions j,
    completion (updatePackageNamesAndVersions env paths w) = Done versions
    /\ map_get FIREBASE_UMBRELLA_PACKAGE_NAME versions = Null
    /\ files (world_after (updatePackageNamesAndVersions env paths w))
         !! (path +:+ "/package.json") = Some j
    /\ json_member "version" j = Some JNull.
Proof.
  intros Hsha Hnd Hr Hin Hp Hn Hinc Hsame.
  assert (Hget : map_get FIREBASE_UMBRELLA_PACKAGE_NAME
                   (fold_left (plan_step (trim out) (files w)) paths [])
                 = Null).
  { unfold map_get.
    rewrite (plan_fold_get (trim out) (files w) paths []
               FIREBASE_UMBRELLA_PACKAGE_NAME Null); [reflexivity | |].
    - exact (named_exists _ _ _ _ _ Hin Hp Hn).
    - intros path' p' Hin' Hp' Hn'. unfold next_version.
      now rewrite Hn', String.eqb_refl, (Hsame _ _ Hin' Hp' Hn'). }
  eexists. eexists.
  split; [apply (updatePackageNamesAndVersions_run env out Hsha _ _ Hr)|].
  split; [exact Hget|].
  rewrite (updatePackageNamesAndVersions_world env out paths w Hsha Hr).
  split; [apply (updatePackageJsons_written _ _ paths w path p Hnd Hr Hin Hp)|].
  apply stringify_version_null.
  rewrite rewrite_descriptor_version by reflexivity. now rewrite Hn.
Qed.

Lemma planner_accepts_refused_version_witness :
  exists versions,
    completion
      (updatePackageNamesAndVersions (Scenario.env Scenario.yes [])
         ["/repo/packages-exp/odd"]
         {| files :=
              <["/repo/packages-exp/odd/package.json" :=
                  stringify (Scenario.descriptor "firebase-exp" "1.2" None)]>
                Scenario.tree |}) = Done versions
    /\ map_get "firebase-exp" versions = Null.
Proof.
  destruct (planner_accepts_refused_version (Scenario.env Scenario.yes [])
              ["/repo/packages-exp/odd"]
              {| files :=
                   <["/repo/packages-exp/odd/package.json" :=
                       stringify
                         (Scenario.descriptor "firebase-exp" "1.2" None)]>
                     Scenario.tree |}
              ("abcdef" +:+ Scenario.newline)
              "/repo/packages-exp/odd"
              (Scenario.descriptor "firebase-exp" "1.2" None))
    as (versions & j & Hc & Hget & _).
  - reflexivity.
  - repeat (constructor; [simpl; intuition discriminate|]). constructor.
  - vm_compute. reflexivity.
  - left. reflexivity.
  - vm_compute. reflexivity.
  - reflexivity.
  - reflexivity.
  - intros path' p' [<-|[]] Hp' _. vm_compute in Hp'.
    injection Hp' as <-. reflexivity.
  - exists versions. now split.
Defined.

(** ** resetWorkingTreeAndBumpVersions *)

Lemma updatePackageJsons_other_files versions o paths w file :
  (forall path, In path paths -> file <> path +:+ "/package.json") ->
  files (world_after (updatePackageJsons paths versions o w)) !! file
  = files w !! file.
Proof.
  revert w. induction paths as [|path rest IH]; intros w Hne; [reflexivity|].
  rewrite updatePackageJsons_cons.
  destruct (descriptor_at (files w) path) as [p|]; [|reflexivity].
  cbv zeta.
  specialize (IH {| files := <[path +:+ "/package.json" :=
                  stringify (rewrite_descriptor versions o p)]> (files w) |}
                (fun q Hq => Hne q (or_intror Hq))).
  destruct (updatePackageJsons rest versions o _) as [[c w2] ev].
  unfold world_after in *. simpl in *. rewrite IH.
  apply lookup_insert_ne. intros H. symmetry in H.
  now apply (Hne path (or_introl eq_refl)).
Qed.

Lemma reset_run env paths versions w :
  git_checkout_ok env = true ->
  resetWorkingTreeAndBumpVersions env paths versions w
  = (completion
       (updatePackageJsons paths versions reset_mode
          {| files := committed env ∪ files w |}),
     world_after
       (updatePackageJsons paths versions reset_mode
          {| files := committed env ∪ files w |}),
     GitCheckout "."
     :: events
          (updatePackageJsons paths versions reset_mode
             {| files := committed env ∪ files w |})).
Proof.
  intros Hok. unfold resetWorkingTreeAndBumpVersions, bind, git_checkout.
  rewrite Hok. fold reset_mode.
  now destruct (updatePackageJsons paths versions reset_mode _) as [[c w2] ev].
Qed.

Lemma reset_completion env paths versions w :
  git_checkout_ok env = true ->
  completion (resetWorkingTreeAndBumpVersions env paths versions w)
  = completion (updatePackageJsons paths versions reset_mode
                  {| files := committed env ∪ files w |}).
Proof. intros Hok. now rewrite (reset_run env paths versions w Hok). Qed.

Lemma reset_world env paths versions w :
  git_checkout_ok env = true ->
  world_after (resetWorkingTreeAndBumpVersions env paths versions w)
  = world_after (updatePackageJsons paths versions reset_mode
                   {| files := committed env ∪ files w |}).
Proof. intros Hok. now rewrite (reset_run env paths versions w Hok). Qed.

Lemma rewrite_descriptor_reset_mode versions p :
  rewrite_descriptor versions reset_mode p
  = with_version p (map_get (name p) versions).
Proof. reflexivity. Qed.

(** The reset puts every tracked file back to what version control
    holds, whatever the tree had become, and then changes nothing but
    the version of the packages it is given: their names, flags and
    dependencies are those of version control, and a tracked file of
    any other package is exactly the one of version control. *)
Theorem reset_restores_then_bumps
    (env : Env) (paths : list string) (versions : dict jsval) (w : World) :
  git_checkout_ok env = true ->
  List.NoDup paths ->
  forallb (readable (committed env ∪ files w)) paths = true ->
  completion (resetWorkingTreeAndBumpVersions env paths versions w) = Done tt
  /\ (forall path p,
        In path paths ->
        descriptor_at (committed env ∪ files w) path = Some p ->
        descriptor_at
          (files (world_after
                    (resetWorkingTreeAndBumpVersions env paths versions w)))
          path
        = Some (with_version p (map_get (name p) versions)))
  /\ (forall file j,
        committed env !! file = Some j ->
        (forall path, In path paths -> file <> path +:+ "/package.json") ->
        files (world_after
                 (resetWorkingTreeAndBumpVersions env paths versions w))
          !! file = Some j).
Proof.
  intros Hok Hnd Hr.
  rewrite (reset_completion env paths versions w Hok),
    (reset_world env paths versions w Hok).
  split; [|split].
  - destruct (updatePackageJsons_completes versions reset_mode paths
                {| files := committed env ∪ files w |} Hr) as (w' & -> & _).
    reflexivity.
  - intros path p Hin Hp. unfold descriptor_at at 1.
    rewrite (updatePackageJsons_written versions reset_mode paths
               {| files := committed env ∪ files w |} path p Hnd Hr Hin Hp).
    rewrite parse_stringify. now rewrite rewrite_descriptor_reset_mode.
  - intros file j Hj Hne.
    rewrite (updatePackageJsons_other_files versions reset_mode paths
               {| files := committed env ∪ files w |} file Hne).
    simpl. now apply lookup_union_Some_l.
Qed.

Lemma reset_restores_then_bumps_witness :
  descriptor_at
    (files (world_after
              (resetWorkingTreeAndBumpVersions (Scenario.env Scenario.yes [])
                 [Scenario.umbrella_dir] [("firebase-exp", Str "1.2.4")]
                 (world_after
                    (updatePackageNamesAndVersions
                       (Scenario.env Scenario.yes []) Scenario.paths
                       Scenario.world)))))
    Scenario.umbrella_dir
  = Some (with_version (Scenario.descriptor "firebase-exp" "1.2.3" None)
            (Str "1.2.4"))
  /\ files (world_after
              (resetWorkingTreeAndBumpVersions (Scenario.env Scenario.yes [])
                 [Scenario.umbrella_dir] [("firebase-exp", Str "1.2.4")]
                 (world_after
                    (updatePackageNamesAndVersions
                       (Scenario.env Scenario.yes []) Scenario.paths
                       Scenario.world))))
       !! (Scenario.a_dir +:+ "/package.json")
     = Some (stringify (Scenario.descriptor "@x/a-exp" "0.5.0"
                          (Some [("@x/b-exp", "^0.5.0")]))).
Proof.
  destruct (reset_restores_then_bumps (Scenario.env Scenario.yes [])
              [Scenario.umbrella_dir] [("firebase-exp", Str "1.2.4")]
              (world_after
                 (updatePackageNamesAndVersions
                    (Scenario.env Scenario.yes []) Scenario.paths
                    Scenario.world)))
    as (_ & Hbump & Hrest).
  - reflexivity.
  - repeat (constructor; [simpl; intuition discriminate|]). constructor.
  - vm_compute. reflexivity.
  - split.
    + rewrite (Hbump Scenario.umbrella_dir
                 (Scenario.descriptor "firebase-exp" "1.2.3" None)).
      * reflexivity.
      * left. reflexivity.
      * vm_compute. reflexivity.
    + apply Hrest.
      * vm_compute. reflexivity.
      * intros path [<-|[]]. discriminate.
Defined.

(** The reset as the workflow calls it: the packages are chosen by
    their directory (the ones whose path contains firebase-exp) while
    the version map holds the umbrella name alone. A package chosen
    that way keeps a version only if it is named like the umbrella; any
    other one is written without version. *)
Theorem reset_call_versions
    (env : Env) (paths : list string) (v : jsval) (w : World)
    (path : string) (p : PackageJson) :
  git_checkout_ok env = true ->
  List.NoDup paths ->
  forallb (readable (committed env ∪ files w))
    (filter (fun q => includes FIREBASE_UMBRELLA_PACKAGE_NAME q) paths) = true ->
  In path paths ->
  includes FIREBASE_UMBRELLA_PACKAGE_NAME path = true ->
  descriptor_at (committed env ∪ files w) path = Some p ->
  descriptor_at
    (files (world_after
              (resetWorkingTreeAndBumpVersions env
                 (filter (fun q => includes FIREBASE_UMBRELLA_PACKAGE_NAME q)
                    paths)
                 (dict_set FIREBASE_UMBRELLA_PACKAGE_NAME v []) w)))
    path
  = Some (with_version p
            (if String.eqb (name p) FIREBASE_UMBRELLA_PACKAGE_NAME
             then v else Undefined)).
Proof.
  intros Hok Hnd Hr Hin Hinc Hp.
  rewrite (reset_world env _ _ w Hok).
  unfold descriptor_at at 1.
  rewrite (updatePackageJsons_written _ reset_mode _
             {| files := committed env ∪ files w |} path p
             (proj1 (NoDup_ListNoDup _)
                (NoDup_filter _ _ (proj2 (NoDup_ListNoDup _) Hnd))) Hr).
  - rewrite parse_stringify, rewrite_descriptor_reset_mode.
    f_equal. f_equal. unfold map_get.
    destruct (String.eqb_spec (name p) FIREBASE_UMBRELLA_PACKAGE_NAME)
      as [->|Hne].
    + now rewrite dict_get_set_eq.
    + rewrite dict_get_set_ne; [reflexivity|].
      intros Heq. now apply Hne.
  - apply list_elem_of_In, list_elem_of_filter. split.
    + rewrite Hinc. exact I.
    + now apply list_elem_of_In.
  - exact Hp.
Qed.

Lemma reset_call_versions_witness :
  descriptor_at
    (files (world_after
              (resetWorkingTreeAndBumpVersions
                 {| projectRoot := "/home/dev/firebase-exp-sdk";
                    prepare_firestore := fun fs => Some fs;
                    workspace_packages := fun _ => Some [];
                    spawn_ok := fun _ _ _ => true;
                    exec_stdout := fun _ => None;
                    installations_dist_exists := false;
                    remove_dir_ok := true;
                    committed :=
                      {["/home/dev/firebase-exp-sdk/packages/firestore/package.json"
                        := stringify (Scenario.descriptor
                                        "@firebase/firestore" "2.0.0" None)]};
                    git_checkout_ok := true;
                    git_revparse := fun _ => Some "abcdef";
                    answer := Scenario.yes |}
                 (filter (fun q => includes FIREBASE_UMBRELLA_PACKAGE_NAME q)
                    ["/home/dev/firebase-exp-sdk/packages/firestore"])
                 (dict_set FIREBASE_UMBRELLA_PACKAGE_NAME (Str "1.2.4") [])
                 {| files := ∅ |})))
    "/home/dev/firebase-exp-sdk/packages/firestore"
  = Some (with_version
            (Scenario.descriptor "@firebase/firestore" "2.0.0" None)
            Undefined).
Proof.
  apply reset_call_versions.
  - reflexivity.
  - repeat (constructor; [simpl; intuition discriminate|]). constructor.
  - vm_compute. reflexivity.
  - left. reflexivity.
  - vm_compute. reflexivity.
  - vm_compute. reflexivity.
Defined.

(** ** What a run is allowed to do *)

(** The steps that come before the first confirmation cause events of
    any kind that holds the events of the tools they call. *)
Section SetupSteps.

Variable env : Env.
Variable P : Event -> bool.

Hypothesis P_yarn : forall args cwd, P (Spawn "yarn" args cwd) = true.
Hypothesis P_prepare : P PrepareFirestore = true.
Hypothesis P_remove : forall dir, P (RemoveDir dir) = true.
Hypothesis P_workspace : forall patterns, P (MapWorkspace patterns) = true.
Hypothesis P_revparse : forall args, P (GitRevparse args) = true.
Hypothesis P_write : forall file, P (WriteFile file) = true.

Lemma setup_spawn_yarn args cwd : emits P (spawn env "yarn" args cwd).
Proof.
  apply emits_bind; [now apply emits_emit|]. intros _.
  destruct (spawn_ok env "yarn" args cwd);
    [apply emits_ret | apply emits_throw].
Qed.

Lemma setup_prepare : emits P (prepareFirestoreForRelease env).
Proof.
  intros w. unfold prepareFirestoreForRelease.
  destruct (prepare_firestore env (files w));
    (split; [simpl; now rewrite P_prepare | discriminate]).
Qed.

Lemma setup_rmdir path : emits P (rmdirSync env path).
Proof.
  apply emits_bind; [now apply emits_emit|]. intros _.
  destruct (remove_dir_ok env); [apply emits_ret | apply emits_throw].
Qed.

Lemma setup_build : emits P (buildPackages env).
Proof.
  unfold buildPackages.
  repeat (apply emits_bind; [apply setup_spawn_yarn | intros _]).
  apply emits_bind; [|intros _; apply setup_spawn_yarn].
  destruct (installations_dist_exists env);
    [apply setup_rmdir | apply emits_ret].
Qed.

Lemma setup_workspace patterns :
  emits P (mapWorkspaceToPackages env patterns).
Proof.
  apply emits_bind; [now apply emits_emit|]. intros _.
  destruct (workspace_packages env patterns);
    [apply emits_ret | apply emits_throw].
Qed.

Lemma setup_sha : emits P (getCurrentSha env).
Proof.
  apply emits_bind; [|intros; apply emits_ret].
  apply emits_bind; [now apply emits_emit|]. intros _.
  destruct (git_revparse env _); [apply emits_ret | apply emits_throw].
Qed.

Lemma setup_rewriter paths versions o :
  emits P (updatePackageJsons paths versions o).
Proof.
  induction paths as [|path rest IH]; simpl; [apply emits_ret|].
  apply emits_bind; [apply emits_readPackageJson|]. intros p.
  apply emits_bind; [|intros _; exact IH].
  intros w. split; [simpl; now rewrite P_write | discriminate].
Qed.

Lemma setup_plan paths acc : emits P (plan_versions env paths acc).
Proof.
  revert acc. induction paths as [|path rest IH]; intros acc; simpl;
    [apply emits_ret|].
  apply emits_bind; [apply emits_readPackageJson|]. intros p.
  destruct (String.eqb (name p) FIREBASE_UMBRELLA_PACKAGE_NAME);
    [apply IH|].
  apply emits_bind; [apply setup_sha | intros sha; apply IH].
Qed.

Lemma setup_planner paths :
  emits P (updatePackageNamesAndVersions env paths).
Proof.
  apply emits_bind; [apply setup_plan|]. intros versions.
  apply emits_bind; [apply setup_rewriter | intros _; apply emits_ret].
Qed.

Lemma events_after {A B : Type} (m : M A) (k : A -> M B) w :
  emits P m ->
  (forall a w1, forallb P (events (k a w1)) = true) ->
  forallb P (events (bind m k w)) = true.
Proof.
  intros Hm Hk. destruct (Hm w) as [Hq _].
  destruct (m w) as [[[a|e|code] w1] ev1] eqn:E; simpl in Hq.
  - rewrite (proj2 (bind_Done_run m k w a w1 ev1 E)).
    now rewrite forallb_app, Hq, Hk.
  - now rewrite (proj2 (bind_Throw_run m k w e w1 ev1 E)).
  - now rewrite (proj2 (bind_Exit_run m k w code w1 ev1 E)).
Qed.

End SetupSteps.

Ltac events_done E :=
  match goal with
  | |- context [events (bind ?m ?k ?w)] =>
      rewrite (proj2 (bind_Done_run m k w _ _ _ E)); cbv beta
  end.

Ltac events_throw E :=
  match goal with
  | |- context [events (bind ?m ?k ?w)] =>
      rewrite (proj2 (bind_Throw_run m k w _ _ _ E))
  end.

Ltac events_exit E :=
  match goal with
  | |- context [events (bind ?m ?k ?w)] =>
      rewrite (proj2 (bind_Exit_run m k w _ _ _ E))
  end.

Section Permitted.

Variable env : Env.
Variable dryRun : bool.

Lemma permitted_publish_events fs paths :
  answer env "versionCheck" = true ->
  forallb (permitted env dryRun)
    (flat_map (publish_events env dryRun fs) paths) = true.
Proof.
  intros Hvc. induction paths as [|pp rest IH]; [reflexivity|].
  cbn [flat_map publish_events app forallb]. rewrite IH.
  cbn [permitted]. rewrite Hvc, bool_decide_eq_true_2 by reflexivity.
  reflexivity.
Qed.

Lemma permitted_reset paths versions :
  answer env "versionCheck" = true ->
  answer env "resetWorkingTree" = true ->
  emits (permitted env dryRun)
    (resetWorkingTreeAndBumpVersions env paths versions).
Proof.
  intros Hvc Hreset.
  apply emits_bind; [|intros _; now apply setup_rewriter].
  intros w. unfold git_checkout.
  destruct (git_checkout_ok env);
    (split; [simpl; now rewrite Hvc, Hreset | discriminate]).
Qed.

(** Whatever the body of the [try] block does is permitted. *)
Lemma try_permitted w :
  forallb (permitted env dryRun)
    (events (publishExpPackages_try env dryRun w)) = true.
Proof.
  unfold publishExpPackages_try.
  apply events_after; [now apply setup_prepare|]. intros _ w1.
  apply events_after; [now apply setup_build|]. clear w1. intros _ w1.
  apply events_after; [now apply setup_workspace|]. clear w1.
  intros workspace w1. cbv zeta.
  set (packagePaths := workspace ++ [projectRoot env +:+ "/packages/firestore"]).
  apply events_after; [now apply setup_planner|]. clear w1.
  intros versions w1.
  (* the confirmation of the versions *)
  events_done (prompt_run env "versionCheck" w1).
  cbn [app forallb].
  replace (permitted env dryRun (Prompt "versionCheck")) with true
    by reflexivity.
  cbn [andb].
  destruct (answer env "versionCheck") eqn:Hvc; cbn [negb].
  2:{ now events_throw
        (throw_run (A := unit) (JsError "Version check failed") w1). }
  events_done (ret_run tt w1). cbn [app].
  (* the publisher *)
  destruct (forallb (readable (files w1)) packagePaths) eqn:Hread.
  2:{ destruct (publish_tasks_unreadable env dryRun _ _ Hread) as (e & E).
      assert (E' : publishToNpm env packagePaths dryRun w1 = (Throw e, w1, [])).
      { unfold publishToNpm, bind. now rewrite E. }
      now events_throw E'. }
  pose proof (publishToNpm_run env dryRun _ _ Hread) as E.
  pose proof (permitted_publish_events (files w1) packagePaths Hvc) as Hpub.
  set (pub := flat_map (publish_events env dryRun (files w1)) packagePaths)
    in *.
  destruct (publish_errors env dryRun packagePaths) as [|e0 errors].
  2:{ now events_throw E. }
  events_done E. rewrite forallb_app, Hpub. cbn [andb].
  (* the confirmation of the reset *)
  events_done (prompt_run env "resetWorkingTree" w1).
  cbn [app forallb].
  replace (permitted env dryRun (Prompt "resetWorkingTree"))
    with (answer env "versionCheck") by reflexivity.
  rewrite Hvc. cbn [andb].
  destruct (answer env "resetWorkingTree") eqn:Hreset.
  2:{ now events_exit (process_exit_run (A := unit) 0 w1). }
  apply events_after; [now apply permitted_reset|]. intros _ w2.
  (* the confirmation of the commit *)
  destruct dryRun eqn:Hdry; cbn [negb]; [reflexivity|].
  events_done (prompt_run env "commitAndPush" w2).
  cbn [app forallb].
  replace (permitted env false (Prompt "commitAndPush"))
    with (negb false && answer env "versionCheck"
          && answer env "resetWorkingTree") by reflexivity.
  rewrite Hvc, Hreset. cbn [negb andb].
  now destruct (answer env "commitAndPush").
Qed.

Lemma run_permitted w e :
  In e (trace (publishExpPackages env dryRun w)) ->
  permitted env dryRun e = true.
Proof.
  rewrite publishExpPackages_trace. intros Hin.
  apply in_app_or in Hin as [Hin|Hin].
  - exact (forallb_In _ _ _ (try_permitted w) Hin).
  - destruct (completion (publishExpPackages_try env dryRun w));
      try contradiction.
    destruct Hin as [<-|[]]. reflexivity.
Qed.

End Permitted.

Lemma questions_app l k : questions (l ++ k) = questions l ++ questions k.
Proof. apply flat_map_app. Qed.

Lemma questions_none (P : Event -> bool) l :
  (forall question, P (Prompt question) = false) ->
  forallb P l = true -> questions l = [].
Proof.
  intros HP. induction l as [|e l IH]; [reflexivity|].
  simpl. intros H. apply andb_true_iff in H as [He Hl].
  destruct e; try (now apply IH). now rewrite HP in He.
Qed.

Lemma questions_prompt question l :
  questions (Prompt question :: l) = question :: questions l.
Proof. reflexivity. Qed.

Lemma questions_error e : questions [ConsoleError e] = [].
Proof. reflexivity. Qed.

(** The publisher is given the arguments of the mode, and runs only
    once the operator has confirmed the versions: a package is handed
    to npm with the flag of a dry run exactly in a dry run, under the
    tag exp, and never with other arguments. *)
Theorem publish_arguments
    (env : Env) (dryRun : bool) (w : World) (args : list string)
    (cwd : string) :
  In (Spawn "npm" args cwd) (trace (publishExpPackages env dryRun w)) ->
  answer env "versionCheck" = true
  /\ args = publish_args dryRun
  /\ (In "--dry-run" args <-> dryRun = true).
Proof.
  intros Hin. apply run_permitted in Hin. cbn [permitted] in Hin.
  replace (String.eqb "npm" "npm") with true in Hin by reflexivity.
  apply andb_true_iff in Hin as [Hvc Hargs].
  apply bool_decide_eq_true_1 in Hargs. subst args.
  split; [exact Hvc|]. split; [reflexivity|].
  destruct dryRun; simpl; split; intros H; try reflexivity;
    try discriminate; intuition discriminate.
Qed.

Lemma publish_arguments_witness :
  In "--dry-run" ["publish"; "--access"; "public"; "--tag"; "exp";
                  "--dry-run"]
  <-> true = true.
Proof.
  apply (publish_arguments (Scenario.env Scenario.yes []) true
           Scenario.world
           ["publish"; "--access"; "public"; "--tag"; "exp"; "--dry-run"]
           Scenario.a_dir).
  vm_compute. find_event.
Defined.

(** The working tree is reset only when the operator has confirmed
    the versions and the reset, and the reset is of the whole tree. *)
Theorem checkout_needs_confirmations
    (env : Env) (dryRun : bool) (w : World) (what : string) :
  In (GitCheckout what) (trace (publishExpPackages env dryRun w)) ->
  what = "."
  /\ answer env "versionCheck" = true
  /\ answer env "resetWorkingTree" = true.
Proof.
  intros Hin. apply run_permitted in Hin. cbn [permitted] in Hin.
  apply andb_true_iff in Hin as [Hin Hreset].
  apply andb_true_iff in Hin as [Hwhat Hvc].
  apply String.eqb_eq in Hwhat. now repeat split.
Qed.

Lemma checkout_needs_confirmations_witness :
  "." = "."
  /\ answer (Scenario.env Scenario.yes []) "versionCheck" = true
  /\ answer (Scenario.env Scenario.yes []) "resetWorkingTree" = true.
Proof.
  apply (checkout_needs_confirmations (Scenario.env Scenario.yes []) true
           Scenario.world ".").
  vm_compute. find_event.
Defined.

(** The commit is proposed only outside a dry run, and only when the
    operator has confirmed the versions and the reset. *)
Theorem commit_proposed_outside_dry_run
    (env : Env) (dryRun : bool) (w : World) :
  In (Prompt "commitAndPush") (trace (publishExpPackages env dryRun w)) ->
  dryRun = false
  /\ answer env "versionCheck" = true
  /\ answer env "resetWorkingTree" = true.
Proof.
  intros Hin. apply run_permitted in Hin. cbn [permitted] in Hin.
  replace (String.eqb "commitAndPush" "resetWorkingTree") with false in Hin
    by reflexivity.
  replace (String.eqb "commitAndPush" "commitAndPush") with true in Hin
    by reflexivity.
  apply andb_true_iff in Hin as [Hin Hreset].
  apply andb_true_iff in Hin as [Hdry Hvc].
  apply negb_true_iff in Hdry. now repeat split.
Qed.

Lemma commit_proposed_outside_dry_run_witness :
  false = false
  /\ answer (Scenario.env (Scenario.yes_but "commitAndPush") [])
       "versionCheck" = true
  /\ answer (Scenario.env (Scenario.yes_but "commitAndPush") [])
       "resetWorkingTree" = true.
Proof.
  apply (commit_proposed_outside_dry_run
           (Scenario.env (Scenario.yes_but "commitAndPush") []) false
           Scenario.world).
  vm_compute. find_event.
Defined.

(** The confirmations are asked in one order, each at most once, and
    none is skipped: the questions of a run are the first ones of the
    versions, the reset and the commit. *)
Theorem confirmations_in_order (env : Env) (dryRun : bool) (w : World) :
  exists n,
    questions (trace (publishExpPackages env dryRun w))
    = firstn n ["versionCheck"; "resetWorkingTree"; "commitAndPush"].
Proof.
  rewrite publishExpPackages_trace.
  assert (Hq : forall l, forallb quiet l = true -> questions l = []).
  { intros l. now apply questions_none. }
  assert (Hp : forall l, forallb publishing l = true -> questions l = []).
  { intros l. now apply questions_none. }
  assert (Hd : forall l, forallb published l = true -> questions l = []).
  { intros l. now apply questions_none. }
  destruct (try_outcome env dryRun w);
    repeat first [ rewrite questions_app
                 | rewrite questions_prompt
                 | rewrite questions_error
                 | match goal with
                   | H : forallb quiet ?l = true |- context [questions ?l] =>
                       rewrite (Hq l H)
                   | H : forallb publishing ?l = true
                     |- context [questions ?l] => rewrite (Hp l H)
                   | H : forallb published ?l = true
                     |- context [questions ?l] => rewrite (Hd l H)
                   end ];
    cbn [app questions flat_map];
    first [now exists 0 | now exists 1 | now exists 2 | now exists 3].
Qed.

(** ** The tree that a run leaves behind *)

Lemma bind_Done_world {A B : Type} (m : M A) (k : A -> M B) w a w1 ev1 :
  m w = (Done a, w1, ev1) ->
  world_after (bind m k w) = world_after (k a w1).
Proof.
  intros E. unfold bind. rewrite E. now destruct (k a w1) as [[c w2] ev2].
Qed.

Lemma bind_stop_world {A B : Type} (m : M A) (k : A -> M B) w c w1 ev1 :
  m w = (c, w1, ev1) -> (forall a, c <> Done a) ->
  world_after (bind m k w) = w1.
Proof.
  intros E Hc. unfold bind. rewrite E.
  destruct c as [a| |]; [now destruct (Hc a) | reflexivity | reflexivity].
Qed.

Lemma publishExpPackages_tree env dryRun w :
  tree_after (publishExpPackages env dryRun w)
  = files (world_after (publishExpPackages_try env dryRun w)).
Proof.
  unfold publishExpPackages, tree_after, world_after.
  now destruct (publishExpPackages_try env dryRun w) as [[[?|?|?] ?] ?].
Qed.

Lemma publishToNpm_world env dryRun paths w :
  world_after (publishToNpm env paths dryRun w) = w
  /\ forall code,
       completion (publishToNpm env paths dryRun w) <> ProcessExit code.
Proof.
  destruct (forallb (readable (files w)) paths) eqn:Hr.
  - rewrite (publishToNpm_run env dryRun paths w Hr).
    split; [reflexivity|].
    now destruct (publish_errors env dryRun paths).
  - destruct (publish_tasks_unreadable env dryRun paths w Hr) as (e & E).
    unfold publishToNpm, bind. rewrite E. now split.
Qed.

(** The descriptors are rewritten before the operator is asked
    anything, and only the reset puts them back: when the versions or
    the reset are not confirmed, the run leaves behind the tree of the
    rewritten descriptors, whatever the publisher did. *)
Theorem rewrite_stays_without_reset
    (env : Env) (dryRun : bool) (w : World) (fs : gmap string json)
    (ws : list string) (versions : dict jsval) :
  prepare_firestore env (files w) = Some fs ->
  forallb (spawned_ok env) (build_events env) = true ->
  workspace_packages env [projectRoot env +:+ "/packages-exp/*"] = Some ws ->
  completion
    (updatePackageNamesAndVersions env
       (ws ++ [projectRoot env +:+ "/packages/firestore"])
       {| files := fs |}) = Done versions ->
  answer env "versionCheck" && answer env "resetWorkingTree" = false ->
  tree_after (publishExpPackages env dryRun w)
  = files (world_after
             (updatePackageNamesAndVersions env
                (ws ++ [projectRoot env +:+ "/packages/firestore"])
                {| files := fs |})).
Proof.
  intros Hprep Hbuild Hws Hplan Hans.
  rewrite publishExpPackages_tree. f_equal.
  unfold publishExpPackages_try.
  assert (E1 : prepareFirestoreForRelease env w
               = (Done tt, {| files := fs |}, [PrepareFirestore])).
  { unfold prepareFirestoreForRelease. now rewrite Hprep. }
  rewrite (bind_Done_world _ _ _ _ _ _ E1).
  destruct (buildPackages_run env {| files := fs |}) as (Hw & _ & Hiff).
  apply Hiff in Hbuild.
  destruct (buildPackages env {| files := fs |}) as [[c2 w2] ev2] eqn:E2.
  unfold world_after, completion in Hw, Hbuild. cbn [fst snd] in Hw, Hbuild.
  subst c2 w2.
  rewrite (bind_Done_world _ _ _ _ _ _ E2).
  assert (E3 : mapWorkspaceToPackages env
                 [projectRoot env +:+ "/packages-exp/*"] {| files := fs |}
               = (Done ws, {| files := fs |},
                  [MapWorkspace [projectRoot env +:+ "/packages-exp/*"]])).
  { unfold mapWorkspaceToPackages, bind, emit. now rewrite Hws. }
  rewrite (bind_Done_world _ _ _ _ _ _ E3). cbv zeta.
  set (packagePaths := ws ++ [projectRoot env +:+ "/packages/firestore"]) in *.
  destruct (updatePackageNamesAndVersions env packagePaths {| files := fs |})
    as [[c4 w4] ev4] eqn:E4.
  unfold completion in Hplan. cbn [fst snd] in Hplan. subst c4.
  rewrite (bind_Done_world _ _ _ _ _ _ E4).
  unfold world_after at 2. cbn [fst snd].
  rewrite (bind_Done_world _ _ _ _ _ _ (prompt_run env "versionCheck" w4)).
  destruct (answer env "versionCheck") eqn:Hvc; cbn [negb].
  2:{ now rewrite (bind_stop_world _ _ _ _ _ _
                     (throw_run (A := unit)
                        (JsError "Version check failed") w4)). }
  rewrite (bind_Done_world _ _ _ _ _ _ (ret_run tt w4)).
  destruct (publishToNpm_world env dryRun packagePaths w4) as [Hw5 Hx5].
  destruct (publishToNpm env packagePaths dryRun w4)
    as [[[[]|e|code] w5] ev5] eqn:E5;
    unfold world_after, completion in Hw5, Hx5; cbn [fst snd] in Hw5, Hx5;
    subst w5.
  - rewrite (bind_Done_world _ _ _ _ _ _ E5).
    rewrite (bind_Done_world _ _ _ _ _ _
               (prompt_run env "resetWorkingTree" w4)).
    simpl in Hans. rewrite Hans.
    now rewrite (bind_stop_world _ _ _ _ _ _
                   (process_exit_run (A := unit) 0 w4)).
  - now rewrite (bind_stop_world _ _ _ _ _ _ E5).
  - now destruct (Hx5 code).
Qed.

Lemma rewrite_stays_without_reset_witness :
  descriptor_at
    (tree_after
       (publishExpPackages
          (Scenario.env (Scenario.yes_but "versionCheck") []) false
          Scenario.world))
    Scenario.a_dir
  = descriptor_at
      (files (world_after
                (updatePackageNamesAndVersions
                   (Scenario.env (Scenario.yes_but "versionCheck") [])
                   (Scenario.paths ++ [Scenario.firestore_dir])
                   Scenario.world)))
      Scenario.a_dir.
Proof.
  apply (f_equal (fun t => descriptor_at t Scenario.a_dir)).
  eapply (rewrite_stays_without_reset
            (Scenario.env (Scenario.yes_but "versionCheck") []) false
            Scenario.world Scenario.tree Scenario.paths).
  - reflexivity.
  - reflexivity.
  - reflexivity.
  - vm_compute. reflexivity.
  - reflexivity.
Defined.

(** ** commitAndPush: the commands and their order *)

Ltac case_commands env :=
  repeat match goal with
         | |- context [exec_stdout env ?c] =>
             let E := fresh "Hexec" in
             destruct (exec_stdout env c) eqn:E
         end.

(** The function [commitAndPush] runs a fixed series of shell commands
    and stops at the first one that fails: the commands run are a
    beginning of the series, it completes exactly when every command
    succeeds, and the error of a failed run is that of the last command
    run. The branch pushed is the one that git names, without the white
    space around it, and the descriptors are not touched. *)
Theorem commitAndPush_fail_fast
    (env : Env) (versions : dict jsval) (w : World) :
  world_after (commitAndPush env versions w) = w
  /\ (exists rest,
        map Exec (commit_commands env versions)
        = events (commitAndPush env versions w) ++ rest)
  /\ (completion (commitAndPush env versions w) = Done tt
      <-> forallb (command_ok env) (commit_commands env versions) = true)
  /\ (forall e,
        completion (commitAndPush env versions w) = Throw e ->
        exists command evs,
          e = ExternalFailure command
          /\ command_ok env command = false
          /\ events (commitAndPush env versions w) = evs ++ [Exec command]).
Proof.
  unfold commitAndPush, commit_commands, exec, bind, emit, ret, throw,
    world_after, completion, events, command_ok.
  cbv zeta.
  case_commands env; cbn [fst snd app map forallb andb];
    rewrite ?Hexec, ?Hexec0, ?Hexec1, ?Hexec2; cbn [andb];
    (split; [reflexivity|]);
    (split; [eexists; cbn [app]; reflexivity|]);
    (split; [split; intros H; first [reflexivity | discriminate H]|]);
    intros e He; try discriminate He; injection He as <-;
    eexists; eexists; (split; [reflexivity|]).
  all: split;
    [ match goal with
      | H : exec_stdout ?e ?c = None |- _ =>
          change (match exec_stdout e c with
                  | Some _ => true
                  | None => false
                  end = false);
          now rewrite H
      end
    | first [ exact (eq_refl : _ = [] ++ [_])
            | exact (eq_refl : _ = [_] ++ [_])
            | exact (eq_refl : _ = [_; _] ++ [_])
            | exact (eq_refl : _ = [_; _; _] ++ [_]) ] ].
Qed.
